(** * micro-x-agent-loop: the tool-use orchestration loop and its collaborators

    A shallow embedding of the TypeScript sources

    - [src/types.ts]                   (Tool, AgentConfig)
    - [llm.ts]                         (createClient, toAnthropicTools, chat)
    - [agent.ts]                       (Agent), in its two revisions:
      the one of [src/agent.ts], and the one that ends a round on an empty
      list of tool calls and wraps the executor in [try]/[catch]
    - [tools/bash.ts]                  (bashTool.execute), and the same
      method in the earlier [tools.ts]
    - [src/tools/gmail/parser.ts]      (extractText)

    Promises are modelled by their settlement ([Resolved] or [Rejected]);
    what is thrown or rejected with is any value, [null] and [undefined]
    included; the outside world (file system, network, the LLM provider)
    is an abstract state [World] threaded through every effectful call. *)

From Stdlib Require Import ZArith Ascii String DecimalString DecimalZ.
From stdpp Require Import gmap strings list fin_maps.

Local Open Scope string_scope.
Local Open Scope list_scope.
Set Warnings "-register-all".

(** ** JavaScript values and strings *)

(** The double-quote and line-feed characters used by the template
    literals of the sources. *)
Definition dquote : string := String "034"%char EmptyString.
Definition newline : string := String "010"%char EmptyString.

(** [unknown] values: JSON data. *)
Inductive json : Type :=
| JNull
| JBool (b : bool)
| JNum (n : Z)
| JStr (s : string)
| JArr (items : list json)
| JObj (fields : list (string * json)).

(** [Record<string, unknown>]: a top-level object, keyed by property name. *)
Abbreviation JsObject := (gmap string json).

(** [Array.prototype.join]. *)
Fixpoint join (sep : string) (l : list string) : string :=
  match l with
  | [] => EmptyString
  | [s] => s
  | s :: rest => s +:+ sep +:+ join sep rest
  end.

(** An [Error] object, as far as the sources look at one: they read
    [(err as Error).message] inside a template literal. [message] is what
    that read prints; for a value of another kind that has no such
    property it is the text [undefined]. *)
Record Error : Type := { message : string }.

(** The two values on which reading a property throws. *)
Inductive Nullish : Type := JsNull | JsUndefined.

(** A thrown value, or the reason a promise is rejected with: JavaScript
    lets any value be thrown, [null] and [undefined] included. *)
Inductive Thrown : Type :=
| Raised (e : Error)
| RaisedNullish (n : Nullish).
Coercion Raised : Error >-> Thrown.

(** The [TypeError] of V8 for [(err as Error).message] on [null] or
    [undefined]. *)
Definition TypeError_message (n : Nullish) : Error :=
  {| message :=
       "Cannot read properties of "
       +:+ match n with JsNull => "null" | JsUndefined => "undefined" end
       +:+ " (reading 'message')" |}.

(** Settlement of a promise. *)
Inductive Settled (A : Type) : Type :=
| Resolved (a : A)
| Rejected (e : Thrown).
Arguments Resolved {A} a.
Arguments Rejected {A} e.

(** ** The Anthropic SDK types the sources use *)
Module Anthropic.

(** The block types of the SDK other than ["text"] and ["tool_use"]. *)
Inductive OtherType : Type :=
| thinking | redacted_thinking | server_tool_use | web_search_tool_result.

(** [Anthropic.Messages.ContentBlock]: a union discriminated by [type]. *)
Inductive ContentBlock : Type :=
| TextBlock (text : string)
| ToolUseBlock (id name : string) (input : JsObject)
| OtherBlock (type : OtherType).

(** [Anthropic.Messages.ToolResultBlockParam]; [is_error] is optional. *)
Record ToolResultBlockParam : Type := {
  tool_use_id : string;
  content : string;
  is_error : option bool;
}.

Inductive StopReason : Type :=
| end_turn | max_tokens | stop_sequence | tool_use | pause_turn | refusal.

(** [Anthropic.Messages.Message], restricted to the fields that are read. *)
Record Message : Type := {
  msg_content : list ContentBlock;
  stop_reason : option StopReason;
}.

Inductive Role : Type := user | assistant.

(** The [content] of a [MessageParam]: a string, the blocks of a
    response, or a list of tool results. *)
Inductive ParamContent : Type :=
| Text (s : string)
| Blocks (l : list ContentBlock)
| ToolResults (l : list ToolResultBlockParam).

Record MessageParam : Type := {
  role : Role;
  param_content : ParamContent;
}.

(** [Anthropic.Messages.Tool]. *)
Record Tool : Type := {
  name : string;
  description : string;
  input_schema : JsObject;
}.

(** The argument of [client.messages.create]. *)
Record MessageCreateParams : Type := {
  model : string;
  max_tokens_param : Z;
  system : string;
  messages : list MessageParam;
  tools : list Tool;
}.

#[global] Instance StopReason_eq_dec : EqDecision StopReason.
Proof. solve_decision. Defined.

End Anthropic.

(** ** [src/types.ts] *)
Module Types.
Section Types.
Context {World : Type}.

(** [interface Tool]; [execute] returns a promise, modelled by its
    settlement and the world it leaves. *)
Record Tool : Type := {
  name : string;
  description : string;
  inputSchema : JsObject;
  execute : JsObject -> World -> Settled string * World;
}.

(** The handle returned by [new Anthropic({ apiKey })]: the provider
    behind [client.messages.create]. *)
Record Client : Type := {
  create : Anthropic.MessageCreateParams -> World -> Settled Anthropic.Message * World;
}.

(** [interface AgentConfig]. *)
Record AgentConfig : Type := {
  model : string;
  maxTokens : Z;
  apiKey : string;
  tools : list Tool;
  systemPrompt : string;
}.
End Types.
Arguments Tool : clear implicits.
Arguments Client : clear implicits.
Arguments AgentConfig : clear implicits.
End Types.

(** ** [llm.ts] *)
Module Llm.
Section Llm.
Context {World : Type}.

(** [createClient]; [new_Anthropic] stands for the SDK's
    [new Anthropic({ apiKey })]. *)
Definition createClient (new_Anthropic : string -> Types.Client World)
    (apiKey : string) : Types.Client World :=
  new_Anthropic apiKey.

(** [toAnthropicTools]: the object literal
    [{ type: "object", ...t.inputSchema }] starts from the [type]
    property and copies every own property of [t.inputSchema] over it. *)
Definition toAnthropicTools (tools : list (Types.Tool World)) : list Anthropic.Tool :=
  map (fun t =>
         {| Anthropic.name := Types.name t;
            Anthropic.description := Types.description t;
            Anthropic.input_schema :=
              Types.inputSchema t ∪ {[ "type" := JStr "object" ]} |})
      tools.

(** [chat]: one call of [client.messages.create]. *)
Definition chat (client : Types.Client World) (model : string) (maxTokens : Z)
    (systemPrompt : string) (messages : list Anthropic.MessageParam)
    (tools : list Anthropic.Tool) : World -> Settled Anthropic.Message * World :=
  Types.create client
    {| Anthropic.model := model;
       Anthropic.max_tokens_param := maxTokens;
       Anthropic.system := systemPrompt;
       Anthropic.messages := messages;
       Anthropic.tools := tools |}.
End Llm.
End Llm.

(** ** Effects: mutable conversation, the world, and exceptions *)
Module Eff.
Section Eff.
Context {World : Type}.

(** What the process does to the outside: provider calls and executor
    invocations, in the order they are issued. *)
Inductive Event : Type :=
| EvChat (request : Anthropic.MessageCreateParams)
| EvExec (tool : string) (input : JsObject).

(** The mutable state a running [Agent] touches: [this.messages], the
    world, and the events issued so far. *)
Record Machine : Type := {
  messages : list Anthropic.MessageParam;
  world : World;
  trace : list Event;
}.

(** How a computation ends: with a value, with a thrown value, or by
    exhausting the bound on provider calls given to the model of
    [while (true)]. *)
Inductive Completion (A : Type) : Type :=
| Normal (a : A)
| Throw (e : Thrown)
| OutOfFuel.
Arguments Normal {A} a.
Arguments Throw {A} e.
Arguments OutOfFuel {A}.

Definition M (A : Type) : Type := Machine -> Completion A * Machine.

Definition ret {A} (a : A) : M A := fun m => (Normal a, m).

Definition bind {A B} (c : M A) (k : A -> M B) : M B :=
  fun m =>
    match c m with
    | (Normal a, m') => k a m'
    | (Throw e, m') => (Throw e, m')
    | (OutOfFuel, m') => (OutOfFuel, m')
    end.

(** [try { body } catch (err) { handler }]. *)
Definition try_catch {A} (body : M A) (handler : Thrown -> M A) : M A :=
  fun m =>
    match body m with
    | (Throw e, m') => handler e m'
    | r => r
    end.

(** [(err as Error).message]: the read throws on [null] and
    [undefined]. *)
Definition read_message (err : Thrown) : M string :=
  fun m =>
    match err with
    | Raised e => (Normal (message e), m)
    | RaisedNullish n => (Throw (TypeError_message n), m)
    end.

(** [this.messages.push(msg)]. *)
Definition push (msg : Anthropic.MessageParam) : M unit :=
  fun m => (Normal tt,
            {| messages := messages m ++ [msg];
               world := world m;
               trace := trace m |}).

(** [await p] for a promise [p] produced by an external call that is
    recorded as [ev]. *)
Definition await {A} (ev : Event) (p : World -> Settled A * World) : M A :=
  fun m =>
    let '(r, w) := p (world m) in
    let m' := {| messages := messages m; world := w; trace := trace m ++ [ev] |} in
    match r with
    | Resolved a => (Normal a, m')
    | Rejected e => (Throw e, m')
    end.

Definition get_messages : M (list Anthropic.MessageParam) :=
  fun m => (Normal (messages m), m).
End Eff.
Arguments Event : clear implicits.
Arguments Machine : clear implicits.
Arguments M : clear implicits.
Arguments Normal {A} a.
Arguments Throw {A} e.
Arguments OutOfFuel {A}.

Declare Scope eff_scope.
Delimit Scope eff_scope with eff.
Notation "'do' x <- c1 ; c2" := (bind c1 (fun x => c2))
  (at level 10, x name, c1 at level 100, c2 at level 200) : eff_scope.
Notation "'do_' c1 ; c2" := (bind c1 (fun _ => c2))
  (at level 10, c1 at level 100, c2 at level 200) : eff_scope.
End Eff.

(** ** [class Agent]: what both revisions of [agent.ts] share *)
Module Agent.
Import Eff.
Local Open Scope eff_scope.

Section Agent.
Context {World : Type}.

(** The fields of an [Agent] set by the constructor; the mutable
    [messages] array lives in the [Machine] and starts empty. *)
Record Agent : Type := {
  client : Types.Client World;
  model : string;
  maxTokens : Z;
  systemPrompt : string;
  toolMap : gmap string (Types.Tool World);
  anthropicTools : list Anthropic.Tool;
}.

(** [new Map(entries)]: the entries are set in order, a later key
    overwriting an earlier one. *)
Definition new_Map (entries : list (string * Types.Tool World))
    : gmap string (Types.Tool World) :=
  foldl (fun m kv => <[ kv.1 := kv.2 ]> m) ∅ entries.

(** The six assignments of the constructor body. *)
Definition assign (new_Anthropic : string -> Types.Client World)
    (config : Types.AgentConfig World) : Agent :=
  {| client := Llm.createClient new_Anthropic (Types.apiKey config);
     model := Types.model config;
     maxTokens := Types.maxTokens config;
     systemPrompt := Types.systemPrompt config;
     toolMap := new_Map (map (fun t => (Types.name t, t)) (Types.tools config));
     anthropicTools := Llm.toAnthropicTools (Types.tools config) |}.

(** [constructor(config)]: either the exception it throws or the new
    object. Its body is the assignments: it has no [throw] and no check on
    [config.tools]. *)
Definition constructor (new_Anthropic : string -> Types.Client World)
    (config : Types.AgentConfig World) : Error + Agent :=
  inr (assign new_Anthropic config).

(** The type guard [block.type === "text"], giving [block.text]. *)
Definition as_text (block : Anthropic.ContentBlock) : option string :=
  match block with
  | Anthropic.TextBlock text => Some text
  | _ => None
  end.

(** The type guard [block.type === "tool_use"]. *)
Definition as_tool_use (block : Anthropic.ContentBlock)
    : option (string * string * JsObject) :=
  match block with
  | Anthropic.ToolUseBlock id name input => Some (id, name, input)
  | _ => None
  end.

(** [response.content.filter(text).map(block => block.text).join("\n")]. *)
Definition answer (content : list Anthropic.ContentBlock) : string :=
  join newline (omap as_text content).

(** [response.content.filter(block => block.type === "tool_use")]. *)
Definition toolUseBlocks (content : list Anthropic.ContentBlock)
    : list (string * string * JsObject) :=
  omap as_tool_use content.

(** The tool result pushed when [this.toolMap.get(block.name)] is
    undefined. *)
Definition unknown_tool_result (id name : string) : Anthropic.ToolResultBlockParam :=
  {| Anthropic.tool_use_id := id;
     Anthropic.content := "Error: unknown tool " +:+ dquote +:+ name +:+ dquote;
     Anthropic.is_error := Some true |}.

(** The tool result pushed after [tool.execute] resolved with [result]. *)
Definition success_result (id result : string) : Anthropic.ToolResultBlockParam :=
  {| Anthropic.tool_use_id := id;
     Anthropic.content := result;
     Anthropic.is_error := None |}.

(** The tool result pushed by the [catch] clause, [text] being what
    [(err as Error).message] gave. *)
Definition failure_result (id name text : string) : Anthropic.ToolResultBlockParam :=
  {| Anthropic.tool_use_id := id;
     Anthropic.content :=
       "Error executing tool " +:+ dquote +:+ name +:+ dquote +:+ ": " +:+ text;
     Anthropic.is_error := Some true |}.

(** [await chat(this.client, this.model, this.maxTokens,
    this.systemPrompt, this.messages, this.anthropicTools)]. *)
Definition request (ag : Agent) (msgs : list Anthropic.MessageParam)
    : Anthropic.MessageCreateParams :=
  {| Anthropic.model := model ag;
     Anthropic.max_tokens_param := maxTokens ag;
     Anthropic.system := systemPrompt ag;
     Anthropic.messages := msgs;
     Anthropic.tools := anthropicTools ag |}.

Definition await_chat (ag : Agent) : M World Anthropic.Message :=
  do msgs <- get_messages;
  await (EvChat (request ag msgs))
        (Llm.chat (client ag) (model ag) (maxTokens ag) (systemPrompt ag)
                  msgs (anthropicTools ag)).

(** [await tool.execute(block.input)]. *)
Definition await_execute (name : string) (tool : Types.Tool World) (input : JsObject)
    : M World string :=
  await (EvExec name input) (Types.execute tool input).

Definition assistant_turn (content : list Anthropic.ContentBlock) : Anthropic.MessageParam :=
  {| Anthropic.role := Anthropic.assistant;
     Anthropic.param_content := Anthropic.Blocks content |}.

Definition tool_result_turn (toolResults : list Anthropic.ToolResultBlockParam)
    : Anthropic.MessageParam :=
  {| Anthropic.role := Anthropic.user;
     Anthropic.param_content := Anthropic.ToolResults toolResults |}.

Definition user_turn (userMessage : string) : Anthropic.MessageParam :=
  {| Anthropic.role := Anthropic.user;
     Anthropic.param_content := Anthropic.Text userMessage |}.

(** [while (true) { body }], where [body] yields [Some answer] at a
    [return] and [None] when it falls through; [fuel] bounds the number
    of rounds. *)
Fixpoint while_true (body : M World (option string)) (fuel : nat) : M World string :=
  match fuel with
  | O => fun m => (OutOfFuel, m)
  | S fuel' =>
      do r <- body;
      match r with
      | Some result => ret result
      | None => while_true body fuel'
      end
  end.
End Agent.
Arguments Agent : clear implicits.
End Agent.

(** ** [Agent.run], the revision with the dispatch boundary
    (termination on an empty [toolUseBlocks], [try]/[catch] around the
    executor) *)
Module AgentGuarded.
Import Eff Agent.
Local Open Scope eff_scope.

Section Run.
Context {World : Type}.

(** The body of [for (const block of toolUseBlocks)]. *)
Definition dispatch (ag : Agent World) (block : string * string * JsObject)
    : M World Anthropic.ToolResultBlockParam :=
  let '(id, name, input) := block in
  match toolMap ag !! name with
  | None => ret (unknown_tool_result id name)
  | Some tool =>
      try_catch
        (do result <- await_execute name tool input;
         ret (success_result id result))
        (fun err =>
           do text <- read_message err;
           ret (failure_result id name text))
  end.

(** The [for] loop, pushing onto the local array [toolResults]. *)
Fixpoint for_blocks (ag : Agent World) (blocks : list (string * string * JsObject))
    (toolResults : list Anthropic.ToolResultBlockParam)
    : M World (list Anthropic.ToolResultBlockParam) :=
  match blocks with
  | [] => ret toolResults
  | block :: rest =>
      do r <- dispatch ag block;
      for_blocks ag rest (toolResults ++ [r])
  end.

(** One round of the [while (true)] loop. *)
Definition round (ag : Agent World) : M World (option string) :=
  do response <- await_chat ag;
  do_ push (assistant_turn (Anthropic.msg_content response));
  let blocks := toolUseBlocks (Anthropic.msg_content response) in
  if decide (length blocks = 0) then
    ret (Some (answer (Anthropic.msg_content response)))
  else
    do toolResults <- for_blocks ag blocks [];
    do_ push (tool_result_turn toolResults);
    ret None.

Definition run (ag : Agent World) (fuel : nat) (userMessage : string) : M World string :=
  do_ push (user_turn userMessage);
  while_true (round ag) fuel.
End Run.
End AgentGuarded.

(** ** [Agent.run] of [src/agent.ts]
    (termination on [stop_reason], executor awaited outside any [try]) *)
Module AgentTs.
Import Eff Agent.
Local Open Scope eff_scope.

Section Run.
Context {World : Type}.

(** The body of [for (const block of response.content)] past the
    [continue] that skips the blocks of another type. *)
Definition dispatch (ag : Agent World) (block : string * string * JsObject)
    : M World Anthropic.ToolResultBlockParam :=
  let '(id, name, input) := block in
  match toolMap ag !! name with
  | None => ret (unknown_tool_result id name)
  | Some tool =>
      do result <- await_execute name tool input;
      ret (success_result id result)
  end.

Fixpoint for_content (ag : Agent World) (content : list Anthropic.ContentBlock)
    (toolResults : list Anthropic.ToolResultBlockParam)
    : M World (list Anthropic.ToolResultBlockParam) :=
  match content with
  | [] => ret toolResults
  | block :: rest =>
      match as_tool_use block with
      | None => for_content ag rest toolResults
      | Some b =>
          do r <- dispatch ag b;
          for_content ag rest (toolResults ++ [r])
      end
  end.

(** One round of the [while (true)] loop. *)
Definition round (ag : Agent World) : M World (option string) :=
  do response <- await_chat ag;
  do_ push (assistant_turn (Anthropic.msg_content response));
  if decide (Anthropic.stop_reason response ≠ Some Anthropic.tool_use) then
    ret (Some (answer (Anthropic.msg_content response)))
  else
    do toolResults <- for_content ag (Anthropic.msg_content response) [];
    do_ push (tool_result_turn toolResults);
    ret None.

Definition run (ag : Agent World) (fuel : nat) (userMessage : string) : M World string :=
  do_ push (user_turn userMessage);
  while_true (round ag) fuel.
End Run.
End AgentTs.

(** ** [tools/bash.ts] *)
Module Bash.

(** [error.code] of the [ExecFileException] handed to the callback: an
    exit status or a system error name; absent ([null], [undefined])
    when the child was killed, as by the timeout. *)
Inductive Code : Type :=
| CodeNumber (n : Z)
| CodeString (s : string).

Record ExecFileException : Type := { code : option Code }.

(** The arguments [execFile] passes to its callback. *)
Record Callback : Type := {
  error : option ExecFileException;
  stdout : string;
  stderr : string;
}.

(** A string is a sequence of code units below 256; among them
    [String.prototype.trimEnd] strips TAB, LF, VT, FF, CR, SP and NBSP. *)
Definition isWhiteSpace (c : ascii) : bool :=
  let n := nat_of_ascii c in
  (((9 <=? n) && (n <=? 13)) || (n =? 32) || (n =? 160))%nat.

Fixpoint trimEnd (s : string) : string :=
  match s with
  | EmptyString => EmptyString
  | String c rest =>
      match trimEnd rest with
      | EmptyString => if isWhiteSpace c then EmptyString else String c EmptyString
      | rest' => String c rest'
      end
  end.

(** A number or a string inside a template literal. *)
Definition code_to_string (c : Code) : string :=
  match c with
  | CodeNumber n => DecimalString.NilZero.string_of_int (Z.to_int n)
  | CodeString s => s
  end.

(** [error.code ?? 1], as text. *)
Definition code_or_1 (e : ExecFileException) : string :=
  match code e with
  | Some c => code_to_string c
  | None => code_to_string (CodeNumber 1)
  end.

(** The callback given to [execFile], as the value it passes to
    [resolve]. *)
Definition on_exit (cb : Callback) : string :=
  match error cb with
  | Some e => stdout cb +:+ stderr cb +:+ newline +:+ "[exit code " +:+ code_or_1 e +:+ "]"
  | None => trimEnd (stdout cb +:+ stderr cb)
  end.

(** What a call of [execFile] does. It can throw before it returns: Node
    checks the arguments first, and a string holding a NUL character is
    refused with [ERR_INVALID_ARG_VALUE]. Otherwise it runs the child and
    hands the outcome, whatever it is, to the callback. *)
Inductive Spawn : Type :=
| Threw (err : Thrown)
| CalledBack (cb : Callback).

Section Execute.
Context {World : Type}.

(** Node's [execFile(file, args, { timeout }, callback)]. The arguments
    are JavaScript values, [None] being [undefined]. *)
Variable execFile : string -> list (option json) -> Z -> World -> Spawn * World.

(** [process.platform]. *)
Variable platform : string.

(** [new Promise((resolve) => { execFile(...) })]: the promise is
    rejected with what its executor throws, and resolved by the
    callback. *)
Definition new_Promise (spawned : Spawn * World) : Settled string * World :=
  match spawned with
  | (Threw err, w') => (Rejected err, w')
  | (CalledBack cb, w') => (Resolved (on_exit cb), w')
  end.

(** [bashTool.execute] of [tools/bash.ts]: a promise whose executor only
    receives [resolve]. *)
Definition execute (input : JsObject) : World -> Settled string * World :=
  fun w =>
    let command := input !! "command" in
    let isWindows := bool_decide (platform = "win32") in
    let shell := if isWindows then "cmd.exe" else "bash" in
    let shellArgs :=
      if isWindows then [Some (JStr "/c"); command] else [Some (JStr "-c"); command] in
    new_Promise (execFile shell shellArgs 30000 w).

(** [bashTool.execute] of the first [tools.ts], which always runs
    [bash]. *)
Definition execute_bash_only (input : JsObject) : World -> Settled string * World :=
  fun w =>
    let command := input !! "command" in
    new_Promise (execFile "bash" [Some (JStr "-c"); command] 30000 w).

(** [bashTool] as a [Tool]; the schema is the object literal of the
    source. *)
Definition bashTool : Types.Tool World :=
  {| Types.name := "bash";
     Types.description := "Execute a bash command and return its output (stdout + stderr).";
     Types.inputSchema :=
       {[ "type" := JStr "object";
          "properties" :=
            JObj [("command",
                   JObj [("type", JStr "string");
                         ("description", JStr "The bash command to execute")])];
          "required" := JArr [JStr "command"] ]};
     Types.execute := execute |}.
End Execute.
End Bash.

(** ** [src/tools/gmail/parser.ts] *)
Module Parser.

(** [gmail_v1.Schema$MessagePart], restricted to the fields that are
    read; every field is optional, and [body] is [{ data?: string }]. *)
Inductive MessagePart : Type :=
| Part (mimeType : option string) (body : option (option string))
       (parts : option (list MessagePart)).

Definition mimeType (p : MessagePart) : option string :=
  match p with Part m _ _ => m end.
Definition parts (p : MessagePart) : option (list MessagePart) :=
  match p with Part _ _ ps => ps end.

(** [payload.body?.data] when it is truthy: a non-empty string. *)
Definition body_data (p : MessagePart) : option string :=
  match p with
  | Part _ (Some (Some (String c s))) _ => Some (String c s)
  | _ => None
  end.

(** Truthiness of a string. *)
Definition truthy (s : string) : bool :=
  match s with EmptyString => false | _ => true end.

(** [part.mimeType === m]. *)
Definition mime_is (m : string) (p : MessagePart) : bool :=
  bool_decide (mimeType p = Some m).

(** [part.mimeType?.startsWith("multipart/")]. *)
Definition is_multipart (p : MessagePart) : bool :=
  match mimeType p with
  | Some m => String.prefix "multipart/" m
  | None => false
  end.

Section ExtractText.
(** [Buffer.from(data, "base64url").toString("utf-8")] and the
    cheerio-based [htmlToText]. *)
Variable decodeBody : string -> string.
Variable htmlToText : string -> string.

(** The leading [if (payload.body?.data)] block: [Some] at a [return]. *)
Definition leaf (payload : MessagePart) : option string :=
  match body_data payload with
  | Some data =>
      if mime_is "text/plain" payload then Some (decodeBody data)
      else if mime_is "text/html" payload then Some (htmlToText (decodeBody data))
      else None
  | None => None
  end.

(** First loop of the [multipart/alternative] branch, over the parts
    it is given (the reversed ones). *)
Fixpoint first_html (ps : list MessagePart) : option string :=
  match ps with
  | [] => None
  | part :: rest =>
      match (if mime_is "text/html" part then body_data part else None) with
      | Some data => Some (htmlToText (decodeBody data))
      | None => first_html rest
      end
  end.

(** Third loop: the first [text/plain] part with data. *)
Fixpoint first_plain (ps : list MessagePart) : option string :=
  match ps with
  | [] => None
  | part :: rest =>
      match (if mime_is "text/plain" part then body_data part else None) with
      | Some data => Some (decodeBody data)
      | None => first_plain rest
      end
  end.

(** Second loop, over parts paired with the text [extractText] gives
    for them: the first non-empty text of a multipart child. *)
Fixpoint first_nested (ps : list (MessagePart * string)) : option string :=
  match ps with
  | [] => None
  | (part, text) :: rest =>
      if is_multipart part && truthy text then Some text else first_nested rest
  end.

(** The [multipart/alternative] branch; [None] when it falls through. *)
Definition alternative (ps : list MessagePart) (texts : list string) : option string :=
  match first_html (rev ps) with
  | Some s => Some s
  | None =>
      match first_nested (rev (combine ps texts)) with
      | Some s => Some s
      | None => first_plain ps
      end
  end.

(** [sections.join("\n\n")] for the non-empty texts. *)
Definition sections (texts : list string) : string :=
  join (newline +:+ newline) (List.filter truthy texts).

(** [extractText]. The recursive calls are the ones on the elements of
    [payload.parts]; [texts] holds their results. *)
Fixpoint extractText (payload : MessagePart) : string :=
  match leaf payload with
  | Some s => s
  | None =>
      match payload with
      | Part _ _ None | Part _ _ (Some []) => EmptyString
      | Part _ _ (Some ps) =>
          let texts := List.map extractText ps in
          match (if mime_is "multipart/alternative" payload
                 then alternative ps texts else None) with
          | Some s => s
          | None => sections texts
          end
      end
  end.

(** The same function with its call stack bounded by [depth]: each
    loop calls [extractText] on the part at hand, and [None] means the
    bound was hit. *)
Section Loops.
Variable call : MessagePart -> option string.

Fixpoint nested_loop (ps : list MessagePart) : option (option string) :=
  match ps with
  | [] => Some None
  | part :: rest =>
      if is_multipart part then
        match call part with
        | None => None
        | Some text => if truthy text then Some (Some text) else nested_loop rest
        end
      else nested_loop rest
  end.

Fixpoint sections_loop (ps : list MessagePart) (acc : list string)
    : option (list string) :=
  match ps with
  | [] => Some acc
  | part :: rest =>
      match call part with
      | None => None
      | Some text => sections_loop rest (if truthy text then acc ++ [text] else acc)
      end
  end.
End Loops.

Fixpoint extractText_depth (depth : nat) (payload : MessagePart) : option string :=
  match depth with
  | O => None
  | S d =>
      match leaf payload with
      | Some s => Some s
      | None =>
          match parts payload with
          | None | Some [] => Some EmptyString
          | Some ps =>
              let concat :=
                match sections_loop (extractText_depth d) ps [] with
                | Some secs => Some (join (newline +:+ newline) secs)
                | None => None
                end in
              if mime_is "multipart/alternative" payload then
                match first_html (rev ps) with
                | Some s => Some s
                | None =>
                    match nested_loop (extractText_depth d) (rev ps) with
                    | None => None
                    | Some (Some s) => Some s
                    | Some None =>
                        match first_plain ps with
                        | Some s => Some s
                        | None => concat
                        end
                    end
                end
              else concat
          end
      end
  end.

(** Nesting depth of a part tree. *)
Fixpoint height (payload : MessagePart) : nat :=
  match payload with
  | Part _ _ None => 1
  | Part _ _ (Some ps) => S (list_max (List.map height ps))
  end.

(** The payload is, or contains, a [text/plain] or [text/html] part
    that carries data. *)
Fixpoint has_text (payload : MessagePart) : bool :=
  match payload with
  | Part m b ps =>
      (match body_data payload with
       | Some _ => mime_is "text/plain" payload || mime_is "text/html" payload
       | None => false
       end)
      || match ps with
         | None => false
         | Some l => existsb has_text l
         end
  end.
End ExtractText.
End Parser.

(** ** What a round is observed to do *)
Module Observe.
Import Eff Agent.

Section Observe.
Context {World : Type}.

(** The settlement of the provider call issued from machine [m]. *)
Definition provider_reply (ag : Agent World) (m : Machine World)
    : Settled Anthropic.Message * World :=
  Llm.chat (client ag) (model ag) (maxTokens ag) (systemPrompt ag)
           (messages m) (anthropicTools ag) (world m).

(** The machine right after that call left the world [w]. *)
Definition called (ag : Agent World) (m : Machine World) (w : World) : Machine World :=
  {| messages := messages m;
     world := w;
     trace := trace m ++ [EvChat (request ag (messages m))] |}.

(** The executor invocations a list of tool calls gives rise to: one
    per call whose tool is registered, in the order of the calls. *)
Definition exec_events (ag : Agent World) (blocks : list (string * string * JsObject))
    : list (Event) :=
  omap (fun b : string * string * JsObject =>
          match toolMap ag !! b.1.2 with
          | Some _ => Some (EvExec b.1.2 b.2)
          | None => None
          end) blocks.

(** The tool result owed to a tool call, given how the executor
    settles when the tool is registered; there is none when the reason of
    the rejection has no [message] to read. *)
Definition settle (id name : string) (outcome : Settled string)
    : option Anthropic.ToolResultBlockParam :=
  match outcome with
  | Resolved result => Some (success_result id result)
  | Rejected (Raised e) => Some (failure_result id name (message e))
  | Rejected (RaisedNullish _) => None
  end.

(** [r] answers the tool call [b]: the unknown-tool error when the
    name is not registered, and otherwise the settlement of the
    registered executor on the call's input in some world. *)
Definition answers (ag : Agent World) (b : string * string * JsObject)
    (r : Anthropic.ToolResultBlockParam) : Prop :=
  match toolMap ag !! b.1.2 with
  | None => r = unknown_tool_result b.1.1 b.1.2
  | Some tool => exists w, settle b.1.1 b.1.2 (Types.execute tool b.2 w).1 = Some r
  end.

(** No registered executor rejects with [null] or [undefined]: the
    reason of every rejection has a [message] to read. *)
Definition rejections_readable (ag : Agent World) : Prop :=
  forall name tool input w n,
    toolMap ag !! name = Some tool ->
    (Types.execute tool input w).1 <> Rejected (RaisedNullish n).

(** The provider never rejects with [null] or [undefined]. *)
Definition provider_readable (ag : Agent World) : Prop :=
  forall req w n, (Types.create (client ag) req w).1 <> Rejected (RaisedNullish n).

(** The world in which the executor of the call at position [i] is
    invoked, when the dispatch starts in [w]: the one the executors of the
    registered tools called before it have left. *)
Fixpoint world_at (ag : Agent World) (blocks : list (string * string * JsObject))
    (w : World) (i : nat) : World :=
  match i, blocks with
  | S i', (_, name, input) :: rest =>
      world_at ag rest
               (match toolMap ag !! name with
                | Some tool => (Types.execute tool input w).2
                | None => w
                end) i'
  | _, _ => w
  end.

(** A computation only ever extends the trace. *)
Definition extends_trace {A} (c : M World A) : Prop :=
  forall m, exists evs, trace (c m).2 = trace m ++ evs.

(** The call identifier of a tool call. *)
Definition call_id (b : string * string * JsObject) : string := b.1.1.
End Observe.

(** The invariant of the conversation: every assistant turn that has tool
    calls is followed at once by a tool-result turn whose entries carry
    the identifiers of those calls, in order. *)
Fixpoint well_answered (msgs : list Anthropic.MessageParam) : bool :=
  match msgs with
  | [] => true
  | {| Anthropic.role := Anthropic.assistant;
       Anthropic.param_content := Anthropic.Blocks content |} :: rest =>
      match toolUseBlocks content with
      | [] => well_answered rest
      | blocks =>
          match rest with
          | {| Anthropic.role := Anthropic.user;
               Anthropic.param_content := Anthropic.ToolResults rs |} :: rest' =>
              bool_decide (Anthropic.tool_use_id <$> rs = call_id <$> blocks)
              && well_answered rest'
          | _ => false
          end
      end
  | _ :: rest => well_answered rest
  end.
End Observe.

(** ** Concrete tools, providers and machines *)
Module Examples.
Import Eff Agent.

(** A world in which nothing happens. *)
Definition w0 : unit := tt.

Definition m0 : Machine unit := {| messages := []; world := w0; trace := [] |}.

(** A tool without parameters, whose schema is the empty object. *)
Definition noop : Types.Tool unit :=
  {| Types.name := "noop";
     Types.description := "does nothing";
     Types.inputSchema := ∅;
     Types.execute := fun _ w => (Resolved "done", w) |}.

(** Two tools registered under one name. *)
Definition first_dup : Types.Tool unit :=
  {| Types.name := "dup";
     Types.description := "first";
     Types.inputSchema := {[ "type" := JStr "object" ]};
     Types.execute := fun _ w => (Resolved "first", w) |}.

Definition second_dup : Types.Tool unit :=
  {| Types.name := "dup";
     Types.description := "second";
     Types.inputSchema := {[ "type" := JStr "object" ]};
     Types.execute := fun _ w => (Resolved "second", w) |}.

(** A tool whose executor rejects. *)
Definition failing : Types.Tool unit :=
  {| Types.name := "failing";
     Types.description := "always fails";
     Types.inputSchema := {[ "type" := JStr "object" ]};
     Types.execute := fun _ w => (Rejected {| message := "boom" |}, w) |}.

(** A provider that answers every request with the same message. *)
Definition constant_client (response : Anthropic.Message) : Types.Client unit :=
  {| Types.create := fun _ w => (Resolved response, w) |}.

(** A provider that is down. *)
Definition broken_client : Types.Client unit :=
  {| Types.create := fun _ w => (Rejected {| message := "connection refused" |}, w) |}.

(** A response that asks for a tool, with some text before the call. *)
Definition asks (tool : string) : Anthropic.Message :=
  {| Anthropic.msg_content :=
       [Anthropic.TextBlock "Let me check."; Anthropic.ToolUseBlock "a" tool ∅];
     Anthropic.stop_reason := Some Anthropic.tool_use |}.

(** A provider that asks for the tool until it sees a tool result, and
    then answers with text. *)
Definition tool_then_text (tool reply : string) : Types.Client unit :=
  {| Types.create := fun req w =>
       match last (Anthropic.messages req) with
       | Some {| Anthropic.param_content := Anthropic.ToolResults _ |} =>
           (Resolved {| Anthropic.msg_content := [Anthropic.TextBlock reply];
                        Anthropic.stop_reason := Some Anthropic.end_turn |}, w)
       | _ => (Resolved (asks tool), w)
       end |}.

Definition config (client_tools : list (Types.Tool unit)) : Types.AgentConfig unit :=
  {| Types.model := "claude-sonnet-4-5-20250929";
     Types.maxTokens := 4096;
     Types.apiKey := "key";
     Types.tools := client_tools;
     Types.systemPrompt := "You are a helpful assistant." |}.

(** The agent built by the constructor over a given provider. *)
Definition agent_of (c : Types.Client unit) (ts : list (Types.Tool unit)) : Agent unit :=
  assign (fun _ => c) (config ts).

(** The conversation after the user said "hi". *)
Definition greeted : Machine unit :=
  {| messages := [user_turn "hi"]; world := w0; trace := [] |}.

(** An agent whose provider asks for the registered tool [noop]. *)
Definition agent_noop : Agent unit :=
  agent_of (tool_then_text "noop" "All done.") [noop].

(** An agent whose provider asks for [read_file], which is not
    registered. *)
Definition agent_missing : Agent unit :=
  agent_of (tool_then_text "read_file" "I could not find that tool.") [noop].

(** An [execFile] whose child exits with status 1 and prints nothing. *)
Definition exits_with_1 (file : string) (args : list (option json)) (timeout : Z) (w : unit)
    : Bash.Spawn * unit :=
  (Bash.CalledBack
     {| Bash.error := Some {| Bash.code := Some (Bash.CodeNumber 1) |};
        Bash.stdout := EmptyString; Bash.stderr := EmptyString |}, w).

(** The NUL character, and whether an argument is a string that holds
    one. *)
Definition NUL : ascii := "000"%char.

Definition holds_NUL (arg : option json) : bool :=
  match arg with
  | Some (JStr s) => bool_decide (NUL ∈ list_ascii_of_string s)
  | _ => false
  end.

(** The error of Node's check of [args[1]], for the command that is the
    one character NUL. *)
Definition ERR_INVALID_ARG_VALUE : Error :=
  {| message :=
       "The argument 'args[1]' must be a string without null bytes. Received '\x00'" |}.

(** An [execFile] that checks its arguments as Node does and, when it
    accepts them, hands [cb] to the callback. *)
Definition spawns (cb : Bash.Callback)
    (file : string) (args : list (option json)) (timeout : Z) (w : unit)
    : Bash.Spawn * unit :=
  if existsb holds_NUL args then (Bash.Threw ERR_INVALID_ARG_VALUE, w)
  else (Bash.CalledBack cb, w).

(** A tool whose executor rejects with [null]. *)
Definition rejecting_null : Types.Tool unit :=
  {| Types.name := "rejecting_null";
     Types.description := "rejects without a reason";
     Types.inputSchema := {[ "type" := JStr "object" ]};
     Types.execute := fun _ w => (Rejected (RaisedNullish JsNull), w) |}.

(** A response with two tool calls and the stop reason [tool_use]. *)
Definition asks_two (first second : string) : Anthropic.Message :=
  {| Anthropic.msg_content :=
       [Anthropic.ToolUseBlock "a" first ∅; Anthropic.TextBlock "and";
        Anthropic.ToolUseBlock "b" second ∅];
     Anthropic.stop_reason := Some Anthropic.tool_use |}.

(** A tool that reads the world: a counter, which it reports and
    advances. *)
Definition tick : Types.Tool nat :=
  {| Types.name := "tick";
     Types.description := "reports whether it was called before";
     Types.inputSchema := {[ "type" := JStr "object" ]};
     Types.execute := fun _ w => (Resolved (if Nat.eqb w 0 then "first" else "later"), S w) |}.

(** An agent over that world whose provider asks for [tick] twice. *)
Definition agent_ticking : Agent nat :=
  assign (fun _ => {| Types.create := fun _ w => (Resolved (asks_two "tick" "tick"), w) |})
         {| Types.model := "claude-sonnet-4-5-20250929";
            Types.maxTokens := 4096;
            Types.apiKey := "key";
            Types.tools := [tick];
            Types.systemPrompt := "You are a helpful assistant." |}.

Definition greeted_at (w : nat) : Machine nat :=
  {| messages := [user_turn "hi"]; world := w; trace := [] |}.

(** The same response, cut off by the token budget. *)
Definition cut_off (response : Anthropic.Message) : Anthropic.Message :=
  {| Anthropic.msg_content := Anthropic.msg_content response;
     Anthropic.stop_reason := Some Anthropic.max_tokens |}.

(** A response of several segments that ends the turn. *)
Definition says_three : Anthropic.Message :=
  {| Anthropic.msg_content :=
       [Anthropic.TextBlock "one"; Anthropic.OtherBlock Anthropic.thinking;
        Anthropic.TextBlock EmptyString; Anthropic.TextBlock "three"];
     Anthropic.stop_reason := Some Anthropic.end_turn |}.

(** A message that only carries an image and an empty related part. *)
Definition attachment_only : Parser.MessagePart :=
  Parser.Part (Some "multipart/alternative") None
    (Some [Parser.Part (Some "image/png") (Some (Some "iVBORw0KGgo")) None;
           Parser.Part (Some "multipart/related") None (Some [])]).

(** A message with a plain and an HTML rendering of its text. *)
Definition two_renderings : Parser.MessagePart :=
  Parser.Part (Some "multipart/mixed") None
    (Some [Parser.Part (Some "multipart/alternative") None
             (Some [Parser.Part (Some "text/plain") (Some (Some "plain")) None;
                    Parser.Part (Some "text/html") (Some (Some "html")) None]);
           Parser.Part (Some "text/plain") (Some (Some "footer")) None]).

(** A response cut off by the token budget after a tool call. *)
Definition truncated_tool_call : Anthropic.Message :=
  {| Anthropic.msg_content := [Anthropic.ToolUseBlock "a" "noop" ∅];
     Anthropic.stop_reason := Some Anthropic.max_tokens |}.
End Examples.

(** ** Shape of a conversation and of the events of a run *)
Module Transcript.
Import Eff Agent.

Definition flip_role (r : Anthropic.Role) : Anthropic.Role :=
  match r with
  | Anthropic.user => Anthropic.assistant
  | Anthropic.assistant => Anthropic.user
  end.

Definition role_eqb (r1 r2 : Anthropic.Role) : bool :=
  match r1, r2 with
  | Anthropic.user, Anthropic.user | Anthropic.assistant, Anthropic.assistant => true
  | _, _ => false
  end.

(** The roles of [msgs] alternate, the first one being [expected]. *)
Fixpoint alternates (expected : Anthropic.Role) (msgs : list Anthropic.MessageParam) : bool :=
  match msgs with
  | [] => true
  | msg :: rest =>
      role_eqb (Anthropic.role msg) expected && alternates (flip_role expected) rest
  end.

(** The role expected after [n] turns of a conversation opened by [r]. *)
Definition role_after (r : Anthropic.Role) (n : nat) : Anthropic.Role :=
  if Nat.even n then r else flip_role r.

Section Issued.
Context {World : Type}.

(** What is required of an event issued while the conversation grew from
    [lo] to [hi]: a provider request is built from the agent's fixed
    fields and carries a conversation between [lo] and [hi]; an executor is
    invoked under a registered name. *)
Definition issued (ag : Agent World) (lo hi : list Anthropic.MessageParam)
    (ev : Event) : Prop :=
  match ev with
  | EvChat req =>
      req = request ag (Anthropic.messages req) /\
      lo `prefix_of` Anthropic.messages req /\
      Anthropic.messages req `prefix_of` hi
  | EvExec name _ => is_Some (toolMap ag !! name)
  end.

(** Every registered executor resolves, whatever its input and the world. *)
Definition executors_resolve (ag : Agent World) : Prop :=
  forall name tool input w,
    toolMap ag !! name = Some tool -> exists s, (Types.execute tool input w).1 = Resolved s.

(** The provider gives the stop reason [tool_use] exactly to the responses
    that hold a tool call. *)
Definition stop_reason_tells (ag : Agent World) : Prop :=
  forall req w response w',
    Types.create (client ag) req w = (Resolved response, w') ->
    Anthropic.stop_reason response = Some Anthropic.tool_use <->
    toolUseBlocks (Anthropic.msg_content response) <> [].
End Issued.
End Transcript.

(** ** [getHeader] of [src/tools/gmail/parser.ts] *)
Module Header.

(** [gmail_v1.Schema$MessagePartHeader]: both fields are optional. *)
Record MessagePartHeader : Type := {
  name : option string;
  value : option string;
}.

(** [String.prototype.toLowerCase] on a code unit below 256: the letters
    A-Z and the capital letters of Latin-1 (all of 192-222 but the
    multiplication sign) move up by 32. *)
Definition lower_char (c : ascii) : ascii :=
  let n := nat_of_ascii c in
  if (((65 <=? n) && (n <=? 90)) || ((192 <=? n) && (n <=? 222) && negb (n =? 215)))%nat
  then ascii_of_nat (n + 32)
  else c.

Fixpoint toLowerCase (s : string) : string :=
  match s with
  | EmptyString => EmptyString
  | String c rest => String (lower_char c) (toLowerCase rest)
  end.

(** The predicate of [find]: [h.name?.toLowerCase() === name.toLowerCase()]. *)
Definition matches (queried : string) (h : MessagePartHeader) : bool :=
  match name h with
  | Some n => bool_decide (toLowerCase n = toLowerCase queried)
  | None => false
  end.

(** [getHeader(headers, name)]; [headers] may be [undefined]. *)
Definition getHeader (headers : option (list MessagePartHeader)) (queried : string) : string :=
  match headers with
  | None => EmptyString
  | Some hs =>
      match List.find (matches queried) hs with
      | Some h => match value h with Some v => v | None => EmptyString end
      | None => EmptyString
      end
  end.
End Header.

(** ** [htmlToText] of [src/tools/gmail/parser.ts]: the clean-up of the
    text cheerio extracts *)
Module Html.

Definition TAB : ascii := "009"%char.
Definition LF : ascii := "010"%char.
Definition SP : ascii := " "%char.

(** What a pending run of [run] copies of [c] becomes under
    [replace(/c{min,}/g, r)]. *)
Definition flush (c : ascii) (min : nat) (r : list ascii) (run : nat) : list ascii :=
  if (min <=? run)%nat then r else repeat c run.

(** [replace(/c{min,}/g, r)] for [min >= 1]: the regular expression is
    greedy and global, so each maximal run of at least [min] copies of [c]
    is replaced by [r]; [run] counts the copies of [c] read and not yet
    written. *)
Fixpoint replace_runs (c : ascii) (min : nat) (r : list ascii) (run : nat)
    (l : list ascii) : list ascii :=
  match l with
  | [] => flush c min r run
  | a :: rest =>
      if Ascii.eqb a c then replace_runs c min r (S run) rest
      else flush c min r run ++ a :: replace_runs c min r 0 rest
  end.

(** [String.prototype.trimStart], [trim]. *)
Fixpoint trimStart (s : string) : string :=
  match s with
  | EmptyString => EmptyString
  | String c rest => if Bash.isWhiteSpace c then trimStart rest else s
  end.

Definition trim (s : string) : string := trimStart (Bash.trimEnd s).

(** [.replace(/\t+/g, "  ").replace(/ {3,}/g, "  ").replace(/\n{3,}/g, "\n\n").trim()]. *)
Definition tidy (text : string) : string :=
  trim (string_of_list_ascii
          (replace_runs LF 3 [LF; LF] 0
             (replace_runs SP 3 [SP; SP] 0
                (replace_runs TAB 1 [SP; SP] 0 (list_ascii_of_string text))))).

(** [htmlToText]; [body_text] stands for the cheerio part, from
    [cheerio.load(html)] to [$("body").text()]. *)
Definition htmlToText (body_text : string -> string) (html : string) : string :=
  tidy (body_text html).

(** Number of copies of [c] a list starts with, and length of its longest
    run of [c]. *)
Fixpoint lead (c : ascii) (l : list ascii) : nat :=
  match l with
  | [] => 0
  | a :: rest => if Ascii.eqb a c then S (lead c rest) else 0
  end.

Fixpoint max_run (c : ascii) (l : list ascii) : nat :=
  match l with
  | [] => 0
  | a :: rest => Nat.max (lead c l) (max_run c rest)
  end.
End Html.

(** ** [index.ts]: the interactive prompt *)
Module Repl.
Import Eff Agent.

(** What the process writes: the query of [rl.question], [console.log]
    and [console.error]. *)
Inductive Printed : Type :=
| Question (query : string)
| Log (text : string)
| ErrorLog (text : string).

(** How the prompt ends: [rl.close()] after [exit] or [quit], the end of
    the input with a question pending, a [run] that does not return within
    its bound, a callback whose own [catch] clause throws, so that its
    promise is rejected with nothing to handle it and no further question
    is asked, or [process.exit]. *)
Inductive Ended : Type :=
| Closed
| EndOfInput
| Hung
| Unhandled (err : Thrown)
| Exited (code : Z).

Section Prompt.
Context {World : Type}.

(** [agent.run], bound to the agent of the session. *)
Variable run : string -> M World string.

(** [prompt()]; [lines] are the operator's answers to the successive
    questions. *)
Fixpoint prompt (lines : list string) (m : Machine World)
    : list Printed * Ended * Machine World :=
  match lines with
  | [] => ([Question "you> "], EndOfInput, m)
  | input :: rest =>
      let trimmed := Html.trim input in
      if bool_decide (trimmed = "exit") || bool_decide (trimmed = "quit") then
        ([Question "you> "], Closed, m)
      else if negb (Parser.truthy trimmed) then
        let '(printed, ended, m') := prompt rest m in
        (Question "you> " :: printed, ended, m')
      else
        match run trimmed m with
        | (Normal response, m1) =>
            let '(printed, ended, m') := prompt rest m1 in
            (Question "you> "
               :: Log (newline +:+ "assistant> " +:+ response +:+ newline) :: printed,
             ended, m')
        | (Throw (Raised err), m1) =>
            let '(printed, ended, m') := prompt rest m1 in
            (Question "you> "
               :: ErrorLog (newline +:+ "Error: " +:+ message err +:+ newline) :: printed,
             ended, m')
        | (Throw (RaisedNullish n), m1) =>
            ([Question "you> "], Unhandled (TypeError_message n), m1)
        | (OutOfFuel, m1) => ([Question "you> "], Hung, m1)
        end
  end.
End Prompt.

Section Main.
Context {World : Type}.

(** [new Anthropic], the [run] method of the [Agent] class in use with the
    bound on its rounds, [builtinTools] and [SYSTEM_PROMPT]. *)
Variable new_Anthropic : string -> Types.Client World.
Variable run : Agent World -> string -> M World string.
Variable builtinTools : list (Types.Tool World).
Variable SYSTEM_PROMPT : string.

(** The module body; [ANTHROPIC_API_KEY] is the environment variable. *)
Definition main (ANTHROPIC_API_KEY : option string) (lines : list string) (m : Machine World)
    : list Printed * Ended * Machine World :=
  match ANTHROPIC_API_KEY with
  | None | Some EmptyString =>
      ([ErrorLog "Error: ANTHROPIC_API_KEY environment variable is required."], Exited 1, m)
  | Some apiKey =>
      let agent :=
        assign new_Anthropic
          {| Types.model := "claude-sonnet-4-5-20250929";
             Types.maxTokens := 4096;
             Types.apiKey := apiKey;
             Types.tools := builtinTools;
             Types.systemPrompt := SYSTEM_PROMPT |} in
      let '(printed, ended, m') := prompt (run agent) lines m in
      (Log "micro-x-agent-loop (type 'exit' to quit)"
         :: Log ("Tools: " +:+ join ", " (Types.name <$> builtinTools) +:+ newline)
         :: printed,
       ended, m')
  end.
End Main.

(** What the session of [main] lets out: a provider request carries the
    model, token budget, system prompt and tool list fixed in the module
    body and a conversation between [lo] and [hi]; an executor is invoked
    under the name of one of [builtinTools]. *)
Definition session_event {World : Type} (builtinTools : list (Types.Tool World))
    (SYSTEM_PROMPT : string) (lo hi : list Anthropic.MessageParam) (ev : Event) : Prop :=
  match ev with
  | EvChat req =>
      Anthropic.model req = "claude-sonnet-4-5-20250929" /\
      Anthropic.max_tokens_param req = 4096%Z /\
      Anthropic.system req = SYSTEM_PROMPT /\
      Anthropic.tools req = Llm.toAnthropicTools builtinTools /\
      lo `prefix_of` Anthropic.messages req /\
      Anthropic.messages req `prefix_of` hi
  | EvExec name _ => name ∈ Types.name <$> builtinTools
  end.

(** The utterances the prompt hands to [agent.run]: the trimmed lines, up
    to the first [exit] or [quit], that are not blank. *)
Fixpoint utterances (lines : list string) : list string :=
  match lines with
  | [] => []
  | input :: rest =>
      let trimmed := Html.trim input in
      if bool_decide (trimmed = "exit") || bool_decide (trimmed = "quit") then []
      else if negb (Parser.truthy trimmed) then utterances rest
      else trimmed :: utterances rest
  end.

(** The text of a user turn that holds text. *)
Definition user_text (msg : Anthropic.MessageParam) : option string :=
  match msg with
  | {| Anthropic.role := Anthropic.user; Anthropic.param_content := Anthropic.Text s |} => Some s
  | _ => None
  end.

(** The answers printed, without the questions. *)
Definition is_answer (p : Printed) : bool :=
  match p with Question _ => false | _ => true end.
End Repl.

(** ** [linkedinJobsTool] of [src/tools/linkedin.ts] *)
Module LinkedinJobs.

(** Truthiness of a property read from the tool input: [None] is
    [undefined]. *)
Definition truthy (v : option json) : bool :=
  match v with
  | None => false
  | Some JNull => false
  | Some (JBool b) => b
  | Some (JNum n) => negb (n =? 0)%Z
  | Some (JStr s) => Parser.truthy s
  | Some (JArr _) => true
  | Some (JObj _) => true
  end.

(** [Record<string, unknown>] under construction: a property can hold
    [undefined]. *)
Abbreviation QueryOptions := (gmap string (option json)).

(** [if (input.key) queryOptions.key = input.key]. *)
Definition copy_if_truthy (input : JsObject) (key : string) (queryOptions : QueryOptions)
    : QueryOptions :=
  if truthy (input !! key) then <[ key := input !! key ]> queryOptions else queryOptions.


(** The object handed to [linkedIn.query]. *)
Definition queryOptions (input : JsObject) : QueryOptions :=
  let queryOptions : QueryOptions :=
    <[ "limit" := if truthy (input !! "limit") then input !! "limit" else Some (JStr "10") ]>
      (<[ "keyword" := input !! "keyword" ]> ∅) in
  let queryOptions := copy_if_truthy input "location" queryOptions in
  let queryOptions := copy_if_truthy input "dateSincePosted" queryOptions in
  let queryOptions := copy_if_truthy input "jobType" queryOptions in
  let queryOptions := copy_if_truthy input "remoteFilter" queryOptions in
  let queryOptions := copy_if_truthy input "experienceLevel" queryOptions in
  let queryOptions := copy_if_truthy input "sortBy" queryOptions in
  queryOptions.

(** A posting, [Record<string, string>], and a property of it inside a
    template literal. *)
Abbreviation Job := (gmap string string).

Definition shown (job : Job) (key : string) : string :=
  default "undefined" (job !! key).

(** The callback of [results.map]. *)
Definition format (i : nat) (job : Job) : string :=
  DecimalString.NilZero.string_of_uint (Nat.to_uint (i + 1)) +:+ ". " +:+ shown job "position"
  +:+ newline +:+ "   Company: " +:+ shown job "company"
  +:+ newline +:+ "   Location: " +:+ shown job "location"
  +:+ newline +:+ "   Posted: " +:+ shown job "agoTime"
  +:+ newline +:+ "   Salary: " +:+ shown job "salary"
  +:+ newline +:+ "   URL: " +:+ shown job "jobUrl".

Section Execute.
Context {World : Type}.

(** [linkedIn.query]; a falsy result is [None]. *)
Variable query : QueryOptions -> World -> Settled (option (list Job)) * World.

Definition execute (input : JsObject) (w : World) : Settled string * World :=
  match query (queryOptions input) w with
  | (Resolved None, w') | (Resolved (Some []), w') =>
      (Resolved "No job postings found matching your criteria.", w')
  | (Resolved (Some results), w') =>
      (Resolved (join (newline +:+ newline) (imap format results)), w')
  | (Rejected (Raised err), w') =>
      (Resolved ("Error searching LinkedIn jobs: " +:+ message err), w')
  | (Rejected (RaisedNullish n), w') => (Rejected (TypeError_message n), w')
  end.
End Execute.
End LinkedinJobs.

(** ** Further concrete inputs *)
Module Samples.

(** A tool input with a key the tool does not know and filters that are
    empty, zero or [null]. *)
Definition sample_search : JsObject :=
  {[ "keyword" := JStr "engineer"; "limit" := JStr EmptyString;
     "location" := JStr "Remote"; "jobType" := JNull; "sortBy" := JNum 0;
     "proxy" := JStr "http://example.com" ]}.

(** The headers of a message, with a repeated and a valueless one. *)
Definition sample_headers : list Header.MessagePartHeader :=
  [ {| Header.name := Some "From"; Header.value := Some "alice@example.com" |};
    {| Header.name := None; Header.value := Some "nameless" |};
    {| Header.name := Some "Subject"; Header.value := Some "Hello" |};
    {| Header.name := Some "subject"; Header.value := Some "Again" |};
    {| Header.name := Some "Date"; Header.value := None |} ].
End Samples.

(** * Properties *)

(** ** The advertised tool schemas ([toAnthropicTools]) *)
Module LlmFacts.
Import Llm.

Lemma toAnthropicTools_length {World} (tools : list (Types.Tool World)) :
  length (toAnthropicTools tools) = length tools.
Proof. unfold toAnthropicTools. apply length_map. Qed.

Lemma toAnthropicTools_lookup {World} (tools : list (Types.Tool World)) i :
  toAnthropicTools tools !! i =
  (fun t => {| Anthropic.name := Types.name t;
               Anthropic.description := Types.description t;
               Anthropic.input_schema :=
                 Types.inputSchema t ∪ {[ "type" := JStr "object" ]} |}) <$> tools !! i.
Proof. unfold toAnthropicTools. apply list_lookup_fmap. Qed.

(** The spread keeps the schema when it has a [type] of its own. *)
Lemma spread_with_type (schema : JsObject) :
  is_Some (schema !! "type") -> schema ∪ {[ "type" := JStr "object" ]} = schema.
Proof.
  intros [v Hv]. apply map_eq. intros k.
  rewrite lookup_union. destruct (decide (k = "type")) as [->|Hne].
  - rewrite Hv. by rewrite lookup_singleton_eq.
  - rewrite lookup_singleton_ne by done. by destruct (schema !! k).
Qed.

(** The spread adds [type: "object"] to a schema that has none. *)
Lemma spread_without_type (schema : JsObject) :
  schema !! "type" = None ->
  schema ∪ {[ "type" := JStr "object" ]} = <[ "type" := JStr "object" ]> schema.
Proof.
  intros Hnone. apply map_eq. intros k.
  rewrite lookup_union. destruct (decide (k = "type")) as [->|Hne].
  - rewrite Hnone, lookup_singleton_eq, lookup_insert_eq. done.
  - rewrite lookup_singleton_ne, lookup_insert_ne by done. by destruct (schema !! k).
Qed.

(** C8, as stated, fails: the schema of a tool whose [inputSchema] has no
    [type] property is not advertised unchanged. *)
Lemma toAnthropicTools_changes_schema :
  Anthropic.input_schema <$> toAnthropicTools [Examples.noop]
  <> [Types.inputSchema Examples.noop].
Proof.
  simpl. intros H.
  apply (f_equal (fun l : list JsObject => l !! 0%nat ≫= (.!! "type"))) in H.
  simpl in H.
  rewrite lookup_union, lookup_empty, lookup_singleton_eq in H.
  discriminate H.
Qed.

(** C8, amended: the advertised list has the length and the order of the
    tool list; the entry at each position keeps the tool's name and
    description, carries every property of its input schema, and is that
    schema itself when it has a [type], and that schema with
    [type: "object"] added when it has none. *)
Theorem toAnthropicTools_entry {World} (tools : list (Types.Tool World)) i t
    (Hi : tools !! i = Some t) :
  length (toAnthropicTools tools) = length tools /\
  exists a,
    toAnthropicTools tools !! i = Some a /\
    Anthropic.name a = Types.name t /\
    Anthropic.description a = Types.description t /\
    (forall k v, Types.inputSchema t !! k = Some v -> Anthropic.input_schema a !! k = Some v) /\
    Anthropic.input_schema a =
      match Types.inputSchema t !! "type" with
      | Some _ => Types.inputSchema t
      | None => <[ "type" := JStr "object" ]> (Types.inputSchema t)
      end.
Proof.
  split; [apply toAnthropicTools_length|].
  rewrite toAnthropicTools_lookup, Hi. simpl.
  eexists. split; [reflexivity|]. simpl. repeat split.
  - intros k v Hk. by apply lookup_union_Some_l.
  - destruct (Types.inputSchema t !! "type") as [v|] eqn:Hty.
    + apply spread_with_type. by exists v.
    + by apply spread_without_type.
Qed.

(** The schema of [bashTool] has a [type] and is advertised as it is. *)
Example toAnthropicTools_bashTool {World}
    (execFile : string -> list (option json) -> Z -> World -> Bash.Spawn * World)
    (platform : string) :
  Anthropic.input_schema <$> toAnthropicTools [Bash.bashTool execFile platform]
  = [Types.inputSchema (Bash.bashTool execFile platform)].
Proof.
  unfold toAnthropicTools. cbn [map].
  rewrite spread_with_type; [reflexivity|].
  cbn [Bash.bashTool Types.inputSchema]. by rewrite lookup_insert_eq.
Qed.

Lemma toAnthropicTools_entry_witness :
  length (toAnthropicTools [Examples.noop; Examples.failing]) = 2 /\
  exists a,
    toAnthropicTools [Examples.noop; Examples.failing] !! 1 = Some a /\
    Anthropic.name a = "failing" /\
    Anthropic.description a = "always fails" /\
    (forall k v, Types.inputSchema Examples.failing !! k = Some v ->
                 Anthropic.input_schema a !! k = Some v) /\
    Anthropic.input_schema a =
      match Types.inputSchema Examples.failing !! "type" with
      | Some _ => Types.inputSchema Examples.failing
      | None => <[ "type" := JStr "object" ]> (Types.inputSchema Examples.failing)
      end.
Proof.
  apply (toAnthropicTools_entry [Examples.noop; Examples.failing] 1 Examples.failing).
  reflexivity.
Defined.
End LlmFacts.

(** ** The tool registry built by the constructor *)
Module RegistryFacts.
Import Eff Agent.

Section Registry.
Context {World : Type}.
Implicit Types (tools : list (Types.Tool World)) (n : string).

Lemma new_Map_from tools (m : gmap string (Types.Tool World)) n :
  foldl (fun m kv => <[ kv.1 := kv.2 ]> m) m (map (fun t => (Types.name t, t)) tools) !! n =
  match last (filter (fun t => Types.name t = n) tools) with
  | Some t => Some t
  | None => m !! n
  end.
Proof.
  revert m. induction tools as [|t tools IH]; intros m; simpl; [done|].
  rewrite IH, filter_cons.
  destruct (decide (Types.name t = n)) as [Heq|Hne].
  - rewrite last_cons. destruct (last (filter _ tools)); [done|].
    by rewrite Heq, lookup_insert_eq.
  - destruct (last (filter _ tools)); [done|]. by rewrite lookup_insert_ne.
Qed.

(** [toolMap.get(n)] is the last tool named [n] in the list. *)
Lemma new_Map_lookup tools n :
  new_Map (map (fun t => (Types.name t, t)) tools) !! n =
  last (filter (fun t => Types.name t = n) tools).
Proof.
  unfold new_Map. rewrite new_Map_from, lookup_empty.
  by destruct (last _).
Qed.

(** A tool found in the registry is found under its own name. *)
Lemma new_Map_name tools n t :
  new_Map (map (fun t => (Types.name t, t)) tools) !! n = Some t -> Types.name t = n.
Proof.
  rewrite new_Map_lookup. intros Hl. apply last_Some_elem_of in Hl.
  by apply list_elem_of_filter in Hl as [? _].
Qed.
End Registry.

(** C7, as stated, fails: a tool list with a repeated name is accepted,
    and the registry silently keeps the later tool. *)
Lemma constructor_accepts_duplicates :
  ~ NoDup (Types.name <$> Types.tools (Examples.config [Examples.first_dup; Examples.second_dup])) /\
  exists ag,
    constructor (fun _ => Examples.broken_client)
                (Examples.config [Examples.first_dup; Examples.second_dup]) = inr ag /\
    Types.description <$> toolMap ag !! "dup" = Some "second".
Proof.
  split.
  - simpl. intros Hnd. apply NoDup_cons in Hnd as [Hnotin _].
    apply Hnotin. by left.
  - eexists. split; [reflexivity|].
    cbn [toolMap assign Examples.config Types.tools].
    by rewrite new_Map_lookup.
Qed.

(** C7, amended: the constructor accepts every tool list. Under each
    name the registry holds the last tool of the list with that name, and
    the list advertised to the provider still has one entry per tool of
    the list, repeated names included. *)
Theorem constructor_last_tool_wins {World} (new_Anthropic : string -> Types.Client World)
    (config : Types.AgentConfig World) :
  exists ag,
    constructor new_Anthropic config = inr ag /\
    (forall n, toolMap ag !! n =
               last (filter (fun t => Types.name t = n) (Types.tools config))) /\
    anthropicTools ag = Llm.toAnthropicTools (Types.tools config) /\
    length (anthropicTools ag) = length (Types.tools config).
Proof.
  eexists. split; [reflexivity|]. simpl. repeat split.
  - intros n. apply new_Map_lookup.
  - apply LlmFacts.toAnthropicTools_length.
Qed.
End RegistryFacts.

(** ** One provider call and the loop around the rounds *)
Module LoopFacts.
Import Eff Agent Observe.

Section Loop.
Context {World : Type}.
Implicit Types (ag : Agent World) (m : Machine World).

Lemma await_chat_resolved ag m response w :
  provider_reply ag m = (Resolved response, w) ->
  await_chat ag m = (Normal response, called ag m w).
Proof.
  unfold provider_reply, await_chat, bind, get_messages, await. simpl.
  intros ->. reflexivity.
Qed.

Lemma await_chat_rejected ag m e w :
  provider_reply ag m = (Rejected e, w) ->
  await_chat ag m = (Throw e, called ag m w).
Proof.
  unfold provider_reply, await_chat, bind, get_messages, await. simpl.
  intros ->. reflexivity.
Qed.

Lemma extends_trace_ret {A} (a : A) : extends_trace (World:=World) (ret a).
Proof. intros m. exists []. simpl. by rewrite app_nil_r. Qed.

Lemma extends_trace_bind {A B} (c : M World A) (k : A -> M World B) :
  extends_trace c -> (forall a, extends_trace (k a)) -> extends_trace (bind c k).
Proof.
  intros Hc Hk m. unfold bind. destruct (Hc m) as [evs Hevs].
  destruct (c m) as [[a|e|] m1]; simpl in *.
  - destruct (Hk a m1) as [evs' Hevs']. exists (evs ++ evs').
    by rewrite Hevs', Hevs, app_assoc.
  - by exists evs.
  - by exists evs.
Qed.

Lemma extends_trace_while (body : M World (option string)) fuel :
  extends_trace body -> extends_trace (while_true body fuel).
Proof.
  intros Hbody. induction fuel as [|fuel IH]; simpl.
  - intros m. exists []. simpl. by rewrite app_nil_r.
  - apply extends_trace_bind; [done|]. intros [result|]; [apply extends_trace_ret|done].
Qed.

(** Unfolding [while (true)] by one round. *)
Lemma while_true_return (body : M World (option string)) fuel m result m' :
  body m = (Normal (Some result), m') ->
  while_true body (S fuel) m = (Normal result, m').
Proof. intros Hb. simpl. unfold bind. by rewrite Hb. Qed.

Lemma while_true_continue (body : M World (option string)) fuel m m' :
  body m = (Normal None, m') ->
  while_true body (S fuel) m = while_true body fuel m'.
Proof. intros Hb. simpl. unfold bind. by rewrite Hb. Qed.

Lemma while_true_throw (body : M World (option string)) fuel m e m' :
  body m = (Throw e, m') ->
  while_true body (S fuel) m = (Throw e, m').
Proof. intros Hb. simpl. unfold bind. by rewrite Hb. Qed.
End Loop.
End LoopFacts.

(** ** The revision with the dispatch boundary *)
Module GuardedFacts.
Import Eff Agent Observe LoopFacts AgentGuarded.

Section Guarded.
Context {World : Type}.
Implicit Types (ag : Agent World) (m : Machine World).

Lemma dispatch_unknown ag id name input m :
  toolMap ag !! name = None ->
  dispatch ag (id, name, input) m = (Normal (unknown_tool_result id name), m).
Proof. intros H. unfold dispatch. by rewrite H. Qed.

(** With the [try], a rejected executor becomes an error result, unless
    the reason of the rejection has no [message] to read: then the [catch]
    clause itself throws. *)
Lemma dispatch_known ag id name input tool m :
  toolMap ag !! name = Some tool ->
  dispatch ag (id, name, input) m =
  (match (Types.execute tool input (world m)).1 with
   | Resolved result => Normal (success_result id result)
   | Rejected (Raised e) => Normal (failure_result id name (message e))
   | Rejected (RaisedNullish n) => Throw (Raised (TypeError_message n))
   end,
   {| messages := messages m;
      world := (Types.execute tool input (world m)).2;
      trace := trace m ++ [EvExec name input] |}).
Proof.
  intros H. unfold dispatch. rewrite H.
  unfold try_catch, bind, await_execute, await, ret, read_message.
  by destruct (Types.execute tool input (world m)) as [[result|[err|n]] w].
Qed.

(** The [for] loop returns one result per block, or throws the
    [TypeError] of a [catch] clause that was handed [null] or [undefined];
    it never touches the conversation. *)
Lemma for_blocks_spec ag blocks :
  forall toolResults m,
    match for_blocks ag blocks toolResults m with
    | (Normal rs', m') =>
        exists rs,
          rs' = toolResults ++ rs /\
          messages m' = messages m /\
          trace m' = trace m ++ exec_events ag blocks /\
          Forall2 (answers ag) blocks rs /\
          Anthropic.tool_use_id <$> rs = call_id <$> blocks
    | (Throw e, m') =>
        messages m' = messages m /\
        (exists k, trace m' = trace m ++ exec_events ag (take k blocks)) /\
        exists name tool input w n,
          toolMap ag !! name = Some tool /\
          (Types.execute tool input w).1 = Rejected (RaisedNullish n) /\
          e = Raised (TypeError_message n)
    | (OutOfFuel, _) => False
    end.
Proof.
  induction blocks as [|[[id name] input] blocks IH]; intros acc m; cbn [for_blocks].
  - exists []. rewrite !app_nil_r. repeat split; constructor.
  - unfold bind at 1. destruct (toolMap ag !! name) as [tool|] eqn:Hlook.
    + rewrite (dispatch_known _ _ _ _ tool) by done.
      destruct (Types.execute tool input (world m)) as [[result|[err|n]] w] eqn:Hexec;
        cbn [fst snd].
      * match goal with |- context [for_blocks ag blocks ?a ?m1] =>
          specialize (IH a m1); destruct (for_blocks ag blocks a m1) as [[rs'|e|] m'] end;
          [| |done].
        -- destruct IH as (rs & -> & Hmsg & Htr & Hans & Hids). simpl in *.
           exists (success_result id result :: rs). rewrite <- app_assoc.
           repeat split; try done.
           ++ rewrite Htr. unfold exec_events at 2. simpl. rewrite Hlook.
              by rewrite <- app_assoc.
           ++ constructor; [|done]. unfold answers. simpl. rewrite Hlook.
              exists (world m). by rewrite Hexec.
           ++ simpl. by f_equal.
        -- destruct IH as (Hmsg & [k Htr] & Hwhy). simpl in *. split; [done|].
           split; [|done]. exists (S k). rewrite Htr. simpl.
           unfold exec_events at 2. simpl. rewrite Hlook. by rewrite <- app_assoc.
      * match goal with |- context [for_blocks ag blocks ?a ?m1] =>
          specialize (IH a m1); destruct (for_blocks ag blocks a m1) as [[rs'|e|] m'] end;
          [| |done].
        -- destruct IH as (rs & -> & Hmsg & Htr & Hans & Hids). simpl in *.
           exists (failure_result id name (message err) :: rs). rewrite <- app_assoc.
           repeat split; try done.
           ++ rewrite Htr. unfold exec_events at 2. simpl. rewrite Hlook.
              by rewrite <- app_assoc.
           ++ constructor; [|done]. unfold answers. simpl. rewrite Hlook.
              exists (world m). by rewrite Hexec.
           ++ simpl. by f_equal.
        -- destruct IH as (Hmsg & [k Htr] & Hwhy). simpl in *. split; [done|].
           split; [|done]. exists (S k). rewrite Htr. simpl.
           unfold exec_events at 2. simpl. rewrite Hlook. by rewrite <- app_assoc.
      * split; [done|]. split.
        -- exists 1. simpl. unfold exec_events. simpl. by rewrite Hlook.
        -- exists name, tool, input, (world m), n. by rewrite Hexec.
    + rewrite dispatch_unknown by done.
      specialize (IH (acc ++ [unknown_tool_result id name]) m).
      destruct (for_blocks ag blocks _ m) as [[rs'|e|] m']; [| |done].
      * destruct IH as (rs & -> & Hmsg & Htr & Hans & Hids).
        exists (unknown_tool_result id name :: rs). rewrite <- app_assoc.
        repeat split; try done.
        -- rewrite Htr. unfold exec_events at 2. simpl. by rewrite Hlook.
        -- constructor; [|done]. unfold answers. simpl. by rewrite Hlook.
        -- simpl. by f_equal.
      * destruct IH as (Hmsg & [k Htr] & Hwhy). split; [done|]. split; [|done].
        exists (S k). rewrite Htr. simpl. unfold exec_events at 2. simpl.
        by rewrite Hlook.
Qed.

(** A round whose provider call resolves with no tool call returns. *)
Lemma round_returns ag m response w :
  provider_reply ag m = (Resolved response, w) ->
  toolUseBlocks (Anthropic.msg_content response) = [] ->
  round ag m =
  (Normal (Some (answer (Anthropic.msg_content response))),
   {| messages := messages m ++ [assistant_turn (Anthropic.msg_content response)];
      world := w;
      trace := trace m ++ [EvChat (request ag (messages m))] |}).
Proof.
  intros Hchat Hnone. unfold round, bind at 1.
  rewrite (await_chat_resolved _ _ _ _ Hchat).
  unfold bind, push. simpl. rewrite Hnone. reflexivity.
Qed.

(** A round whose provider call resolves with tool calls either
    dispatches all of them, appends the two turns and falls through, or
    throws the [TypeError] of a [catch] clause handed [null] or
    [undefined], and leaves the assistant turn unanswered. *)
Lemma round_dispatch_cases ag m response w :
  provider_reply ag m = (Resolved response, w) ->
  toolUseBlocks (Anthropic.msg_content response) <> [] ->
  match round ag m with
  | (Normal None, m') =>
      exists rs,
        messages m' = messages m ++ [assistant_turn (Anthropic.msg_content response);
                                     tool_result_turn rs] /\
        trace m' = trace m ++ EvChat (request ag (messages m))
                     :: exec_events ag (toolUseBlocks (Anthropic.msg_content response)) /\
        Forall2 (answers ag) (toolUseBlocks (Anthropic.msg_content response)) rs /\
        Anthropic.tool_use_id <$> rs = call_id <$> toolUseBlocks (Anthropic.msg_content response)
  | (Throw e, m') =>
      messages m' = messages m ++ [assistant_turn (Anthropic.msg_content response)] /\
      (exists k, trace m' = trace m ++ EvChat (request ag (messages m))
                   :: exec_events ag (take k (toolUseBlocks (Anthropic.msg_content response)))) /\
      exists name tool input w0 n,
        toolMap ag !! name = Some tool /\
        (Types.execute tool input w0).1 = Rejected (RaisedNullish n) /\
        e = Raised (TypeError_message n)
  | _ => False
  end.
Proof.
  intros Hchat Hsome. unfold round, bind at 1.
  rewrite (await_chat_resolved _ _ _ _ Hchat).
  unfold bind at 1, push at 1. cbn iota beta.
  destruct (decide (length (toolUseBlocks (Anthropic.msg_content response)) = 0)) as [H0|_].
  { apply length_zero_iff_nil in H0. contradiction. }
  unfold bind at 1.
  match goal with |- context [for_blocks ag ?bs [] ?m1] =>
    pose proof (for_blocks_spec ag bs [] m1) as Hspec;
    destruct (for_blocks ag bs [] m1) as [[rs'|e|] m'] end; [| |done].
  - destruct Hspec as (rs & -> & Hmsg & Htr & Hans & Hids).
    unfold bind, push, ret. simpl. exists rs. rewrite Hmsg, Htr. simpl.
    repeat split; try done; by rewrite <- app_assoc.
  - destruct Hspec as (Hmsg & [k Htr] & Hwhy). simpl in *. split; [done|].
    split; [|done]. exists k. rewrite Htr. by rewrite <- app_assoc.
Qed.

(** When the reason of every rejection has a [message], a round whose
    provider call resolves with tool calls dispatches all of them, appends
    the two turns and falls through. *)
Lemma round_dispatches ag m response w :
  rejections_readable ag ->
  provider_reply ag m = (Resolved response, w) ->
  toolUseBlocks (Anthropic.msg_content response) <> [] ->
  exists rs m',
    round ag m = (Normal None, m') /\
    messages m' = messages m ++ [assistant_turn (Anthropic.msg_content response);
                                 tool_result_turn rs] /\
    trace m' = trace m ++ EvChat (request ag (messages m))
                 :: exec_events ag (toolUseBlocks (Anthropic.msg_content response)) /\
    Forall2 (answers ag) (toolUseBlocks (Anthropic.msg_content response)) rs /\
    Anthropic.tool_use_id <$> rs = call_id <$> toolUseBlocks (Anthropic.msg_content response).
Proof.
  intros Hread Hchat Hsome. pose proof (round_dispatch_cases _ _ _ _ Hchat Hsome) as H.
  destruct (round ag m) as [[[result|]|e|] m']; try done.
  - destruct H as (rs & H). by exists rs, m'.
  - destruct H as (_ & _ & name & tool & input & w0 & n & Hlook & Hrej & _).
    by destruct (Hread _ _ _ _ _ Hlook Hrej).
Qed.

(** A round whose provider call rejects throws, with the conversation
    untouched. *)
Lemma round_rejected ag m e w :
  provider_reply ag m = (Rejected e, w) ->
  round ag m = (Throw e, called ag m w).
Proof.
  intros Hchat. unfold round, bind at 1.
  by rewrite (await_chat_rejected _ _ _ _ Hchat).
Qed.

(** Every round starts with a provider call on the conversation as it
    stands. *)
Lemma round_calls_provider ag m :
  exists evs, trace (round ag m).2 = trace m ++ EvChat (request ag (messages m)) :: evs.
Proof.
  destruct (provider_reply ag m) as [[response|e] w] eqn:Hchat.
  - destruct (decide (toolUseBlocks (Anthropic.msg_content response) = [])) as [Hn|Hs].
    + rewrite (round_returns _ _ _ _ Hchat Hn). by exists [].
    + pose proof (round_dispatch_cases _ _ _ _ Hchat Hs) as H.
      destruct (round ag m) as [[[result|]|e|] m']; try done; simpl.
      * destruct H as (rs & _ & Htr & _). eauto.
      * destruct H as (_ & [k Htr] & _). eauto.
  - rewrite (round_rejected _ _ _ _ Hchat). by exists [].
Qed.

Lemma round_extends_trace ag : extends_trace (round ag).
Proof. intros m. destruct (round_calls_provider ag m) as [evs ->]. eauto. Qed.

(** The loop entered with fuel issues a provider call first. *)
Lemma loop_calls_provider ag fuel m :
  exists evs,
    trace (while_true (round ag) (S fuel) m).2 =
    trace m ++ EvChat (request ag (messages m)) :: evs.
Proof.
  simpl. unfold bind.
  destruct (round_calls_provider ag m) as [evs Hevs].
  destruct (round ag m) as [[[result|]|e|] m1]; simpl in *; try by eauto.
  destruct (extends_trace_while _ fuel (round_extends_trace ag) m1) as [evs' ->].
  rewrite Hevs, <- app_assoc. simpl. eauto.
Qed.
End Guarded.
End GuardedFacts.

(** ** The revision of [src/agent.ts] *)
Module TsFacts.
Import Eff Agent Observe LoopFacts AgentTs.

Section Ts.
Context {World : Type}.
Implicit Types (ag : Agent World) (m : Machine World).

Lemma dispatch_unknown_ts ag id name input m :
  toolMap ag !! name = None ->
  dispatch ag (id, name, input) m = (Normal (unknown_tool_result id name), m).
Proof. intros H. unfold dispatch. by rewrite H. Qed.

(** Without a [try], a rejected executor is a thrown error. *)
Lemma dispatch_known_ts ag id name input tool m :
  toolMap ag !! name = Some tool ->
  dispatch ag (id, name, input) m =
  (match (Types.execute tool input (world m)).1 with
   | Resolved result => Normal (success_result id result)
   | Rejected err => Throw err
   end,
   {| messages := messages m;
      world := (Types.execute tool input (world m)).2;
      trace := trace m ++ [EvExec name input] |}).
Proof.
  intros H. unfold dispatch. rewrite H.
  unfold bind, await_execute, await, ret.
  by destruct (Types.execute tool input (world m)) as [[result|err] w].
Qed.

(** The [for] loop either returns one result per tool call or throws
    what an executor threw; it never touches the conversation. *)
Lemma for_content_spec ag content :
  forall toolResults m,
    match for_content ag content toolResults m with
    | (Normal rs', m') =>
        exists rs,
          rs' = toolResults ++ rs /\
          messages m' = messages m /\
          trace m' = trace m ++ exec_events ag (toolUseBlocks content) /\
          Forall2 (answers ag) (toolUseBlocks content) rs /\
          Anthropic.tool_use_id <$> rs = call_id <$> toolUseBlocks content
    | (Throw e, m') =>
        messages m' = messages m /\ exists evs, trace m' = trace m ++ evs
    | (OutOfFuel, _) => False
    end.
Proof.
  induction content as [|block content IH]; intros acc m; cbn [for_content].
  - exists []. rewrite !app_nil_r. repeat split; constructor.
  - unfold toolUseBlocks. cbn [omap list_omap].
    fold (toolUseBlocks content).
    destruct (as_tool_use block) as [[[id name] input]|] eqn:Hblock; [|apply IH].
    unfold bind at 1. destruct (toolMap ag !! name) as [tool|] eqn:Hlook.
    + rewrite (dispatch_known_ts _ _ _ _ tool) by done.
      destruct (Types.execute tool input (world m)) as [[result|err] w] eqn:Hexec; simpl.
      * match goal with |- context [for_content ag content ?a ?m1] =>
          specialize (IH a m1); destruct (for_content ag content a m1) as [[rs'|e|] m'] end;
          [|simpl in IH; destruct IH as [Hm [evs Hevs]]; split; [done|];
            exists (EvExec name input :: evs); by rewrite Hevs, <- app_assoc|done].
        destruct IH as (rs & -> & Hmsg & Htr & Hans & Hids). simpl in *.
        exists (success_result id result :: rs). rewrite <- app_assoc.
        repeat split; try done.
        -- rewrite Htr. unfold exec_events at 2. simpl. rewrite Hlook.
           by rewrite <- app_assoc.
        -- constructor; [|done]. unfold answers. simpl. rewrite Hlook.
           exists (world m). by rewrite Hexec.
        -- simpl. f_equal. exact Hids.
      * split; [done|]. by eexists.
    + rewrite dispatch_unknown_ts by done.
      specialize (IH (acc ++ [unknown_tool_result id name]) m).
      destruct (for_content ag content _ m) as [[rs'|e|] m']; [|done|done].
      destruct IH as (rs & -> & Hmsg & Htr & Hans & Hids).
      exists (unknown_tool_result id name :: rs). rewrite <- app_assoc.
      repeat split; try done.
      * rewrite Htr. unfold exec_events at 2. simpl. by rewrite Hlook.
      * constructor; [|done]. unfold answers. simpl. by rewrite Hlook.
      * simpl. by f_equal.
Qed.

(** A round returns exactly when the stop reason is not [tool_use]. *)
Lemma round_returns_ts ag m response w :
  provider_reply ag m = (Resolved response, w) ->
  Anthropic.stop_reason response <> Some Anthropic.tool_use ->
  round ag m =
  (Normal (Some (answer (Anthropic.msg_content response))),
   {| messages := messages m ++ [assistant_turn (Anthropic.msg_content response)];
      world := w;
      trace := trace m ++ [EvChat (request ag (messages m))] |}).
Proof.
  intros Hchat Hstop. unfold round, bind at 1.
  rewrite (await_chat_resolved _ _ _ _ Hchat).
  unfold bind, push. simpl. by rewrite decide_True.
Qed.

(** With stop reason [tool_use], a round either falls through with one
    result per tool call, or throws what an executor threw and leaves
    the assistant turn unanswered. *)
Lemma round_dispatches_ts ag m response w :
  provider_reply ag m = (Resolved response, w) ->
  Anthropic.stop_reason response = Some Anthropic.tool_use ->
  match round ag m with
  | (Normal None, m') =>
      exists rs,
        messages m' = messages m ++ [assistant_turn (Anthropic.msg_content response);
                                     tool_result_turn rs] /\
        trace m' = trace m ++ EvChat (request ag (messages m))
                     :: exec_events ag (toolUseBlocks (Anthropic.msg_content response)) /\
        Forall2 (answers ag) (toolUseBlocks (Anthropic.msg_content response)) rs /\
        Anthropic.tool_use_id <$> rs = call_id <$> toolUseBlocks (Anthropic.msg_content response)
  | (Throw e, m') =>
      messages m' = messages m ++ [assistant_turn (Anthropic.msg_content response)]
  | _ => False
  end.
Proof.
  intros Hchat Hstop. unfold round, bind at 1.
  rewrite (await_chat_resolved _ _ _ _ Hchat).
  unfold bind at 1, push at 1. cbn iota beta.
  rewrite decide_False by (intros H; by apply H).
  unfold bind at 1.
  match goal with |- context [for_content ag ?c [] ?m1] =>
    pose proof (for_content_spec ag c [] m1) as Hspec;
    destruct (for_content ag c [] m1) as [[rs'|e|] m'] end; [| |done].
  - destruct Hspec as (rs & -> & Hmsg & Htr & Hans & Hids).
    unfold bind, push, ret. simpl. exists rs. rewrite Hmsg, Htr. simpl.
    repeat split; try done; by rewrite <- app_assoc.
  - by destruct Hspec as [-> _].
Qed.

Lemma round_rejected_ts ag m e w :
  provider_reply ag m = (Rejected e, w) ->
  round ag m = (Throw e, called ag m w).
Proof.
  intros Hchat. unfold round, bind at 1.
  by rewrite (await_chat_rejected _ _ _ _ Hchat).
Qed.

(** The stop reason alone decides whether a round returns. *)
Lemma round_returns_iff_stop_reason ag m response w :
  provider_reply ag m = (Resolved response, w) ->
  (exists result m', round ag m = (Normal (Some result), m')) <->
  Anthropic.stop_reason response <> Some Anthropic.tool_use.
Proof.
  intros Hchat. split.
  - intros (result & m' & Hround) Hstop.
    pose proof (round_dispatches_ts _ _ _ _ Hchat Hstop) as H.
    by rewrite Hround in H.
  - intros Hstop. rewrite (round_returns_ts _ _ _ _ Hchat Hstop). eauto.
Qed.

(** The [for] loop stops at the first tool call whose executor rejects. *)
Lemma for_content_throws ag content id name input rest tool e :
  toolUseBlocks content = (id, name, input) :: rest ->
  toolMap ag !! name = Some tool ->
  (forall w0, (Types.execute tool input w0).1 = Rejected e) ->
  forall toolResults m,
    for_content ag content toolResults m =
    (Throw e, {| messages := messages m;
                 world := (Types.execute tool input (world m)).2;
                 trace := trace m ++ [EvExec name input] |}).
Proof.
  intros Hblocks Hlook Hrej.
  induction content as [|block content IH]; intros acc m; [discriminate|].
  cbn [for_content]. unfold toolUseBlocks in Hblocks. cbn [omap list_omap] in Hblocks.
  fold (toolUseBlocks content) in Hblocks.
  destruct (as_tool_use block) as [b|]; [|by apply IH].
  injection Hblocks as -> _. unfold bind.
  rewrite (dispatch_known_ts _ _ _ _ tool) by done. by rewrite Hrej.
Qed.

(** With stop reason [tool_use], a rejecting executor of the first tool
    call makes the round, and the loop with it, throw; the assistant turn
    stays without a tool-result turn. *)
Lemma ts_propagates_executor_failure ag m response w id name input rest tool e fuel :
  provider_reply ag m = (Resolved response, w) ->
  Anthropic.stop_reason response = Some Anthropic.tool_use ->
  toolUseBlocks (Anthropic.msg_content response) = (id, name, input) :: rest ->
  toolMap ag !! name = Some tool ->
  (forall w0, (Types.execute tool input w0).1 = Rejected e) ->
  while_true (round ag) (S fuel) m =
  (Throw e, {| messages := messages m ++ [assistant_turn (Anthropic.msg_content response)];
               world := (Types.execute tool input w).2;
               trace := trace m ++ [EvChat (request ag (messages m)); EvExec name input] |}).
Proof.
  intros Hchat Hstop Hblocks Hlook Hrej. apply while_true_throw.
  unfold round, bind at 1. rewrite (await_chat_resolved _ _ _ _ Hchat).
  unfold bind at 1, push at 1. cbn iota beta.
  rewrite decide_False by (intros H; by apply H).
  unfold bind at 1.
  rewrite (for_content_throws _ _ _ _ _ _ _ _ Hblocks Hlook Hrej). simpl.
  by rewrite <- app_assoc.
Qed.
End Ts.
End TsFacts.

(** ** The claims about [Agent.run] *)
Module RunFacts.
Import Eff Agent Observe LoopFacts.

(** C1 at a response with a tool call whose stop reason is not
    [tool_use] (the output was cut off by the token budget): [run] of
    [src/agent.ts] returns the empty answer after one provider call,
    dispatches nothing and leaves the tool call unanswered, while the
    sibling revision dispatches it. *)
Theorem agent_ts_returns_with_pending_tool_call :
  let ag := Examples.agent_of (Examples.constant_client Examples.truncated_tool_call)
                              [Examples.noop] in
  toolUseBlocks (Anthropic.msg_content Examples.truncated_tool_call) = [("a", "noop", ∅)] /\
  AgentTs.run ag 3 "hi" Examples.m0 =
    (Normal EmptyString,
     {| messages := [user_turn "hi"; assistant_turn [Anthropic.ToolUseBlock "a" "noop" ∅]];
        world := tt;
        trace := [EvChat (request ag [user_turn "hi"])] |}) /\
  AgentGuarded.round ag {| messages := [user_turn "hi"]; world := tt; trace := [] |} =
    (Normal None,
     {| messages := [user_turn "hi"; assistant_turn [Anthropic.ToolUseBlock "a" "noop" ∅];
                     tool_result_turn [success_result "a" "done"]];
        world := tt;
        trace := [EvChat (request ag [user_turn "hi"]); EvExec "noop" ∅] |}).
Proof.
  cbv zeta. split; [reflexivity|]. split.
  - vm_compute. reflexivity.
  - vm_compute. reflexivity.
Qed.

(** C2 at a registered tool whose executor rejects: [run] of
    [src/agent.ts] throws the executor's error and leaves the assistant
    turn without its tool-result turn, while the sibling revision turns
    the error into a tool result, calls the provider again and returns. *)
Theorem agent_ts_aborts_on_executor_failure :
  let ag := Examples.agent_of (Examples.tool_then_text "failing" "recovered")
                              [Examples.failing] in
  let asked := assistant_turn [Anthropic.TextBlock "Let me check.";
                               Anthropic.ToolUseBlock "a" "failing" ∅] in
  let failed := {| Anthropic.tool_use_id := "a";
                   Anthropic.content :=
                     "Error executing tool " +:+ dquote +:+ "failing" +:+ dquote +:+ ": boom";
                   Anthropic.is_error := Some true |} in
  toolMap ag !! "failing" = Some Examples.failing /\
  AgentTs.run ag 3 "hi" Examples.m0 =
    (Throw {| message := "boom" |},
     {| messages := [user_turn "hi"; asked];
        world := tt;
        trace := [EvChat (request ag [user_turn "hi"]); EvExec "failing" ∅] |}) /\
  AgentGuarded.run ag 3 "hi" Examples.m0 =
    (Normal "recovered",
     {| messages := [user_turn "hi"; asked; tool_result_turn [failed];
                     assistant_turn [Anthropic.TextBlock "recovered"]];
        world := tt;
        trace := [EvChat (request ag [user_turn "hi"]); EvExec "failing" ∅;
                  EvChat (request ag [user_turn "hi"; asked; tool_result_turn [failed]])] |}).
Proof.
  cbv zeta. split; [|split].
  - vm_compute. reflexivity.
  - vm_compute. reflexivity.
  - vm_compute. reflexivity.
Qed.

(** C3 at a response with two tool calls. In [src/agent.ts], when the
    executor of the second call rejects, the round throws after both
    executors were invoked and appends no tool-result turn: the assistant
    turn has two tool calls and not one entry answers them, the result of
    the first call being lost. When the same calls come with a stop reason
    other than [tool_use], the round returns the text and appends no entry
    either, no executor being invoked. On both responses the sibling
    revision appends one tool-result turn with one entry per call, carrying
    the identifiers [a] and [b] in that order, after invoking the executors
    in that order. *)
Theorem agent_ts_leaves_tool_calls_without_results :
  let failing_second := Examples.asks_two "noop" "failing" in
  let truncated := Examples.cut_off (Examples.asks_two "noop" "noop") in
  let tools := [Examples.noop; Examples.failing] in
  let ag1 := Examples.agent_of (Examples.constant_client failing_second) tools in
  let ag2 := Examples.agent_of (Examples.constant_client truncated) tools in
  let asked1 := assistant_turn (Anthropic.msg_content failing_second) in
  let asked2 := assistant_turn (Anthropic.msg_content truncated) in
  toolUseBlocks (Anthropic.msg_content failing_second)
    = [("a", "noop", ∅); ("b", "failing", ∅)] /\
  toolUseBlocks (Anthropic.msg_content truncated)
    = [("a", "noop", ∅); ("b", "noop", ∅)] /\
  AgentTs.round ag1 Examples.greeted =
    (Throw {| message := "boom" |},
     {| messages := [user_turn "hi"; asked1];
        world := tt;
        trace := [EvChat (request ag1 [user_turn "hi"]); EvExec "noop" ∅;
                  EvExec "failing" ∅] |}) /\
  AgentTs.round ag2 Examples.greeted =
    (Normal (Some "and"),
     {| messages := [user_turn "hi"; asked2];
        world := tt;
        trace := [EvChat (request ag2 [user_turn "hi"])] |}) /\
  AgentGuarded.round ag1 Examples.greeted =
    (Normal None,
     {| messages :=
          [user_turn "hi"; asked1;
           tool_result_turn
             [{| Anthropic.tool_use_id := "a"; Anthropic.content := "done";
                 Anthropic.is_error := None |};
              {| Anthropic.tool_use_id := "b";
                 Anthropic.content :=
                   "Error executing tool " +:+ dquote +:+ "failing" +:+ dquote +:+ ": boom";
                 Anthropic.is_error := Some true |}]];
        world := tt;
        trace := [EvChat (request ag1 [user_turn "hi"]); EvExec "noop" ∅;
                  EvExec "failing" ∅] |}) /\
  AgentGuarded.round ag2 Examples.greeted =
    (Normal None,
     {| messages :=
          [user_turn "hi"; asked2;
           tool_result_turn
             [{| Anthropic.tool_use_id := "a"; Anthropic.content := "done";
                 Anthropic.is_error := None |};
              {| Anthropic.tool_use_id := "b"; Anthropic.content := "done";
                 Anthropic.is_error := None |}]];
        world := tt;
        trace := [EvChat (request ag2 [user_turn "hi"]); EvExec "noop" ∅;
                  EvExec "noop" ∅] |}).
Proof.
  cbv zeta. repeat split; vm_compute; reflexivity.
Qed.

(** C4 at a call of [read_file], which is not registered. In
    [src/agent.ts], when the response carrying the call has a stop reason
    other than [tool_use], [run] returns the text of the response and no
    entry is produced for the call; and when an earlier call of the same
    response has an executor that rejects, [run] throws and no entry is
    produced either. On both responses the sibling revision produces the
    entry with the identifier of the call, [is_error] set and the text
    [Error: unknown tool "read_file"], and invokes no executor for it. *)
Theorem agent_ts_drops_unknown_tool_report :
  let truncated := Examples.cut_off (Examples.asks "read_file") in
  let after_failure := Examples.asks_two "failing" "read_file" in
  let tools := [Examples.noop; Examples.failing] in
  let ag1 := Examples.agent_of (Examples.constant_client truncated) tools in
  let ag2 := Examples.agent_of (Examples.constant_client after_failure) tools in
  let asked1 := assistant_turn (Anthropic.msg_content truncated) in
  let asked2 := assistant_turn (Anthropic.msg_content after_failure) in
  let unknown id :=
    {| Anthropic.tool_use_id := id;
       Anthropic.content := "Error: unknown tool " +:+ dquote +:+ "read_file" +:+ dquote;
       Anthropic.is_error := Some true |} in
  toolMap ag1 !! "read_file" = None /\
  toolUseBlocks (Anthropic.msg_content truncated) = [("a", "read_file", ∅)] /\
  toolUseBlocks (Anthropic.msg_content after_failure)
    = [("a", "failing", ∅); ("b", "read_file", ∅)] /\
  AgentTs.run ag1 3 "hi" Examples.m0 =
    (Normal "Let me check.",
     {| messages := [user_turn "hi"; asked1];
        world := tt;
        trace := [EvChat (request ag1 [user_turn "hi"])] |}) /\
  AgentTs.run ag2 3 "hi" Examples.m0 =
    (Throw {| message := "boom" |},
     {| messages := [user_turn "hi"; asked2];
        world := tt;
        trace := [EvChat (request ag2 [user_turn "hi"]); EvExec "failing" ∅] |}) /\
  AgentGuarded.round ag1 Examples.greeted =
    (Normal None,
     {| messages := [user_turn "hi"; asked1; tool_result_turn [unknown "a"]];
        world := tt;
        trace := [EvChat (request ag1 [user_turn "hi"])] |}) /\
  AgentGuarded.round ag2 Examples.greeted =
    (Normal None,
     {| messages :=
          [user_turn "hi"; asked2;
           tool_result_turn
             [{| Anthropic.tool_use_id := "a";
                 Anthropic.content :=
                   "Error executing tool " +:+ dquote +:+ "failing" +:+ dquote +:+ ": boom";
                 Anthropic.is_error := Some true |};
              unknown "b"]];
        world := tt;
        trace := [EvChat (request ag2 [user_turn "hi"]); EvExec "failing" ∅] |}).
Proof.
  cbv zeta. repeat split; vm_compute; reflexivity.
Qed.

(** The [catch] clause of the sibling revision reads the [message] of what
    it caught: when an executor rejects with [null], the clause itself
    throws a [TypeError], and that round too ends without a tool-result
    turn. *)
Example guarded_catch_clause_throws :
  let ag := Examples.agent_of (Examples.constant_client (Examples.asks "rejecting_null"))
                              [Examples.rejecting_null] in
  AgentGuarded.run ag 3 "hi" Examples.m0 =
    (Throw (TypeError_message JsNull),
     {| messages := [user_turn "hi";
                     assistant_turn (Anthropic.msg_content (Examples.asks "rejecting_null"))];
        world := tt;
        trace := [EvChat (request ag [user_turn "hi"]); EvExec "rejecting_null" ∅] |}) /\
  message (TypeError_message JsNull) = "Cannot read properties of null (reading 'message')".
Proof. cbv zeta. split; vm_compute; reflexivity. Qed.

Section Run.
Context {World : Type}.
Implicit Types (ag : Agent World) (m : Machine World).

(** In either revision, a round that falls through has appended the
    assistant turn and one tool-result turn answering its tool calls
    one by one, after invoking the registered executors in order. *)
Lemma round_falls_through ag m m' response w :
  provider_reply ag m = (Resolved response, w) ->
  AgentGuarded.round ag m = (Normal None, m') \/ AgentTs.round ag m = (Normal None, m') ->
  exists rs,
    messages m' = messages m ++ [assistant_turn (Anthropic.msg_content response);
                                 tool_result_turn rs] /\
    trace m' = trace m ++ EvChat (request ag (messages m))
                 :: exec_events ag (toolUseBlocks (Anthropic.msg_content response)) /\
    Forall2 (answers ag) (toolUseBlocks (Anthropic.msg_content response)) rs /\
    Anthropic.tool_use_id <$> rs = call_id <$> toolUseBlocks (Anthropic.msg_content response).
Proof.
  intros Hchat [Hround|Hround].
  - destruct (decide (toolUseBlocks (Anthropic.msg_content response) = [])) as [Hn|Hs].
    + rewrite (GuardedFacts.round_returns _ _ _ _ Hchat Hn) in Hround. discriminate.
    + pose proof (GuardedFacts.round_dispatch_cases _ _ _ _ Hchat Hs) as H.
      by rewrite Hround in H.
  - destruct (decide (Anthropic.stop_reason response = Some Anthropic.tool_use)) as [Hs|Hn].
    + pose proof (TsFacts.round_dispatches_ts _ _ _ _ Hchat Hs) as H.
      by rewrite Hround in H.
    + rewrite (TsFacts.round_returns_ts _ _ _ _ Hchat Hn) in Hround. discriminate.
Qed.

(** In either revision, a round that returns has appended the assistant
    turn only, and returns the joined text of that turn. *)
Lemma round_returned ag m m' result :
  AgentGuarded.round ag m = (Normal (Some result), m') \/
  AgentTs.round ag m = (Normal (Some result), m') ->
  exists response w,
    provider_reply ag m = (Resolved response, w) /\
    messages m' = messages m ++ [assistant_turn (Anthropic.msg_content response)] /\
    trace m' = trace m ++ [EvChat (request ag (messages m))] /\
    result = answer (Anthropic.msg_content response).
Proof.
  destruct (provider_reply ag m) as [[response|e] w] eqn:Hchat; intros [Hround|Hround].
  - destruct (decide (toolUseBlocks (Anthropic.msg_content response) = [])) as [Hn|Hs].
    + rewrite (GuardedFacts.round_returns _ _ _ _ Hchat Hn) in Hround.
      injection Hround as <- <-. by eexists _, _.
    + pose proof (GuardedFacts.round_dispatch_cases _ _ _ _ Hchat Hs) as H.
      by rewrite Hround in H.
  - destruct (decide (Anthropic.stop_reason response = Some Anthropic.tool_use)) as [Hs|Hn].
    + pose proof (TsFacts.round_dispatches_ts _ _ _ _ Hchat Hs) as H.
      by rewrite Hround in H.
    + rewrite (TsFacts.round_returns_ts _ _ _ _ Hchat Hn) in Hround.
      injection Hround as <- <-. by eexists _, _.
  - rewrite (GuardedFacts.round_rejected _ _ _ _ Hchat) in Hround. discriminate.
  - rewrite (TsFacts.round_rejected_ts _ _ _ _ Hchat) in Hround. discriminate.
Qed.

(** A loop that returns does so in a round that returns. *)
Lemma while_true_returned (body : M World (option string)) fuel m result m' :
  while_true body fuel m = (Normal result, m') ->
  exists m1, body m1 = (Normal (Some result), m').
Proof.
  revert m. induction fuel as [|fuel IH]; intros m; simpl; [discriminate|].
  unfold bind. destruct (body m) as [[[r|]|e|] m1] eqn:Hbody; try discriminate.
  - unfold ret. intros [= <- <-]. eauto.
  - apply IH.
Qed.

(** No executor is invoked under a name that is not registered. *)
Lemma exec_events_registered ag blocks name input :
  EvExec name input ∈ exec_events ag blocks -> is_Some (toolMap ag !! name).
Proof.
  unfold exec_events. intros Hin. apply list_elem_of_omap in Hin as ([[id n] i] & _ & Hb).
  simpl in Hb. destruct (toolMap ag !! n) eqn:Hl; [|discriminate].
  injection Hb as <- <-. by eexists.
Qed.

(** On the revision with the dispatch boundary a round returns exactly
    when the response has no tool call; otherwise, when the reason of
    every rejection has a [message], it dispatches the tool calls, appends
    both turns, and the loop goes on with a provider call on the extended
    conversation. *)
Lemma guarded_returns_iff_no_tool_call ag m response w :
  provider_reply ag m = (Resolved response, w) ->
  ((exists result m', AgentGuarded.round ag m = (Normal (Some result), m')) <->
   toolUseBlocks (Anthropic.msg_content response) = []) /\
  (rejections_readable ag ->
   toolUseBlocks (Anthropic.msg_content response) <> [] ->
   exists rs m',
     AgentGuarded.round ag m = (Normal None, m') /\
     messages m' = messages m ++ [assistant_turn (Anthropic.msg_content response);
                                  tool_result_turn rs] /\
     trace m' = trace m ++ EvChat (request ag (messages m))
                  :: exec_events ag (toolUseBlocks (Anthropic.msg_content response)) /\
     forall fuel,
       while_true (AgentGuarded.round ag) (S (S fuel)) m =
       while_true (AgentGuarded.round ag) (S fuel) m' /\
       exists evs,
         trace (while_true (AgentGuarded.round ag) (S fuel) m').2 =
         trace m' ++ EvChat (request ag (messages m')) :: evs).
Proof.
  intros Hchat. split; [split|].
  - intros (result & m' & Hround).
    destruct (decide (toolUseBlocks (Anthropic.msg_content response) = [])) as [|Hs]; [done|].
    pose proof (GuardedFacts.round_dispatch_cases _ _ _ _ Hchat Hs) as H.
    by rewrite Hround in H.
  - intros Hn. rewrite (GuardedFacts.round_returns _ _ _ _ Hchat Hn). eauto.
  - intros Hread Hs.
    destruct (GuardedFacts.round_dispatches _ _ _ _ Hread Hchat Hs)
      as (rs & m' & Hr & Hmsg & Htr & _).
    exists rs, m'. repeat split; try done.
    + by apply while_true_continue.
    + apply GuardedFacts.loop_calls_provider.
Qed.

(** On the revision with the dispatch boundary, when the executor of a
    registered tool rejects with an error, and the reason of every
    rejection has a [message], the round still falls through, the result
    for that call is the error text with [is_error] set, and the loop
    goes on with a provider call. *)
Lemma guarded_contains_executor_failure ag m response w i id name input tool (e : Error) :
  rejections_readable ag ->
  provider_reply ag m = (Resolved response, w) ->
  toolUseBlocks (Anthropic.msg_content response) !! i = Some (id, name, input) ->
  toolMap ag !! name = Some tool ->
  (forall w0, (Types.execute tool input w0).1 = Rejected e) ->
  exists rs m',
    AgentGuarded.round ag m = (Normal None, m') /\
    messages m' = messages m ++ [assistant_turn (Anthropic.msg_content response);
                                 tool_result_turn rs] /\
    rs !! i = Some {| Anthropic.tool_use_id := id;
                      Anthropic.content :=
                        "Error executing tool " +:+ dquote +:+ name +:+ dquote +:+ ": "
                        +:+ message e;
                      Anthropic.is_error := Some true |} /\
    forall fuel, exists evs,
      trace (while_true (AgentGuarded.round ag) (S (S fuel)) m).2 =
      trace m' ++ EvChat (request ag (messages m')) :: evs.
Proof.
  intros Hread Hchat Hcall Hlook Hrej.
  assert (Hs : toolUseBlocks (Anthropic.msg_content response) <> []).
  { intros Hn. by rewrite Hn in Hcall. }
  destruct (GuardedFacts.round_dispatches _ _ _ _ Hread Hchat Hs)
    as (rs & m' & Hr & Hmsg & Htr & Hans & Hids).
  exists rs, m'. repeat split; try done.
  - destruct (Forall2_lookup_l _ _ _ _ _ Hans Hcall) as (r & Hr' & Hanswer).
    rewrite Hr'. f_equal. unfold answers in Hanswer. simpl in Hanswer.
    rewrite Hlook in Hanswer. destruct Hanswer as [w0 Hsettle].
    rewrite Hrej in Hsettle. by injection Hsettle as <-.
  - intros fuel. rewrite (while_true_continue _ _ _ _ Hr).
    apply GuardedFacts.loop_calls_provider.
Qed.

(** In a round of either revision that appends a tool-result turn, that
    turn has exactly one entry per tool call of the round's assistant turn,
    the entry at each position carrying the call identifier of the tool
    call at that position, and the executors are invoked one after the
    other in the order of the calls. *)
Lemma fallen_through_results_match ag m response w m' :
  provider_reply ag m = (Resolved response, w) ->
  AgentGuarded.round ag m = (Normal None, m') \/ AgentTs.round ag m = (Normal None, m') ->
  exists rs,
    messages m' = messages m ++ [assistant_turn (Anthropic.msg_content response);
                                 tool_result_turn rs] /\
    length rs = length (toolUseBlocks (Anthropic.msg_content response)) /\
    Anthropic.tool_use_id <$> rs =
      (fun b : string * string * JsObject => b.1.1)
        <$> toolUseBlocks (Anthropic.msg_content response) /\
    trace m' = trace m ++ EvChat (request ag (messages m))
                 :: exec_events ag (toolUseBlocks (Anthropic.msg_content response)).
Proof.
  intros Hchat Hround.
  destruct (round_falls_through _ _ _ _ _ Hchat Hround) as (rs & Hmsg & Htr & Hans & Hids).
  exists rs. repeat split; try done.
  by apply Forall2_length in Hans.
Qed.

(** In such a round the entry for a tool call whose name is not
    registered carries the call identifier, the text
    [Error: unknown tool "<name>"] and [is_error = true], and no executor
    is invoked under that name. *)
Lemma fallen_through_reports_unknown_tool ag m response w i id name input m' :
  provider_reply ag m = (Resolved response, w) ->
  toolUseBlocks (Anthropic.msg_content response) !! i = Some (id, name, input) ->
  toolMap ag !! name = None ->
  AgentGuarded.round ag m = (Normal None, m') \/ AgentTs.round ag m = (Normal None, m') ->
  exists rs,
    messages m' = messages m ++ [assistant_turn (Anthropic.msg_content response);
                                 tool_result_turn rs] /\
    rs !! i = Some {| Anthropic.tool_use_id := id;
                      Anthropic.content :=
                        "Error: unknown tool " +:+ dquote +:+ name +:+ dquote;
                      Anthropic.is_error := Some true |} /\
    trace m' = trace m ++ EvChat (request ag (messages m))
                 :: exec_events ag (toolUseBlocks (Anthropic.msg_content response)) /\
    forall input', EvExec name input' ∉
                     exec_events ag (toolUseBlocks (Anthropic.msg_content response)).
Proof.
  intros Hchat Hcall Hmiss Hround.
  destruct (round_falls_through _ _ _ _ _ Hchat Hround) as (rs & Hmsg & Htr & Hans & Hids).
  exists rs. repeat split; try done.
  - destruct (Forall2_lookup_l _ _ _ _ _ Hans Hcall) as (r & Hr' & Hanswer).
    rewrite Hr'. f_equal. unfold answers in Hanswer. simpl in Hanswer.
    by rewrite Hmiss in Hanswer.
  - intros input' Hin. apply exec_events_registered in Hin as [tool Htool].
    congruence.
Qed.


(** [join] is the [concat] of the standard library. *)
Lemma join_concat (sep : string) (l : list string) : join sep l = String.concat sep l.
Proof.
  induction l as [|s [|s' l] IH]; [done|done|].
  change (join sep (s :: s' :: l)) with (s +:+ sep +:+ join sep (s' :: l)).
  by rewrite IH.
Qed.

(** C6: when [run] returns, the last turn of the conversation is the
    assistant turn of the final response, and the answer is the text of
    its text segments, in their order and with the other segments left
    out, joined by a line feed: the first text, and then each further
    text with one line feed before it. It is the empty string when that
    turn has no segment at all. *)
Theorem final_answer_joins_text ag fuel userMessage m result m'
    (Hrun : AgentGuarded.run ag fuel userMessage m = (Normal result, m') \/
            AgentTs.run ag fuel userMessage m = (Normal result, m')) :
  exists content,
    let texts :=
      omap (fun block => match block with
                         | Anthropic.TextBlock text => Some text
                         | _ => None
                         end) content in
    last (messages m') = Some (assistant_turn content) /\
    result = String.concat newline texts /\
    (forall text rest, texts = text :: rest ->
       result = text +:+ fold_right (fun t tail => newline +:+ t +:+ tail) EmptyString rest) /\
    (content = [] -> result = EmptyString).
Proof.
  assert (exists m1,
             AgentGuarded.round ag m1 = (Normal (Some result), m') \/
             AgentTs.round ag m1 = (Normal (Some result), m')) as [m1 Hround].
  { destruct Hrun as [Hrun|Hrun];
      unfold AgentGuarded.run, AgentTs.run, bind at 1, push in Hrun;
      apply while_true_returned in Hrun as [m1 Hm1]; eauto. }
  destruct (round_returned _ _ _ _ Hround) as (response & w & _ & Hmsg & _ & ->).
  exists (Anthropic.msg_content response). cbv zeta. unfold answer.
  rewrite join_concat.
  change (omap as_text (Anthropic.msg_content response))
    with (omap (fun block => match block with
                             | Anthropic.TextBlock text => Some text
                             | _ => None
                             end) (Anthropic.msg_content response)).
  repeat split.
  - by rewrite Hmsg, last_snoc.
  - intros text rest ->. clear. revert text.
    induction rest as [|text' rest IH]; intros text.
    + simpl. clear. induction text as [|c text IH]; [done|].
      change (String c text = String c (text +:+ EmptyString)). by rewrite <- IH.
    + change (String.concat newline (text :: text' :: rest))
        with (text +:+ newline +:+ String.concat newline (text' :: rest)).
      by rewrite IH.
  - by intros ->.
Qed.

(** On the revision with the dispatch boundary, a response without any
    block ends the loop with the empty answer. *)
Lemma guarded_empty_response ag m response w fuel :
  provider_reply ag m = (Resolved response, w) ->
  Anthropic.msg_content response = [] ->
  exists m', while_true (AgentGuarded.round ag) (S fuel) m = (Normal EmptyString, m').
Proof.
  intros Hchat Hempty. eexists. apply while_true_return.
  rewrite (GuardedFacts.round_returns _ _ _ _ Hchat) by (by rewrite Hempty).
  by rewrite Hempty.
Qed.
End Run.

(** An unregistered tool is asked for, the provider sees the error and
    answers with text: both revisions return that text. *)
Example unknown_tool_scenario :
  let ag := Examples.agent_missing in
  let asked := assistant_turn (Anthropic.msg_content (Examples.asks "read_file")) in
  let reported :=
    tool_result_turn
      [{| Anthropic.tool_use_id := "a";
          Anthropic.content := "Error: unknown tool " +:+ dquote +:+ "read_file" +:+ dquote;
          Anthropic.is_error := Some true |}] in
  let final :=
    {| messages := [user_turn "list files here"; asked; reported;
                    assistant_turn [Anthropic.TextBlock "I could not find that tool."]];
       world := tt;
       trace := [EvChat (request ag [user_turn "list files here"]);
                 EvChat (request ag [user_turn "list files here"; asked; reported])] |} in
  AgentGuarded.run ag 2 "list files here" Examples.m0
    = (Normal "I could not find that tool.", final) /\
  AgentTs.run ag 2 "list files here" Examples.m0
    = (Normal "I could not find that tool.", final).
Proof. cbv zeta. split; vm_compute; reflexivity. Qed.

(** A provider that keeps asking for a tool exhausts any bound on the
    number of rounds. *)
Example endless_tool_calls :
  (AgentGuarded.run (Examples.agent_of (Examples.constant_client (Examples.asks "noop"))
                                       [Examples.noop])
                    5 "hi" Examples.m0).1 = OutOfFuel.
Proof. vm_compute. reflexivity. Qed.

Section Invariant.
Context {World : Type}.
Implicit Types (ag : Agent World) (m : Machine World).

Lemma well_answered_app (l1 l2 : list Anthropic.MessageParam) :
  well_answered l1 = true -> well_answered l2 = true -> well_answered (l1 ++ l2) = true.
Proof.
  remember (length l1) as n eqn:Hn. revert l1 Hn.
  induction n as [n IH] using lt_wf_ind. intros l1 Hn H1 H2.
  destruct l1 as [|[role content] rest]; [done|]. simpl in Hn.
  assert (Hrest : well_answered rest = true -> well_answered (rest ++ l2) = true).
  { intros Hr. apply (IH (length rest)); [lia|done|done|done]. }
  destruct role, content as [text|blocks|results]; simpl in *; try by apply Hrest.
  destruct (toolUseBlocks blocks) as [|b bs]; [by apply Hrest|].
  destruct rest as [|[role' content'] rest']; [done|].
  destruct role'; [|done]. destruct content' as [text|blocks'|rs]; try done.
  simpl. apply andb_true_iff in H1 as [Hids Hrest']. rewrite Hids. simpl.
  apply (IH (length rest')); [simpl in Hn; lia|done|done|done].
Qed.

(** When the reason of every rejection has a [message], a round of the
    revision with the dispatch boundary keeps the invariant, however it
    ends. *)
Lemma guarded_round_well_answered ag m :
  rejections_readable ag ->
  well_answered (messages m) = true ->
  well_answered (messages (AgentGuarded.round ag m).2) = true.
Proof.
  intros Hread Hwa. destruct (provider_reply ag m) as [[response|e] w] eqn:Hchat.
  - destruct (decide (toolUseBlocks (Anthropic.msg_content response) = [])) as [Hn|Hs].
    + rewrite (GuardedFacts.round_returns _ _ _ _ Hchat Hn). simpl.
      apply well_answered_app; [done|]. simpl. by rewrite Hn.
    + destruct (GuardedFacts.round_dispatches _ _ _ _ Hread Hchat Hs)
        as (rs & m' & Hr & Hmsg & _ & _ & Hids).
      rewrite Hr. simpl. rewrite Hmsg.
      apply well_answered_app; [done|]. simpl.
      destruct (toolUseBlocks (Anthropic.msg_content response)); [done|].
      by rewrite Hids, bool_decide_eq_true_2.
  - by rewrite (GuardedFacts.round_rejected _ _ _ _ Hchat).
Qed.

(** [run] of the revision with the dispatch boundary then keeps the
    invariant: whether it returns, throws what the provider threw or is cut
    short, no tool call of the conversation is left unanswered. *)
Lemma guarded_run_well_answered ag fuel userMessage m :
  rejections_readable ag ->
  well_answered (messages m) = true ->
  well_answered (messages (AgentGuarded.run ag fuel userMessage m).2) = true.
Proof.
  intros Hread Hwa. unfold AgentGuarded.run, bind at 1, push. cbn iota beta.
  match goal with |- context [while_true _ fuel ?m1] =>
    assert (H1 : well_answered (messages m1) = true)
      by (simpl; by apply well_answered_app);
    generalize dependent m1 end.
  clear Hwa. induction fuel as [|fuel IH]; intros m1 H1; [done|].
  simpl. unfold bind.
  pose proof (guarded_round_well_answered ag m1 Hread H1) as Hround.
  destruct (AgentGuarded.round ag m1) as [[[result|]|e|] m2]; simpl in *; try done.
  by apply IH.
Qed.
End Invariant.

(** In [src/agent.ts] the invariant is lost in both ways: by the return on
    a stop reason other than [tool_use], and by the executor's error. *)
Example agent_ts_leaves_tool_call_unanswered :
  well_answered
    (messages
       (AgentTs.run
          (Examples.agent_of (Examples.constant_client Examples.truncated_tool_call)
                             [Examples.noop])
          3 "hi" Examples.m0).2) = false /\
  well_answered
    (messages
       (AgentTs.run
          (Examples.agent_of (Examples.tool_then_text "failing" "recovered")
                             [Examples.failing])
          3 "hi" Examples.m0).2) = false.
Proof. split; vm_compute; reflexivity. Qed.


Lemma final_answer_joins_text_witness :
  let ag := Examples.agent_of (Examples.constant_client Examples.says_three) [Examples.noop] in
  let m' := (AgentTs.run ag 3 "hi" Examples.m0).2 in
  let answered := "one" +:+ newline +:+ newline +:+ "three" in
  AgentTs.run ag 3 "hi" Examples.m0 = (Normal answered, m') /\
  AgentGuarded.run ag 3 "hi" Examples.m0 = (Normal answered, m') /\
  exists content,
    let texts :=
      omap (fun block => match block with
                         | Anthropic.TextBlock text => Some text
                         | _ => None
                         end) content in
    last (messages m') = Some (assistant_turn content) /\
    answered = String.concat newline texts /\
    (forall text rest, texts = text :: rest ->
       answered
       = text +:+ fold_right (fun t tail => newline +:+ t +:+ tail) EmptyString rest) /\
    (content = [] -> answered = EmptyString).
Proof.
  cbv zeta.
  assert (Hrun : AgentTs.run
                   (Examples.agent_of (Examples.constant_client Examples.says_three)
                                      [Examples.noop]) 3 "hi" Examples.m0
                 = (Normal ("one" +:+ newline +:+ newline +:+ "three"),
                    (AgentTs.run
                       (Examples.agent_of (Examples.constant_client Examples.says_three)
                                          [Examples.noop]) 3 "hi" Examples.m0).2))
    by (vm_compute; reflexivity).
  split; [exact Hrun|]. split; [vm_compute; reflexivity|].
  exact (final_answer_joins_text _ _ _ _ _ _ (or_intror Hrun)).
Defined.
End RunFacts.

(** ** [bashTool.execute] *)
Module BashFacts.
Import Bash.

(** [trimEnd] splits off a run of white space, and what it keeps does
    not end in white space. *)
Lemma trimEnd_decompose (s : string) :
  exists ws,
    s = trimEnd s +:+ ws /\
    Forall (fun c => isWhiteSpace c = true) (list_ascii_of_string ws) /\
    (forall c, last (list_ascii_of_string (trimEnd s)) = Some c -> isWhiteSpace c = false).
Proof.
  induction s as [|c s (ws & Heq & Hws & Hlast)]; simpl.
  - exists EmptyString. repeat split; [constructor|discriminate].
  - destruct (trimEnd s) as [|c' s'] eqn:Htrim.
    + destruct (isWhiteSpace c) eqn:Hc.
      * exists (String c ws). simpl in *. repeat split; [by rewrite Heq|by constructor|discriminate].
      * exists ws. simpl in *. repeat split; [by rewrite Heq|done|congruence].
    + exists ws. simpl in *. repeat split; [by rewrite Heq at 1|done|done].
Qed.

Example on_exit_success :
  on_exit {| error := None; stdout := "hello" +:+ newline; stderr := EmptyString |} = "hello".
Proof. reflexivity. Qed.

Example on_exit_timeout :
  on_exit {| error := Some {| code := None |}; stdout := "out"; stderr := "err" |}
  = "outerr" +:+ newline +:+ "[exit code 1]".
Proof. reflexivity. Qed.

Example on_exit_status :
  on_exit {| error := Some {| code := Some (CodeNumber 127) |};
             stdout := EmptyString; stderr := "not found" |}
  = "not found" +:+ newline +:+ "[exit code 127]".
Proof. reflexivity. Qed.

(** Every integer prints as a numeral that reads back as itself. *)
Lemma code_number_reads_back (n : Z) :
  option_map Z.of_int
    (DecimalString.NilZero.int_of_string (code_to_string (CodeNumber n))) = Some n.
Proof.
  cbn [code_to_string].
  assert (Hnorm : Z.to_int n = Decimal.norm (Z.to_int n))
    by (by rewrite <- DecimalZ.to_of, DecimalZ.of_to).
  rewrite DecimalString.NilZero.isi.
  - simpl. by rewrite DecimalZ.of_to.
  - intros Hnil. by rewrite Hnil in Hnorm.
  - intros Hnil. by rewrite Hnil in Hnorm.
Qed.

(** C9 as stated fails: on a command that holds a NUL character
    [execFile] throws before it returns, inside the executor of the
    promise, and [bashTool.execute] of either revision rejects with that
    error. *)
Lemma bash_execute_rejects_on_NUL :
  let input : JsObject := {[ "command" := JStr (String Examples.NUL EmptyString) ]} in
  let cb := {| error := None; stdout := EmptyString; stderr := EmptyString |} in
  input !! "command" = Some (JStr (String Examples.NUL EmptyString)) /\
  execute (Examples.spawns cb) "linux" input tt
    = (Rejected Examples.ERR_INVALID_ARG_VALUE, tt) /\
  execute (Examples.spawns cb) "win32" input tt
    = (Rejected Examples.ERR_INVALID_ARG_VALUE, tt) /\
  execute_bash_only (Examples.spawns cb) input tt
    = (Rejected Examples.ERR_INVALID_ARG_VALUE, tt).
Proof. cbv zeta. repeat split; vm_compute; reflexivity. Qed.

(** C9, amended: on a command string, [bashTool.execute] of either
    revision calls [execFile] once, on the shell with the command as its
    second argument and a timeout of 30000 ms, and settles as that call
    goes. When [execFile] hands an outcome to the callback, the promise
    resolves: without an error, with stdout followed by stderr less the run
    of white space at its end; with an error, with stdout and stderr
    untrimmed, a line feed and [[exit code N]], [N] being the error's code,
    in decimal when it is a number, or 1 when it has none. When [execFile]
    throws instead, the promise rejects with what was thrown. *)
Theorem bash_execute_settles_as_execFile_goes {World}
    (execFile : string -> list (option json) -> Z -> World -> Spawn * World)
    (platform : string) (input : JsObject) (command : string) (w : World)
    (Hcommand : input !! "command" = Some (JStr command)) :
  let settles (spawned : Spawn * World) (settled : Settled string * World) :=
    settled.2 = spawned.2 /\
    match spawned.1 with
    | Threw err => settled.1 = Rejected err
    | CalledBack cb =>
        exists out,
          settled.1 = Resolved out /\
          match error cb with
          | None =>
              exists ws,
                stdout cb +:+ stderr cb = out +:+ ws /\
                Forall (fun c => isWhiteSpace c = true) (list_ascii_of_string ws) /\
                (forall c, last (list_ascii_of_string out) = Some c -> isWhiteSpace c = false)
          | Some e =>
              exists N,
                out = stdout cb +:+ stderr cb +:+ newline +:+ "[exit code " +:+ N +:+ "]" /\
                match code e with
                | None => N = "1"
                | Some (CodeString name) => N = name
                | Some (CodeNumber n) =>
                    option_map Z.of_int (DecimalString.NilZero.int_of_string N) = Some n
                end
          end
    end in
  let shell := if bool_decide (platform = "win32") then "cmd.exe" else "bash" in
  let flag := if bool_decide (platform = "win32") then "/c" else "-c" in
  settles (execFile shell [Some (JStr flag); Some (JStr command)] 30000%Z w)
          (execute execFile platform input w) /\
  settles (execFile "bash" [Some (JStr "-c"); Some (JStr command)] 30000%Z w)
          (execute_bash_only execFile input w).
Proof.
  cbv zeta.
  assert (Hsettles : forall spawned : Spawn * World,
    (new_Promise spawned).2 = spawned.2 /\
    match spawned.1 with
    | Threw err => (new_Promise spawned).1 = Rejected err
    | CalledBack cb =>
        exists out,
          (new_Promise spawned).1 = Resolved out /\
          match error cb with
          | None =>
              exists ws,
                stdout cb +:+ stderr cb = out +:+ ws /\
                Forall (fun c => isWhiteSpace c = true) (list_ascii_of_string ws) /\
                (forall c, last (list_ascii_of_string out) = Some c -> isWhiteSpace c = false)
          | Some e =>
              exists N,
                out = stdout cb +:+ stderr cb +:+ newline +:+ "[exit code " +:+ N +:+ "]" /\
                match code e with
                | None => N = "1"
                | Some (CodeString name) => N = name
                | Some (CodeNumber n) =>
                    option_map Z.of_int (DecimalString.NilZero.int_of_string N) = Some n
                end
          end
    end).
  { intros [[err|cb] w']; simpl; [done|]. split; [done|].
    eexists. split; [reflexivity|]. unfold on_exit.
    destruct (error cb) as [e|].
    - exists (code_or_1 e). split; [done|]. unfold code_or_1.
      destruct (code e) as [[n|name]|]; [|done|done].
      apply code_number_reads_back.
    - destruct (trimEnd_decompose (stdout cb +:+ stderr cb)) as (ws & Heq & Hws & Hlast).
      by exists ws. }
  unfold execute, execute_bash_only. rewrite Hcommand.
  split; [|apply Hsettles].
  destruct (bool_decide (platform = "win32")); apply Hsettles.
Qed.

Lemma bash_execute_settles_as_execFile_goes_witness :
  let failed : Callback :=
    {| error := Some {| code := Some (CodeNumber 127) |};
       stdout := "partial" +:+ newline;
       stderr := "bash: line 1: frobnicate: command not found" +:+ newline |} in
  let input : JsObject := {[ "command" := JStr "echo partial; frobnicate" ]} in
  input !! "command" = Some (JStr "echo partial; frobnicate") /\
  execute (Examples.spawns failed) "linux" input tt
    = (Resolved ("partial" +:+ newline
                 +:+ "bash: line 1: frobnicate: command not found" +:+ newline
                 +:+ newline +:+ "[exit code 127]"), tt) /\
  (exists out,
     (execute (Examples.spawns failed) "linux" input tt).1 = Resolved out /\
     exists N,
       out = stdout failed +:+ stderr failed +:+ newline +:+ "[exit code " +:+ N +:+ "]" /\
       option_map Z.of_int (DecimalString.NilZero.int_of_string N) = Some 127%Z) /\
  (exists out,
     (execute_bash_only (Examples.spawns failed) input tt).1 = Resolved out /\
     exists N,
       out = stdout failed +:+ stderr failed +:+ newline +:+ "[exit code " +:+ N +:+ "]" /\
       option_map Z.of_int (DecimalString.NilZero.int_of_string N) = Some 127%Z).
Proof.
  cbv zeta.
  assert (Hcommand : ({[ "command" := JStr "echo partial; frobnicate" ]} : JsObject)
                       !! "command" = Some (JStr "echo partial; frobnicate"))
    by apply lookup_singleton_eq.
  split; [exact Hcommand|]. split; [vm_compute; reflexivity|].
  destruct (bash_execute_settles_as_execFile_goes
              (Examples.spawns
                 {| error := Some {| code := Some (CodeNumber 127) |};
                    stdout := "partial" +:+ newline;
                    stderr := "bash: line 1: frobnicate: command not found" +:+ newline |})
              "linux" _ "echo partial; frobnicate" tt Hcommand) as [[_ H1] [_ H2]].
  split; [exact H1|exact H2].
Defined.

(** The other outcomes handed to the callback: success with white space
    at the end of the output, a child killed by the timeout, and a shell
    that could not be started. *)
Example bash_execute_outcomes :
  let run cb := execute (Examples.spawns cb) "linux" {[ "command" := JStr "ls" ]} tt in
  run {| error := None; stdout := "a.txt" +:+ newline +:+ "b.txt" +:+ newline;
         stderr := " " +:+ newline |}
    = (Resolved ("a.txt" +:+ newline +:+ "b.txt"), tt) /\
  run {| error := None; stdout := EmptyString; stderr := EmptyString |}
    = (Resolved EmptyString, tt) /\
  run {| error := Some {| code := None |}; stdout := "slow "; stderr := EmptyString |}
    = (Resolved ("slow " +:+ newline +:+ "[exit code 1]"), tt) /\
  run {| error := Some {| code := Some (CodeString "ENOENT") |};
         stdout := EmptyString; stderr := EmptyString |}
    = (Resolved (newline +:+ "[exit code ENOENT]"), tt) /\
  run {| error := Some {| code := Some (CodeNumber 2) |};
         stdout := EmptyString; stderr := "ls: cannot access" +:+ newline |}
    = (Resolved ("ls: cannot access" +:+ newline +:+ newline +:+ "[exit code 2]"), tt).
Proof. cbv zeta. repeat split; vm_compute; reflexivity. Qed.
End BashFacts.

(** ** [extractText] *)
Module ParserFacts.
Import Parser.

(** Induction over part trees. *)
Lemma MessagePart_forall_ind (P : MessagePart -> Prop) :
  (forall m b, P (Part m b None)) ->
  (forall m b ps, Forall P ps -> P (Part m b (Some ps))) ->
  forall p, P p.
Proof.
  intros Hleaf Hnode. fix IH 1. intros [m b [ps|]].
  - apply Hnode. induction ps as [|p ps IHps]; constructor; [apply IH|exact IHps].
  - apply Hleaf.
Qed.

Lemma combine_map_rev {A B} (f : A -> B) (l : list A) :
  rev (combine l (List.map f l)) = combine (rev l) (List.map f (rev l)).
Proof.
  assert (H : forall l0 : list A, combine l0 (List.map f l0) = List.map (fun a => (a, f a)) l0).
  { induction l0 as [|a l0 IH]; simpl; [done|]. by rewrite IH. }
  rewrite !H. by rewrite List.map_rev.
Qed.

Section Facts.
Variable decodeBody : string -> string.
Variable htmlToText : string -> string.

Abbreviation extractText := (extractText decodeBody htmlToText).
Abbreviation extractText_depth := (extractText_depth decodeBody htmlToText).

(** The loops of the bounded version compute what the lists of texts
    give, as long as each call they make returns. *)
Lemma nested_loop_spec (call : MessagePart -> option string) (ps : list MessagePart) :
  Forall (fun p => call p = Some (extractText p)) ps ->
  nested_loop call ps = Some (first_nested (combine ps (List.map extractText ps))).
Proof.
  induction 1 as [|p ps Hp _ IH]; simpl; [done|].
  destruct (is_multipart p); simpl; [|exact IH].
  rewrite Hp. by destruct (truthy (extractText p)).
Qed.

Lemma sections_loop_spec (call : MessagePart -> option string) (ps : list MessagePart) :
  Forall (fun p => call p = Some (extractText p)) ps ->
  forall acc,
    sections_loop call ps acc = Some (acc ++ List.filter truthy (List.map extractText ps)).
Proof.
  induction 1 as [|p ps Hp _ IH]; intros acc; simpl.
  - by rewrite app_nil_r.
  - rewrite Hp, IH. destruct (truthy (extractText p)); [|done].
    by rewrite <- app_assoc.
Qed.

Lemma height_parts m b ps p depth :
  height (Part m b (Some ps)) <= S depth -> p ∈ ps -> height p <= depth.
Proof.
  simpl. intros Hle Hin. apply le_S_n in Hle.
  assert (Hmax : height p <= list_max (List.map height ps)); [|lia].
  clear Hle. induction Hin as [p ps|p q ps _ IH]; simpl; lia.
Qed.

(** A call stack as deep as the tree is enough for [extractText] to
    return. *)
Lemma extractText_depth_enough (payload : MessagePart) :
  forall depth, height payload <= depth ->
                extractText_depth depth payload = Some (extractText payload).
Proof.
  induction payload as [m b|m b ps IH] using MessagePart_forall_ind;
    intros [|depth] Hle; try (simpl in Hle; lia).
  - simpl. by destruct (leaf _ _ _).
  - assert (Hcalls : Forall (fun p => extractText_depth depth p = Some (extractText p)) ps).
    { apply Forall_forall. intros p Hin.
      rewrite Forall_forall in IH. apply (IH p Hin).
      by apply (height_parts m b ps). }
    cbn [Parser.extractText_depth Parser.extractText parts].
    destruct (leaf decodeBody htmlToText (Part m b (Some ps))); [done|].
    destruct ps as [|p0 ps0]; [done|].
    set (ps := p0 :: ps0) in *.
    rewrite (sections_loop_spec _ _ Hcalls []). simpl app.
    destruct (mime_is "multipart/alternative" (Part m b (Some ps))); [|done].
    unfold alternative.
    destruct (first_html decodeBody htmlToText (rev ps)); [done|].
    rewrite nested_loop_spec by (by apply Forall_rev).
    rewrite combine_map_rev.
    destruct (first_nested _); [done|].
    by destruct (first_plain decodeBody ps).
Qed.

(** A part without text offers nothing to the loops over leaves. *)
Lemma no_text_no_data mime (p : MessagePart) :
  has_text p = false ->
  mime = "text/plain" \/ mime = "text/html" ->
  (if mime_is mime p then body_data p else None) = None.
Proof.
  destruct p as [m b ps]. cbn [has_text].
  intros Hnone Hmime. apply orb_false_iff in Hnone as [Hleaf _].
  destruct (mime_is mime (Part m b ps)) eqn:Hm; [|done].
  destruct (body_data (Part m b ps)); [|done].
  apply orb_false_iff in Hleaf as [Hp Hh].
  destruct Hmime as [->| ->]; congruence.
Qed.

Lemma first_html_none (ps : list MessagePart) :
  Forall (fun p => has_text p = false) ps -> first_html decodeBody htmlToText ps = None.
Proof.
  induction 1 as [|p ps Hp _ IH]; simpl; [done|].
  rewrite (no_text_no_data "text/html" p Hp) by (by right). exact IH.
Qed.

Lemma first_plain_none (ps : list MessagePart) :
  Forall (fun p => has_text p = false) ps -> first_plain decodeBody ps = None.
Proof.
  induction 1 as [|p ps Hp _ IH]; simpl; [done|].
  rewrite (no_text_no_data "text/plain" p Hp) by (by left). exact IH.
Qed.

Lemma first_nested_none (l : list (MessagePart * string)) :
  Forall (fun pt => pt.2 = EmptyString) l -> first_nested l = None.
Proof.
  induction 1 as [|[p t] l Ht _ IH]; simpl; [done|].
  simpl in Ht. rewrite Ht. simpl. rewrite andb_false_r. exact IH.
Qed.

(** Without a text leaf anywhere, the result is the empty string. *)
Lemma extractText_no_text (payload : MessagePart) :
  has_text payload = false -> extractText payload = EmptyString.
Proof.
  induction payload as [m b|m b ps IH] using MessagePart_forall_ind; intros Hnone.
  - assert (Hleaf : leaf decodeBody htmlToText (Part m b None) = None).
    { unfold leaf.
      pose proof (no_text_no_data "text/plain" _ Hnone (or_introl eq_refl)) as Hp.
      pose proof (no_text_no_data "text/html" _ Hnone (or_intror eq_refl)) as Hh.
      destruct (body_data (Part m b None)); [|done].
      destruct (mime_is "text/plain" _); [done|].
      by destruct (mime_is "text/html" _). }
    cbn [Parser.extractText]. by rewrite Hleaf.
  - assert (Hleaf : leaf decodeBody htmlToText (Part m b (Some ps)) = None).
    { unfold leaf.
      pose proof (no_text_no_data "text/plain" _ Hnone (or_introl eq_refl)) as Hp.
      pose proof (no_text_no_data "text/html" _ Hnone (or_intror eq_refl)) as Hh.
      destruct (body_data (Part m b (Some ps))); [|done].
      destruct (mime_is "text/plain" _); [done|].
      by destruct (mime_is "text/html" _). }
    assert (Hparts : Forall (fun p => has_text p = false) ps).
    { cbn [has_text] in Hnone. apply orb_false_iff in Hnone as [_ Hex].
      apply Forall_forall. intros p Hin.
      destruct (has_text p) eqn:Hp; [|done].
      assert (existsb has_text ps = true); [|congruence].
      apply existsb_exists. exists p. split; [by apply list_elem_of_In|done]. }
    assert (Htexts : Forall (fun t => t = EmptyString) (List.map extractText ps)).
    { apply Forall_forall. intros t Hin. apply list_elem_of_In, in_map_iff in Hin
        as (p & <- & Hin). apply list_elem_of_In in Hin.
      rewrite Forall_forall in IH, Hparts. by apply IH, Hparts. }
    cbn [Parser.extractText]. rewrite Hleaf.
    destruct ps as [|p0 ps0]; [done|].
    set (ps := p0 :: ps0) in *.
    assert (Hsections : sections (List.map extractText ps) = EmptyString).
    { unfold sections.
      assert (Hfilter : List.filter truthy (List.map extractText ps) = []); [|by rewrite Hfilter].
      clearbody ps. clear -Htexts. induction Htexts as [|t l -> _ IHl]; simpl; done. }
    destruct (mime_is "multipart/alternative" _); [|exact Hsections].
    unfold alternative.
    rewrite first_html_none by (by apply Forall_rev).
    rewrite first_nested_none, first_plain_none; [exact Hsections|done|].
    apply Forall_rev. clearbody ps. clear -Htexts.
    induction ps as [|p ps IHps]; simpl; constructor.
    + simpl. by apply Forall_inv in Htexts.
    + apply IHps. by apply Forall_inv_tail in Htexts.
Qed.

(** C10: [extractText] returns on every part tree, with a call stack
    no deeper than the tree, since it only calls itself on the parts of
    its argument; and it returns the empty string for a payload that
    neither is nor contains a [text/plain] or [text/html] part with
    data. *)
Theorem extractText_total_and_empty_without_text (payload : MessagePart)
    (Hnone : has_text payload = false) :
  (forall p depth, height p <= depth ->
                   extractText_depth depth p = Some (extractText p)) /\
  extractText_depth (height payload) payload = Some EmptyString /\
  extractText payload = EmptyString.
Proof.
  split; [|split].
  - intros p. apply extractText_depth_enough.
  - rewrite extractText_depth_enough by done. f_equal. by apply extractText_no_text.
  - by apply extractText_no_text.
Qed.
End Facts.

Example extractText_prefers_html :
  extractText (fun data => data) (fun html => html) Examples.two_renderings
  = "html" +:+ newline +:+ newline +:+ "footer".
Proof. reflexivity. Qed.

Example extractText_depth_too_small :
  extractText_depth (fun data => data) (fun html => html) 1 Examples.two_renderings = None.
Proof. reflexivity. Qed.

Lemma extractText_total_and_empty_without_text_witness :
  has_text Examples.attachment_only = false /\
  (forall p depth,
      height p <= depth ->
      extractText_depth (fun data => data) (fun html => html) depth p
      = Some (extractText (fun data => data) (fun html => html) p)) /\
  extractText_depth (fun data => data) (fun html => html)
                    (height Examples.attachment_only) Examples.attachment_only
  = Some EmptyString /\
  extractText (fun data => data) (fun html => html) Examples.attachment_only = EmptyString.
Proof.
  assert (Hnone : has_text Examples.attachment_only = false) by reflexivity.
  split; [exact Hnone|].
  exact (extractText_total_and_empty_without_text
           (fun data => data) (fun html => html) Examples.attachment_only Hnone).
Defined.
End ParserFacts.

(** ** What a run does to the conversation and to the outside *)
Module TranscriptFacts.
Import Eff Agent Observe LoopFacts Transcript.

Section Effects.
Context {World : Type}.
Implicit Types (ag : Agent World) (m : Machine World).

(** The events of a list of tool calls are invocations under registered
    names. *)
Lemma exec_events_issued ag blocks lo hi :
  Forall (issued ag lo hi) (exec_events ag blocks).
Proof.
  apply Forall_forall. intros ev Hin. destruct ev as [req|name input].
  - unfold exec_events in Hin. apply list_elem_of_omap in Hin as (b & _ & Hb).
    by destruct (toolMap ag !! b.1.2).
  - by apply RunFacts.exec_events_registered in Hin.
Qed.

(** The [for] loop of [src/agent.ts], however it ends, leaves the
    conversation alone and only invokes registered executors. *)
Lemma for_content_effect ag content lo hi :
  forall toolResults m r m',
    AgentTs.for_content ag content toolResults m = (r, m') ->
    messages m' = messages m /\
    exists evs, trace m' = trace m ++ evs /\ Forall (issued ag lo hi) evs.
Proof.
  induction content as [|block content IH]; intros acc m r m'; cbn [AgentTs.for_content].
  - intros [= _ <-]. split; [done|]. exists []. by rewrite app_nil_r.
  - destruct (as_tool_use block) as [[[id name] input]|]; [|apply IH].
    unfold bind at 1. destruct (toolMap ag !! name) as [tool|] eqn:Hlook.
    + rewrite (TsFacts.dispatch_known_ts _ _ _ _ tool) by done.
      destruct (Types.execute tool input (world m)) as [[result|err] w]; simpl.
      * intros Hrest. apply IH in Hrest as (Hmsg & evs & Htr & Hevs). simpl in *.
        split; [done|]. exists (EvExec name input :: evs). rewrite Htr.
        split; [by rewrite <- app_assoc|]. constructor; [by simpl; eexists|done].
      * intros [= _ <-]. split; [done|]. exists [EvExec name input]. split; [done|].
        constructor; [by simpl; eexists|constructor].
    + rewrite TsFacts.dispatch_unknown_ts by done. apply IH.
Qed.

(** What a round of either revision does, however it ends: it appends
    turns to the conversation, issues one provider request on the
    conversation as it stands, and then only invokes registered
    executors. *)
Lemma guarded_round_effect ag m :
  exists ms evs,
    messages (AgentGuarded.round ag m).2 = messages m ++ ms /\
    trace (AgentGuarded.round ag m).2 = trace m ++ EvChat (request ag (messages m)) :: evs /\
    forall lo hi, Forall (issued ag lo hi) evs.
Proof.
  destruct (provider_reply ag m) as [[response|e] w] eqn:Hchat.
  - destruct (decide (toolUseBlocks (Anthropic.msg_content response) = [])) as [Hn|Hs].
    + rewrite (GuardedFacts.round_returns _ _ _ _ Hchat Hn). simpl. by eexists _, [].
    + pose proof (GuardedFacts.round_dispatch_cases _ _ _ _ Hchat Hs) as H.
      destruct (AgentGuarded.round ag m) as [[[result|]|e|] m']; try done; simpl.
      * destruct H as (rs & Hmsg & Htr & _). rewrite Hmsg, Htr.
        eexists _, _. repeat split. intros lo hi. apply exec_events_issued.
      * destruct H as (Hmsg & [k Htr] & _). rewrite Hmsg, Htr.
        eexists _, _. repeat split. intros lo hi. apply exec_events_issued.
  - rewrite (GuardedFacts.round_rejected _ _ _ _ Hchat). simpl.
    exists [], []. by rewrite app_nil_r.
Qed.

Lemma ts_round_effect ag m :
  exists ms evs,
    messages (AgentTs.round ag m).2 = messages m ++ ms /\
    trace (AgentTs.round ag m).2 = trace m ++ EvChat (request ag (messages m)) :: evs /\
    forall lo hi, Forall (issued ag lo hi) evs.
Proof.
  destruct (provider_reply ag m) as [[response|e] w] eqn:Hchat.
  - destruct (decide (Anthropic.stop_reason response = Some Anthropic.tool_use)) as [Hs|Hn].
    + destruct (AgentTs.round ag m) as [r0 m0] eqn:Hround. simpl.
      unfold AgentTs.round, bind at 1 in Hround.
      rewrite (await_chat_resolved _ _ _ _ Hchat) in Hround.
      unfold bind at 1, push at 1 in Hround. cbn iota beta in Hround.
      rewrite decide_False in Hround by (intros H; by apply H).
      unfold bind at 1 in Hround.
      match type of Hround with context [AgentTs.for_content ag ?c [] ?m1] =>
        destruct (AgentTs.for_content ag c [] m1) as [r m'] eqn:Hfor;
        pose proof (fun lo hi => for_content_effect ag c lo hi [] m1 r m' Hfor) as Heff end.
      destruct (Heff [] []) as (Hmsg & evs & Htr & _).
      assert (Hall : forall lo hi, Forall (issued ag lo hi) evs).
      { intros lo hi. destruct (Heff lo hi) as (_ & evs' & Htr' & Hevs').
        rewrite Htr in Htr'. by apply app_inv_head in Htr' as ->. }
      clear Heff Hfor. simpl in Hmsg, Htr.
      destruct r as [rs|e|]; unfold bind, push, ret in Hround; simpl in Hround;
        injection Hround as <- <-; simpl; rewrite ?Hmsg, Htr, <- !app_assoc.
      * by exists [assistant_turn (Anthropic.msg_content response); tool_result_turn rs], evs.
      * by exists [assistant_turn (Anthropic.msg_content response)], evs.
      * by exists [assistant_turn (Anthropic.msg_content response)], evs.
    + rewrite (TsFacts.round_returns_ts _ _ _ _ Hchat Hn). simpl. by eexists _, [].
  - rewrite (TsFacts.round_rejected_ts _ _ _ _ Hchat). simpl.
    exists [], []. by rewrite app_nil_r.
Qed.

(** [issued] is kept when the bounds are relaxed. *)
Lemma issued_weaken ag lo hi lo' hi' ev :
  lo' `prefix_of` lo -> hi `prefix_of` hi' -> issued ag lo hi ev -> issued ag lo' hi' ev.
Proof.
  intros Hlo Hhi. destruct ev as [req|name input]; simpl; [|done].
  intros (Hreq & H1 & H2). repeat split; [done| |]; by etrans.
Qed.

(** The loop over rounds that have the effect above. *)
Lemma while_true_effect ag (body : M World (option string)) :
  (forall m, exists ms evs,
      messages (body m).2 = messages m ++ ms /\
      trace (body m).2 = trace m ++ EvChat (request ag (messages m)) :: evs /\
      forall lo hi, Forall (issued ag lo hi) evs) ->
  forall fuel m, exists ms evs,
    messages (while_true body fuel m).2 = messages m ++ ms /\
    trace (while_true body fuel m).2 = trace m ++ evs /\
    Forall (issued ag (messages m) (messages m ++ ms)) evs.
Proof.
  intros Hbody. induction fuel as [|fuel IH]; intros m.
  - exists [], []. simpl. by rewrite !app_nil_r.
  - destruct (Hbody m) as (ms1 & evs1 & Hmsg1 & Htr1 & Hevs1).
    assert (Hfirst : forall hi, messages m `prefix_of` hi ->
              Forall (issued ag (messages m) hi)
                     (EvChat (request ag (messages m)) :: evs1)).
    { intros hi Hhi. constructor; [|done]. simpl. by repeat split. }
    simpl. unfold bind. destruct (body m) as [[[result|]|e|] m1] eqn:Hb; simpl in *.
    + exists ms1, (EvChat (request ag (messages m)) :: evs1). repeat split; try done.
      apply Hfirst. by apply prefix_app_r.
    + destruct (IH m1) as (ms2 & evs2 & Hmsg2 & Htr2 & Hevs2).
      exists (ms1 ++ ms2), (EvChat (request ag (messages m)) :: evs1 ++ evs2).
      rewrite Hmsg2, Htr2, Hmsg1, Htr1, <- !app_assoc. repeat split.
      rewrite app_comm_cons. apply Forall_app. split.
      * apply Hfirst. by apply prefix_app_r.
      * eapply Forall_impl; [exact Hevs2|]. intros ev. rewrite Hmsg1, <- app_assoc.
        apply issued_weaken; [by apply prefix_app_r|done].
    + exists ms1, (EvChat (request ag (messages m)) :: evs1). repeat split; try done.
      apply Hfirst. by apply prefix_app_r.
    + exists ms1, (EvChat (request ag (messages m)) :: evs1). repeat split; try done.
      apply Hfirst. by apply prefix_app_r.
Qed.

(** [run] is the loop entered after the push of the user turn. *)
Lemma guarded_run_unfold ag fuel userMessage m :
  AgentGuarded.run ag fuel userMessage m =
  while_true (AgentGuarded.round ag) fuel
             {| messages := messages m ++ [user_turn userMessage];
                world := world m; trace := trace m |}.
Proof. reflexivity. Qed.

Lemma ts_run_unfold ag fuel userMessage m :
  AgentTs.run ag fuel userMessage m =
  while_true (AgentTs.round ag) fuel
             {| messages := messages m ++ [user_turn userMessage];
                world := world m; trace := trace m |}.
Proof. reflexivity. Qed.

(** The conversation after [run], of either revision, is the earlier one,
    the new user turn, and more turns. *)
Lemma run_appends_messages ag fuel userMessage m :
  (exists ms, messages (AgentGuarded.run ag fuel userMessage m).2
              = messages m ++ user_turn userMessage :: ms) /\
  (exists ms, messages (AgentTs.run ag fuel userMessage m).2
              = messages m ++ user_turn userMessage :: ms).
Proof.
  split.
  - rewrite guarded_run_unfold.
    match goal with |- context [while_true _ fuel ?m1] =>
      destruct (while_true_effect ag _ (guarded_round_effect ag) fuel m1)
        as (ms & _ & Hmsg & _) end.
    cbn [messages] in Hmsg. exists ms. by rewrite Hmsg, <- app_assoc.
  - rewrite ts_run_unfold.
    match goal with |- context [while_true _ fuel ?m1] =>
      destruct (while_true_effect ag _ (ts_round_effect ag) fuel m1)
        as (ms & _ & Hmsg & _) end.
    cbn [messages] in Hmsg. exists ms. by rewrite Hmsg, <- app_assoc.
Qed.

(** X1: however [run] of either revision ends, the conversation and the
    trace only grow. Every provider request issued on the way is built from
    the agent's model, token budget, system prompt and advertised tools,
    carries the whole earlier conversation with the new user turn, and
    carries a prefix of the final conversation; every executor invoked is
    registered under the name it was asked by. *)
Theorem run_only_appends ag fuel userMessage m :
  let grows (m' : Machine World) :=
    exists ms evs,
      messages m' = messages m ++ user_turn userMessage :: ms /\
      trace m' = trace m ++ evs /\
      Forall (issued ag (messages m ++ [user_turn userMessage]) (messages m')) evs in
  grows (AgentGuarded.run ag fuel userMessage m).2 /\
  grows (AgentTs.run ag fuel userMessage m).2.
Proof.
  cbv zeta. split.
  - rewrite guarded_run_unfold.
    match goal with |- context [while_true _ fuel ?m1] =>
      destruct (while_true_effect ag _ (guarded_round_effect ag) fuel m1)
        as (ms & evs & Hmsg & Htr & Hevs) end.
    cbn [messages trace] in Hmsg, Htr, Hevs. exists ms, evs.
    rewrite Hmsg, Htr, <- app_assoc. cbn [app]. rewrite <- app_assoc in Hevs. by repeat split.
  - rewrite ts_run_unfold.
    match goal with |- context [while_true _ fuel ?m1] =>
      destruct (while_true_effect ag _ (ts_round_effect ag) fuel m1)
        as (ms & evs & Hmsg & Htr & Hevs) end.
    cbn [messages trace] in Hmsg, Htr, Hevs. exists ms, evs.
    rewrite Hmsg, Htr, <- app_assoc. cbn [app]. rewrite <- app_assoc in Hevs. by repeat split.
Qed.

(** Under [executors_resolve] the two dispatch loops do the same. *)
Lemma for_content_for_blocks ag content :
  executors_resolve ag ->
  forall toolResults m,
    AgentTs.for_content ag content toolResults m =
    AgentGuarded.for_blocks ag (toolUseBlocks content) toolResults m.
Proof.
  intros Hres. induction content as [|block content IH]; intros acc m; [done|].
  cbn [AgentTs.for_content]. unfold toolUseBlocks. cbn [omap list_omap].
  fold (toolUseBlocks content).
  destruct (as_tool_use block) as [[[id name] input]|]; [|apply IH].
  cbn [AgentGuarded.for_blocks]. unfold bind.
  destruct (toolMap ag !! name) as [tool|] eqn:Hlook.
  - rewrite (TsFacts.dispatch_known_ts _ _ _ _ tool) by done.
    rewrite (GuardedFacts.dispatch_known _ _ _ _ tool) by done.
    destruct (Hres name tool input (world m) Hlook) as [s Hs]. rewrite Hs. apply IH.
  - rewrite TsFacts.dispatch_unknown_ts, GuardedFacts.dispatch_unknown by done. apply IH.
Qed.

Lemma while_true_ext (body1 body2 : M World (option string)) :
  (forall m, body1 m = body2 m) ->
  forall fuel m, while_true body1 fuel m = while_true body2 fuel m.
Proof.
  intros Hext. induction fuel as [|fuel IH]; intros m; [done|].
  simpl. unfold bind. rewrite Hext. destruct (body2 m) as [[[r|]|e|] m1]; by try apply IH.
Qed.

(** X2: when every registered executor resolves and the provider gives
    the stop reason [tool_use] exactly to the responses that hold a tool
    call, [run] of [src/agent.ts] and [run] of the revision with the
    dispatch boundary return the same result and leave the same
    conversation, world and trace. *)
Theorem revisions_agree ag
    (Hexec : executors_resolve ag) (Hstop : stop_reason_tells ag)
    fuel userMessage m :
  AgentTs.run ag fuel userMessage m = AgentGuarded.run ag fuel userMessage m.
Proof.
  rewrite ts_run_unfold, guarded_run_unfold.
  apply while_true_ext. clear m. intros m.
  destruct (provider_reply ag m) as [[response|e] w] eqn:Hchat.
  - specialize (Hstop _ _ _ _ Hchat).
    destruct (decide (toolUseBlocks (Anthropic.msg_content response) = [])) as [Hn|Hs].
    + rewrite (GuardedFacts.round_returns _ _ _ _ Hchat Hn).
      apply TsFacts.round_returns_ts; [done|]. intros Htool. by apply Hstop in Htool.
    + unfold AgentTs.round, AgentGuarded.round, bind at 1 5.
      rewrite (await_chat_resolved _ _ _ _ Hchat).
      unfold bind at 1 4, push at 1 3. cbn iota beta.
      rewrite decide_False by (intros H; apply H; by apply Hstop).
      rewrite decide_False by (intros H; by apply length_zero_iff_nil in H).
      unfold bind at 1 3. by rewrite for_content_for_blocks.
  - by rewrite (GuardedFacts.round_rejected _ _ _ _ Hchat),
               (TsFacts.round_rejected_ts _ _ _ _ Hchat).
Qed.

(** What the loops give for a call whose executor resolves in the world
    it is invoked in. *)
Lemma for_blocks_success ag blocks :
  forall toolResults m rs' m',
    AgentGuarded.for_blocks ag blocks toolResults m = (Normal rs', m') ->
    exists rs,
      rs' = toolResults ++ rs /\
      forall i id name input tool result,
        blocks !! i = Some (id, name, input) ->
        toolMap ag !! name = Some tool ->
        (Types.execute tool input (world_at ag blocks (world m) i)).1 = Resolved result ->
        rs !! i = Some (success_result id result).
Proof.
  induction blocks as [|[[id0 name0] input0] blocks IH]; intros acc m rs' m';
    cbn [AgentGuarded.for_blocks].
  - intros [= <- _]. exists []. by rewrite app_nil_r.
  - unfold bind at 1. destruct (toolMap ag !! name0) as [tool0|] eqn:Hlook0.
    + rewrite (GuardedFacts.dispatch_known _ _ _ _ tool0) by done.
      destruct (Types.execute tool0 input0 (world m)) as [[res|[err|n]] w1] eqn:Hexec;
        cbn [fst snd]; [| |discriminate].
      * intros Hrest. apply IH in Hrest as (rs & -> & Hrs). cbn [world] in Hrs.
        exists (success_result id0 res :: rs). rewrite <- app_assoc. split; [done|].
        intros [|i] id name input tool result Hi Htool Hok; cbn in Hi.
        -- injection Hi as -> -> ->. cbn [world_at] in Hok.
           rewrite Hlook0 in Htool. injection Htool as <-.
           rewrite Hexec in Hok. by injection Hok as <-.
        -- cbn [world_at] in Hok. rewrite Hlook0, Hexec in Hok. by apply (Hrs i _ name input tool).
      * intros Hrest. apply IH in Hrest as (rs & -> & Hrs). cbn [world] in Hrs.
        exists (failure_result id0 name0 (message err) :: rs). rewrite <- app_assoc.
        split; [done|].
        intros [|i] id name input tool result Hi Htool Hok; cbn in Hi.
        -- injection Hi as -> -> ->. cbn [world_at] in Hok.
           rewrite Hlook0 in Htool. injection Htool as <-.
           by rewrite Hexec in Hok.
        -- cbn [world_at] in Hok. rewrite Hlook0, Hexec in Hok. by apply (Hrs i _ name input tool).
    + rewrite GuardedFacts.dispatch_unknown by done.
      intros Hrest. apply IH in Hrest as (rs & -> & Hrs).
      exists (unknown_tool_result id0 name0 :: rs). rewrite <- app_assoc. split; [done|].
      intros [|i] id name input tool result Hi Htool Hok; cbn in Hi.
      * injection Hi as -> -> ->. congruence.
      * cbn [world_at] in Hok. rewrite Hlook0 in Hok. by apply (Hrs i _ name input tool).
Qed.

Lemma for_content_success ag content :
  forall toolResults m rs' m',
    AgentTs.for_content ag content toolResults m = (Normal rs', m') ->
    exists rs,
      rs' = toolResults ++ rs /\
      forall i id name input tool result,
        toolUseBlocks content !! i = Some (id, name, input) ->
        toolMap ag !! name = Some tool ->
        (Types.execute tool input (world_at ag (toolUseBlocks content) (world m) i)).1
          = Resolved result ->
        rs !! i = Some (success_result id result).
Proof.
  induction content as [|block content IH]; intros acc m rs' m';
    cbn [AgentTs.for_content].
  - intros [= <- _]. exists []. by rewrite app_nil_r.
  - unfold toolUseBlocks. cbn [omap list_omap]. fold (toolUseBlocks content).
    destruct (as_tool_use block) as [[[id0 name0] input0]|]; [|apply IH].
    unfold bind at 1. destruct (toolMap ag !! name0) as [tool0|] eqn:Hlook0.
    + rewrite (TsFacts.dispatch_known_ts _ _ _ _ tool0) by done.
      destruct (Types.execute tool0 input0 (world m)) as [[res|err] w1] eqn:Hexec;
        cbn [fst snd]; [|discriminate].
      intros Hrest. apply IH in Hrest as (rs & -> & Hrs). cbn [world] in Hrs.
      exists (success_result id0 res :: rs). rewrite <- app_assoc. split; [done|].
      intros [|i] id name input tool result Hi Htool Hok; cbn in Hi.
      * injection Hi as -> -> ->. cbn [world_at] in Hok.
        rewrite Hlook0 in Htool. injection Htool as <-.
        rewrite Hexec in Hok. by injection Hok as <-.
      * cbn [world_at] in Hok. rewrite Hlook0, Hexec in Hok. by apply (Hrs i _ name input tool).
    + rewrite TsFacts.dispatch_unknown_ts by done.
      intros Hrest. apply IH in Hrest as (rs & -> & Hrs).
      exists (unknown_tool_result id0 name0 :: rs). rewrite <- app_assoc. split; [done|].
      intros [|i] id name input tool result Hi Htool Hok; cbn in Hi.
      * injection Hi as -> -> ->. congruence.
      * cbn [world_at] in Hok. rewrite Hlook0 in Hok. by apply (Hrs i _ name input tool).
Qed.

(** X3: in a round of either revision that dispatches, when the executor
    of a registered tool resolves with a text in the world it is invoked
    in, the one the provider call and the executors of the earlier calls
    have left, the entry for that call carries the call identifier and
    that text unchanged, and has no [is_error] field. *)
Theorem success_is_reported_verbatim ag m response w i id name input tool result
    (Hchat : provider_reply ag m = (Resolved response, w))
    (Hcall : toolUseBlocks (Anthropic.msg_content response) !! i = Some (id, name, input))
    (Hlook : toolMap ag !! name = Some tool)
    (Hok : (Types.execute tool input
              (world_at ag (toolUseBlocks (Anthropic.msg_content response)) w i)).1
           = Resolved result) :
  forall m',
    AgentGuarded.round ag m = (Normal None, m') \/ AgentTs.round ag m = (Normal None, m') ->
    exists rs,
      messages m' = messages m ++ [assistant_turn (Anthropic.msg_content response);
                                   tool_result_turn rs] /\
      rs !! i = Some {| Anthropic.tool_use_id := id;
                        Anthropic.content := result;
                        Anthropic.is_error := None |}.
Proof.
  intros m' [Hround|Hround].
  - unfold AgentGuarded.round, bind at 1 in Hround.
    rewrite (await_chat_resolved _ _ _ _ Hchat) in Hround.
    unfold bind at 1, push at 1 in Hround. cbn iota beta in Hround.
    destruct (decide (length (toolUseBlocks (Anthropic.msg_content response)) = 0));
      [discriminate|].
    unfold bind at 1 in Hround.
    match type of Hround with context [AgentGuarded.for_blocks ag ?bs [] ?m1] =>
      pose proof (GuardedFacts.for_blocks_spec ag bs [] m1) as Hspec;
      destruct (AgentGuarded.for_blocks ag bs [] m1) as [[rs'|e|] m2] eqn:Hfor end;
      [|discriminate|discriminate].
    destruct Hspec as (rs0 & _ & Hmsg & _).
    apply for_blocks_success in Hfor as (rs & -> & Hrs).
    unfold bind, push, ret in Hround. injection Hround as <-.
    exists rs. cbn [messages]. rewrite Hmsg. cbn [messages called]. split.
    + by rewrite <- app_assoc.
    + by apply (Hrs i id name input tool result).
  - unfold AgentTs.round, bind at 1 in Hround.
    rewrite (await_chat_resolved _ _ _ _ Hchat) in Hround.
    unfold bind at 1, push at 1 in Hround. cbn iota beta in Hround.
    destruct (decide (Anthropic.stop_reason response ≠ Some Anthropic.tool_use));
      [discriminate|].
    unfold bind at 1 in Hround.
    match type of Hround with context [AgentTs.for_content ag ?c [] ?m1] =>
      pose proof (TsFacts.for_content_spec ag c [] m1) as Hspec;
      destruct (AgentTs.for_content ag c [] m1) as [[rs'|e|] m2] eqn:Hfor end;
      [|discriminate|discriminate].
    destruct Hspec as (rs0 & _ & Hmsg & _).
    apply for_content_success in Hfor as (rs & -> & Hrs).
    unfold bind, push, ret in Hround. injection Hround as <-.
    exists rs. cbn [messages]. rewrite Hmsg. cbn [messages called]. split.
    + by rewrite <- app_assoc.
    + by apply (Hrs i id name input tool result).
Qed.

(** The roles of a conversation put together from two. *)
Lemma alternates_app r (l1 l2 : list Anthropic.MessageParam) :
  alternates r (l1 ++ l2) = alternates r l1 && alternates (role_after r (length l1)) l2.
Proof.
  revert r. induction l1 as [|msg l1 IH]; intros r; [done|].
  simpl. rewrite IH, andb_assoc. do 2 f_equal.
  unfold role_after. cbn [length]. rewrite Nat.even_succ, <- Nat.negb_even.
  by destruct (Nat.even (length l1)), r.
Qed.

(** The turns a round of either revision that ends normally has
    appended. *)
Lemma round_normal_shape ag m r m' :
  AgentGuarded.round ag m = (Normal r, m') \/ AgentTs.round ag m = (Normal r, m') ->
  exists content,
    match r with
    | Some _ => messages m' = messages m ++ [assistant_turn content]
    | None => exists rs, messages m' = messages m ++ [assistant_turn content; tool_result_turn rs]
    end.
Proof.
  intros Hround. destruct r as [result|].
  - destruct (RunFacts.round_returned _ _ _ _ Hround) as (response & w & _ & Hmsg & _).
    by eexists.
  - destruct (provider_reply ag m) as [[response|e] w] eqn:Hchat.
    + destruct (RunFacts.round_falls_through _ _ _ _ _ Hchat Hround) as (rs & Hmsg & _).
      by eexists _, _.
    + rewrite (GuardedFacts.round_rejected _ _ _ _ Hchat),
              (TsFacts.round_rejected_ts _ _ _ _ Hchat) in Hround.
      by destruct Hround.
Qed.

Lemma while_true_alternates ag (body : M World (option string)) :
  (forall m r m', body m = (Normal r, m') ->
                  AgentGuarded.round ag m = (Normal r, m') \/
                  AgentTs.round ag m = (Normal r, m')) ->
  forall fuel m result m',
    alternates Anthropic.user (messages m) = true ->
    Nat.odd (length (messages m)) = true ->
    while_true body fuel m = (Normal result, m') ->
    alternates Anthropic.user (messages m') = true /\
    Nat.even (length (messages m')) = true.
Proof.
  intros Hbody. induction fuel as [|fuel IH]; intros m result m' Halt Hodd; [done|].
  simpl. unfold bind. destruct (body m) as [[[r|]|e|] m1] eqn:Hb; try done.
  - unfold ret. intros [= <- <-].
    destruct (round_normal_shape _ _ _ _ (Hbody _ _ _ Hb)) as [content ->].
    rewrite alternates_app, Halt, length_app, Nat.add_1_r, Nat.even_succ. split; [|done].
    unfold role_after. rewrite <- Nat.negb_odd, Hodd. done.
  - destruct (round_normal_shape _ _ _ _ (Hbody _ _ _ Hb)) as (content & rs & Hmsg).
    apply IH.
    + rewrite Hmsg, alternates_app, Halt. unfold role_after.
      rewrite <- Nat.negb_odd, Hodd. done.
    + rewrite Hmsg, length_app. simpl. rewrite Nat.add_comm. simpl.
      by rewrite Nat.odd_succ, Nat.even_succ.
Qed.

(** X4: on a conversation whose roles alternate from the user and which
    is empty or ends with an assistant turn, a [run] of either revision
    that returns leaves a conversation of the same kind. *)
Theorem run_keeps_roles_alternating ag fuel userMessage m result m'
    (Halt : alternates Anthropic.user (messages m) = true)
    (Heven : Nat.even (length (messages m)) = true)
    (Hrun : AgentGuarded.run ag fuel userMessage m = (Normal result, m') \/
            AgentTs.run ag fuel userMessage m = (Normal result, m')) :
  alternates Anthropic.user (messages m') = true /\
  Nat.even (length (messages m')) = true.
Proof.
  assert (Halt1 : alternates Anthropic.user (messages m ++ [user_turn userMessage]) = true).
  { rewrite alternates_app, Halt. unfold role_after. by rewrite Heven. }
  assert (Hodd1 : Nat.odd (length (messages m ++ [user_turn userMessage])) = true).
  { by rewrite length_app, Nat.add_1_r, Nat.odd_succ. }
  destruct Hrun as [Hrun|Hrun];
    rewrite ?guarded_run_unfold, ?ts_run_unfold in Hrun;
    eapply (while_true_alternates ag); try exact Hrun; try done; intros; eauto.
Qed.

(** X5: when the first provider call of a [run] rejects, the user turn
    stays in the conversation, and a further [run] of either revision adds
    its own user turn right after it: from then on the roles of the
    conversation no longer alternate, whatever that run does. *)
Theorem retry_after_provider_failure ag m e w fuel userMessage
    (Halt : alternates Anthropic.user (messages m) = true)
    (Heven : Nat.even (length (messages m)) = true)
    (Hchat : provider_reply ag {| messages := messages m ++ [user_turn userMessage];
                                  world := world m; trace := trace m |}
             = (Rejected e, w)) :
  forall failed,
    failed = (AgentGuarded.run ag (S fuel) userMessage m).2 \/
    failed = (AgentTs.run ag (S fuel) userMessage m).2 ->
    messages failed = messages m ++ [user_turn userMessage] /\
    forall fuel' again,
      (exists ms, messages (AgentGuarded.run ag fuel' again failed).2 =
                  messages m ++ user_turn userMessage :: user_turn again :: ms) /\
      (exists ms, messages (AgentTs.run ag fuel' again failed).2 =
                  messages m ++ user_turn userMessage :: user_turn again :: ms) /\
      alternates Anthropic.user (messages (AgentGuarded.run ag fuel' again failed).2) = false /\
      alternates Anthropic.user (messages (AgentTs.run ag fuel' again failed).2) = false.
Proof.
  intros failed Hfailed.
  assert (Hmsg : messages failed = messages m ++ [user_turn userMessage]).
  { destruct Hfailed as [-> | ->]; rewrite ?guarded_run_unfold, ?ts_run_unfold.
    - by rewrite (while_true_throw _ _ _ _ _ (GuardedFacts.round_rejected _ _ _ _ Hchat)).
    - by rewrite (while_true_throw _ _ _ _ _ (TsFacts.round_rejected_ts _ _ _ _ Hchat)). }
  split; [done|]. intros fuel' again.
  destruct (run_appends_messages ag fuel' again failed) as [(ms1 & Hm1) (ms2 & Hm2)].
  rewrite Hmsg, <- app_assoc in Hm1, Hm2. simpl in Hm1, Hm2.
  assert (Hbreak : forall ms,
            alternates Anthropic.user
              (messages m ++ user_turn userMessage :: user_turn again :: ms) = false).
  { intros ms. rewrite alternates_app. unfold role_after. rewrite Heven. simpl.
    by rewrite andb_false_r. }
  repeat split; [by eexists|by eexists| |]; [rewrite Hm1|rewrite Hm2]; apply Hbreak.
Qed.
End Effects.

Lemma revisions_agree_witness :
  executors_resolve Examples.agent_noop /\
  stop_reason_tells Examples.agent_noop /\
  AgentTs.run Examples.agent_noop 3 "hi" Examples.m0
  = AgentGuarded.run Examples.agent_noop 3 "hi" Examples.m0.
Proof.
  assert (Hexec : executors_resolve Examples.agent_noop).
  { intros name tool input w Hlook. exists "done".
    unfold Examples.agent_noop, Examples.agent_of, assign, new_Map in Hlook. simpl in Hlook.
    apply lookup_insert_Some in Hlook as [[_ <-]|[_ Hempty]]; [done|].
    by rewrite lookup_empty in Hempty. }
  assert (Hstop : stop_reason_tells Examples.agent_noop).
  { intros req w response w' Hcreate. simpl in Hcreate.
    destruct (last (Anthropic.messages req)) as [[role [text|blocks|rs]]|];
      injection Hcreate as <- _; simpl; split; intros H; done. }
  split; [exact Hexec|]. split; [exact Hstop|].
  exact (revisions_agree Examples.agent_noop Hexec Hstop 3 "hi" Examples.m0).
Defined.

Lemma success_is_reported_verbatim_witness :
  let ag := Examples.agent_ticking in
  let m := Examples.greeted_at 0 in
  let response := Examples.asks_two "tick" "tick" in
  let m' := (AgentTs.round ag m).2 in
  provider_reply ag m = (Resolved response, 0) /\
  toolUseBlocks (Anthropic.msg_content response) !! 1%nat = Some ("b", "tick", ∅) /\
  toolMap ag !! "tick" = Some Examples.tick /\
  world_at ag (toolUseBlocks (Anthropic.msg_content response)) 0 1 = 1 /\
  (Types.execute Examples.tick ∅ 0).1 = Resolved "first" /\
  (Types.execute Examples.tick ∅ 1).1 = Resolved "later" /\
  AgentTs.round ag m = (Normal None, m') /\
  exists rs,
    messages m' = messages m ++ [assistant_turn (Anthropic.msg_content response);
                                 tool_result_turn rs] /\
    rs !! 1%nat = Some {| Anthropic.tool_use_id := "b";
                          Anthropic.content := "later";
                          Anthropic.is_error := None |}.
Proof.
  cbv zeta.
  assert (Hchat : provider_reply Examples.agent_ticking (Examples.greeted_at 0)
                  = (Resolved (Examples.asks_two "tick" "tick"), 0))
    by (vm_compute; reflexivity).
  assert (Hcall : toolUseBlocks (Anthropic.msg_content (Examples.asks_two "tick" "tick")) !! 1%nat
                  = Some ("b", "tick", (∅ : JsObject)))
    by reflexivity.
  assert (Hlook : toolMap Examples.agent_ticking !! "tick" = Some Examples.tick)
    by (vm_compute; reflexivity).
  assert (Hworld : world_at Examples.agent_ticking
                     (toolUseBlocks (Anthropic.msg_content (Examples.asks_two "tick" "tick")))
                     0 1 = 1)
    by (vm_compute; reflexivity).
  assert (Hok : (Types.execute Examples.tick ∅
                   (world_at Examples.agent_ticking
                      (toolUseBlocks (Anthropic.msg_content (Examples.asks_two "tick" "tick")))
                      0 1)).1 = Resolved "later")
    by (rewrite Hworld; reflexivity).
  assert (Hround : AgentTs.round Examples.agent_ticking (Examples.greeted_at 0)
                   = (Normal None,
                      (AgentTs.round Examples.agent_ticking (Examples.greeted_at 0)).2))
    by (vm_compute; reflexivity).
  split; [exact Hchat|]. split; [exact Hcall|]. split; [exact Hlook|].
  split; [exact Hworld|]. split; [reflexivity|]. split; [reflexivity|].
  split; [exact Hround|].
  exact (success_is_reported_verbatim _ _ _ _ _ _ _ _ _ _ Hchat Hcall Hlook Hok
                                      _ (or_intror Hround)).
Defined.

Lemma run_keeps_roles_alternating_witness :
  let m' := (AgentGuarded.run Examples.agent_noop 3 "hi" Examples.m0).2 in
  alternates Anthropic.user (messages Examples.m0) = true /\
  Nat.even (length (messages Examples.m0)) = true /\
  AgentGuarded.run Examples.agent_noop 3 "hi" Examples.m0 = (Normal "All done.", m') /\
  length (messages m') = 4 /\
  alternates Anthropic.user (messages m') = true /\
  Nat.even (length (messages m')) = true.
Proof.
  cbv zeta.
  assert (Hrun : AgentGuarded.run Examples.agent_noop 3 "hi" Examples.m0
                 = (Normal "All done.",
                    (AgentGuarded.run Examples.agent_noop 3 "hi" Examples.m0).2))
    by (vm_compute; reflexivity).
  split; [reflexivity|]. split; [reflexivity|]. split; [exact Hrun|].
  split; [vm_compute; reflexivity|].
  exact (run_keeps_roles_alternating Examples.agent_noop 3 "hi" Examples.m0 _ _
           eq_refl eq_refl (or_introl Hrun)).
Defined.

Lemma retry_after_provider_failure_witness :
  let ag := Examples.agent_of Examples.broken_client [Examples.noop] in
  let failed := (AgentTs.run ag 1 "hi" Examples.m0).2 in
  provider_reply ag Examples.greeted = (Rejected {| message := "connection refused" |}, tt) /\
  messages failed = [user_turn "hi"] /\
  forall fuel' again,
    (exists ms, messages (AgentGuarded.run ag fuel' again failed).2 =
                [] ++ user_turn "hi" :: user_turn again :: ms) /\
    (exists ms, messages (AgentTs.run ag fuel' again failed).2 =
                [] ++ user_turn "hi" :: user_turn again :: ms) /\
    alternates Anthropic.user (messages (AgentGuarded.run ag fuel' again failed).2) = false /\
    alternates Anthropic.user (messages (AgentTs.run ag fuel' again failed).2) = false.
Proof.
  cbv zeta.
  assert (Hchat : provider_reply (Examples.agent_of Examples.broken_client [Examples.noop])
                    {| messages := messages Examples.m0 ++ [user_turn "hi"];
                       world := world Examples.m0; trace := trace Examples.m0 |}
                  = (Rejected {| message := "connection refused" |}, tt))
    by (vm_compute; reflexivity).
  split; [exact Hchat|].
  exact (retry_after_provider_failure _ Examples.m0 _ _ 0 "hi" eq_refl eq_refl Hchat
           _ (or_intror eq_refl)).
Defined.
End TranscriptFacts.

(** ** The registry of a list of tools with distinct names *)
Module RegistryLookupFacts.
Import Eff Agent.

Lemma filter_none {A} (P : A -> Prop) `{forall x, Decision (P x)} (l : list A) :
  (forall z, z ∈ l -> ~ P z) -> filter P l = [].
Proof.
  induction l as [|y l IH]; intros Hnone; [done|].
  rewrite filter_cons, decide_False by (apply Hnone; by left).
  apply IH. intros z Hz. apply Hnone. by right.
Qed.

Lemma filter_unique {A B} `{EqDecision B} (f : A -> B) (l : list A) (x : A) :
  NoDup (f <$> l) -> x ∈ l -> filter (fun y => f y = f x) l = [x].
Proof.
  induction l as [|y l IH]; intros Hnd Hin; [by apply elem_of_nil in Hin|].
  rewrite fmap_cons in Hnd. apply NoDup_cons in Hnd as [Hnotin Hnd].
  rewrite filter_cons. apply elem_of_cons in Hin as [<-|Hin].
  - rewrite decide_True by done. f_equal.
    apply filter_none. intros z Hz Heq.
    apply Hnotin. rewrite <- Heq. by apply list_elem_of_fmap_2.
  - rewrite decide_False; [by apply IH|].
    intros Heq. apply Hnotin. rewrite Heq. by apply list_elem_of_fmap_2.
Qed.

(** X6: when the names of the configured tools are distinct, the registry
    built by the constructor finds every configured tool under its own
    name, and whatever it finds under a name is a configured tool of that
    name. *)
Theorem registry_finds_every_tool {World} (new_Anthropic : string -> Types.Client World)
    (config : Types.AgentConfig World)
    (Hnames : NoDup (Types.name <$> Types.tools config)) :
  exists ag,
    constructor new_Anthropic config = inr ag /\
    (forall t, t ∈ Types.tools config -> toolMap ag !! Types.name t = Some t) /\
    (forall n t, toolMap ag !! n = Some t -> t ∈ Types.tools config /\ Types.name t = n).
Proof.
  eexists. split; [reflexivity|]. cbn [toolMap assign]. split.
  - intros t Hin. rewrite RegistryFacts.new_Map_lookup.
    by rewrite (filter_unique Types.name _ t Hnames Hin).
  - intros n t Hlook. split; [|by apply RegistryFacts.new_Map_name in Hlook].
    rewrite RegistryFacts.new_Map_lookup in Hlook.
    apply last_Some_elem_of in Hlook. by apply list_elem_of_filter in Hlook as [_ ?].
Qed.

Lemma registry_finds_every_tool_witness :
  NoDup (Types.name <$> Types.tools (Examples.config [Examples.noop; Examples.failing])) /\
  exists ag,
    constructor (fun _ => Examples.broken_client)
                (Examples.config [Examples.noop; Examples.failing]) = inr ag /\
    (forall t, t ∈ Types.tools (Examples.config [Examples.noop; Examples.failing]) ->
               toolMap ag !! Types.name t = Some t) /\
    (forall n t, toolMap ag !! n = Some t ->
                 t ∈ Types.tools (Examples.config [Examples.noop; Examples.failing]) /\
                 Types.name t = n).
Proof.
  assert (Hnames : NoDup (Types.name <$>
                          Types.tools (Examples.config [Examples.noop; Examples.failing]))).
  { apply (bool_decide_unpack _). vm_compute. exact I. }
  split; [exact Hnames|].
  exact (registry_finds_every_tool _ _ Hnames).
Defined.
End RegistryLookupFacts.

(** ** The text [bashTool.execute] resolves with *)
Module BashOutputFacts.
Import Bash.

Lemma trimEnd_cons (c : ascii) (s : string) :
  trimEnd (String c s) =
  match trimEnd s with
  | EmptyString => if isWhiteSpace c then EmptyString else String c EmptyString
  | rest => String c rest
  end.
Proof. reflexivity. Qed.

Lemma trimEnd_idempotent (s : string) : trimEnd (trimEnd s) = trimEnd s.
Proof.
  induction s as [|c s IH]; [done|]. rewrite trimEnd_cons.
  destruct (trimEnd s) as [|c' s'] eqn:Htrim.
  - destruct (isWhiteSpace c) eqn:Hc; [done|]. rewrite trimEnd_cons. simpl. by rewrite Hc.
  - rewrite trimEnd_cons, IH. done.
Qed.

Lemma list_ascii_of_string_append (s t : string) :
  list_ascii_of_string (s +:+ t) = list_ascii_of_string s ++ list_ascii_of_string t.
Proof. induction s as [|c s IH]; simpl; [done|]. by rewrite IH. Qed.

Lemma append_assoc (s t u : string) : (s +:+ t) +:+ u = s +:+ t +:+ u.
Proof.
  induction s as [|c s IH]; [reflexivity|].
  change (String c ((s +:+ t) +:+ u) = String c (s +:+ t +:+ u)). by f_equal.
Qed.

Lemma prefix_append (s t : string) : String.prefix s (s +:+ t) = true.
Proof.
  induction s as [|c s IH]; simpl; [by destruct t|].
  destruct (ascii_dec c c); [exact IH|done].
Qed.

(** X7: when [execFile] reports no error, the text resolved with is
    stdout followed by stderr with a run of white space cut off its end: it
    does not end in white space and trimming it again changes nothing. When
    there is an error, stdout and stderr are kept untrimmed at the head of
    the text, which ends with the closing bracket of the exit-code marker
    and so is never empty. *)
Theorem on_exit_shape (cb : Callback) :
  match error cb with
  | None =>
      (exists ws, stdout cb +:+ stderr cb = on_exit cb +:+ ws /\
                  Forall (fun c => isWhiteSpace c = true) (list_ascii_of_string ws)) /\
      (forall c, last (list_ascii_of_string (on_exit cb)) = Some c -> isWhiteSpace c = false) /\
      trimEnd (on_exit cb) = on_exit cb
  | Some e =>
      String.prefix (stdout cb +:+ stderr cb +:+ newline +:+ "[exit code ") (on_exit cb) = true /\
      last (list_ascii_of_string (on_exit cb)) = Some "]"%char /\
      on_exit cb <> EmptyString
  end.
Proof.
  unfold on_exit. destruct (error cb) as [e|].
  - assert (Hlast : last (list_ascii_of_string
                      (stdout cb +:+ stderr cb +:+ newline +:+ "[exit code " +:+ code_or_1 e +:+ "]"))
                    = Some "]"%char).
    { rewrite !list_ascii_of_string_append, !app_assoc. apply last_snoc. }
    repeat split; [|exact Hlast|].
    + replace (stdout cb +:+ stderr cb +:+ newline +:+ "[exit code " +:+ code_or_1 e +:+ "]")
        with ((stdout cb +:+ stderr cb +:+ newline +:+ "[exit code ") +:+ (code_or_1 e +:+ "]")).
      * apply prefix_append.
      * by rewrite !append_assoc.
    + intros Hempty. by rewrite Hempty in Hlast.
  - destruct (BashFacts.trimEnd_decompose (stdout cb +:+ stderr cb)) as (ws & Heq & Hws & Hl).
    repeat split; [by exists ws|exact Hl|apply trimEnd_idempotent].
Qed.
End BashOutputFacts.

(** ** [getHeader] *)
Module HeaderFacts.
Import Header.

Lemma lower_char_idempotent (c : ascii) : lower_char (lower_char c) = lower_char c.
Proof. destruct c as [[] [] [] [] [] [] [] []]; reflexivity. Qed.

Lemma toLowerCase_idempotent (s : string) : toLowerCase (toLowerCase s) = toLowerCase s.
Proof.
  induction s as [|c s IH]; simpl; [done|]. by rewrite lower_char_idempotent, IH.
Qed.

(** The predicate of [find] only looks at the queried name up to case. *)
Lemma matches_case (queried queried' : string) (h : MessagePartHeader) :
  toLowerCase queried = toLowerCase queried' -> matches queried h = matches queried' h.
Proof. intros Heq. unfold matches. by rewrite Heq. Qed.

Lemma find_first {A} (p : A -> bool) (pre post : list A) (x : A) :
  Forall (fun y => p y = false) pre -> p x = true ->
  List.find p (pre ++ x :: post) = Some x.
Proof.
  induction 1 as [|y pre Hy _ IH]; intros Hx; simpl.
  - by rewrite Hx.
  - rewrite Hy. by apply IH.
Qed.

Lemma find_none {A} (p : A -> bool) (l : list A) :
  Forall (fun y => p y = false) l -> List.find p l = None.
Proof. induction 1 as [|y l Hy _ IH]; simpl; [done|]. by rewrite Hy. Qed.

(** X8: [getHeader] gives the value of the first header whose name is
    the queried one up to the case of letters, whatever headers follow it,
    and the empty string when that header has no value; the headers before
    it alone give the empty string; and the case in which the name is
    queried does not matter. *)
Theorem getHeader_first_match (pre post : list MessagePartHeader) (h : MessagePartHeader)
    (n queried : string)
    (Hpre : Forall (fun h' => matches queried h' = false) pre)
    (Hname : name h = Some n)
    (Hcase : toLowerCase n = toLowerCase queried) :
  getHeader (Some (pre ++ h :: post)) queried
    = match value h with Some v => v | None => EmptyString end /\
  getHeader (Some pre) queried = EmptyString /\
  (forall hs, getHeader hs (toLowerCase queried) = getHeader hs queried).
Proof.
  split; [|split].
  - unfold getHeader. rewrite (find_first _ _ _ _ Hpre); [done|].
    unfold matches. rewrite Hname. by apply bool_decide_eq_true_2.
  - unfold getHeader. by rewrite (find_none _ _ Hpre).
  - intros [hs|]; [|done]. unfold getHeader.
    assert (Hext : forall l : list MessagePartHeader,
              List.find (matches (toLowerCase queried)) l = List.find (matches queried) l).
    { induction l as [|y l IH]; simpl; [done|].
      rewrite (matches_case (toLowerCase queried) queried) by apply toLowerCase_idempotent.
      by rewrite IH. }
    by rewrite Hext.
Qed.

Lemma getHeader_first_match_witness :
  Forall (fun h' => matches "SUBJECT" h' = false) (take 2 Samples.sample_headers) /\
  toLowerCase "Subject" = toLowerCase "SUBJECT" /\
  getHeader (Some Samples.sample_headers) "SUBJECT" = "Hello" /\
  getHeader (Some (take 2 Samples.sample_headers)) "SUBJECT" = EmptyString /\
  (forall hs, getHeader hs (toLowerCase "SUBJECT") = getHeader hs "SUBJECT").
Proof.
  assert (Hpre : Forall (fun h' => matches "SUBJECT" h' = false)
                        (take 2 Samples.sample_headers))
    by (repeat constructor).
  assert (Hcase : toLowerCase "Subject" = toLowerCase "SUBJECT") by reflexivity.
  split; [exact Hpre|]. split; [exact Hcase|].
  exact (getHeader_first_match (take 2 Samples.sample_headers)
           (drop 3 Samples.sample_headers)
           {| name := Some "Subject"; value := Some "Hello" |}
           "Subject" "SUBJECT" Hpre eq_refl Hcase).
Defined.

Example getHeader_without_value :
  getHeader (Some Samples.sample_headers) "date" = EmptyString /\
  getHeader (Some Samples.sample_headers) "To" = EmptyString /\
  getHeader None "From" = EmptyString.
Proof. repeat split. Qed.
End HeaderFacts.

(** ** The [multipart/alternative] branch of [extractText] *)
Module AlternativeFacts.
Import Parser.

Section Alternative.
Variable decodeBody : string -> string.
Variable htmlToText : string -> string.

Lemma first_html_skip (l1 l2 : list MessagePart) :
  first_html decodeBody htmlToText l1 = None ->
  first_html decodeBody htmlToText (l1 ++ l2) = first_html decodeBody htmlToText l2.
Proof.
  induction l1 as [|p l1 IH]; simpl; [done|].
  destruct (if mime_is "text/html" p then body_data p else None); [done|exact IH].
Qed.

Lemma first_html_absent (l : list MessagePart) :
  Forall (fun p => mime_is "text/html" p = false \/ body_data p = None) l ->
  first_html decodeBody htmlToText l = None.
Proof.
  induction 1 as [|p l Hp _ IH]; simpl; [done|].
  destruct Hp as [-> | ->]; [exact IH|]. by destruct (mime_is "text/html" p).
Qed.

Lemma first_plain_skip (l1 l2 : list MessagePart) :
  Forall (fun p => mime_is "text/plain" p = false \/ body_data p = None) l1 ->
  first_plain decodeBody (l1 ++ l2) = first_plain decodeBody l2.
Proof.
  induction 1 as [|p l1 Hp _ IH]; simpl; [done|].
  destruct Hp as [-> | ->]; [exact IH|]. by destruct (mime_is "text/plain" p).
Qed.

Lemma first_nested_no_multipart (l : list (MessagePart * string)) :
  Forall (fun pt => is_multipart pt.1 = false) l -> first_nested l = None.
Proof.
  induction 1 as [|[p t] l Hp _ IH]; simpl; [done|]. simpl in Hp. by rewrite Hp.
Qed.

(** The leading block does not return for a [multipart/alternative]
    payload, whatever its body. *)
Lemma leaf_alternative body ps :
  leaf decodeBody htmlToText (Part (Some "multipart/alternative") body ps) = None.
Proof. unfold leaf. by destruct (body_data _). Qed.

(** X9: for a [multipart/alternative] payload, [extractText] is the
    converted text of the last [text/html] part that carries data,
    whatever the other parts are. *)
Theorem alternative_prefers_last_html body (pre post : list MessagePart)
    (h : MessagePart) (data : string)
    (Hhtml : mime_is "text/html" h = true)
    (Hdata : body_data h = Some data)
    (Hpost : Forall (fun p => mime_is "text/html" p = false \/ body_data p = None) post) :
  extractText decodeBody htmlToText
    (Part (Some "multipart/alternative") body (Some (pre ++ h :: post)))
  = htmlToText (decodeBody data).
Proof.
  cbn [extractText]. rewrite leaf_alternative.
  destruct (pre ++ h :: post) as [|p0 ps0] eqn:Hparts; [by destruct pre|].
  rewrite <- Hparts. clear Hparts.
  replace (mime_is "multipart/alternative" _) with true by reflexivity.
  unfold alternative. rewrite rev_app_distr. simpl. rewrite <- app_assoc.
  rewrite first_html_skip by (apply first_html_absent; by apply Forall_rev).
  simpl. by rewrite Hhtml, Hdata.
Qed.

(** X10: for a [multipart/alternative] payload without a [text/html]
    part carrying data and without a multipart part, [extractText] is the
    decoded data of the first [text/plain] part that carries some. *)
Theorem alternative_falls_back_to_plain body (pre post : list MessagePart)
    (h : MessagePart) (data : string)
    (Hnohtml : Forall (fun p => mime_is "text/html" p = false \/ body_data p = None)
                      (pre ++ h :: post))
    (Hflat : Forall (fun p => is_multipart p = false) (pre ++ h :: post))
    (Hplain : mime_is "text/plain" h = true)
    (Hdata : body_data h = Some data)
    (Hpre : Forall (fun p => mime_is "text/plain" p = false \/ body_data p = None) pre) :
  extractText decodeBody htmlToText
    (Part (Some "multipart/alternative") body (Some (pre ++ h :: post)))
  = decodeBody data.
Proof.
  cbn [extractText]. rewrite leaf_alternative.
  destruct (pre ++ h :: post) as [|p0 ps0] eqn:Hparts; [by destruct pre|].
  rewrite <- Hparts in *. clear Hparts.
  replace (mime_is "multipart/alternative" _) with true by reflexivity.
  unfold alternative.
  rewrite first_html_absent by (by apply Forall_rev).
  rewrite first_nested_no_multipart.
  - rewrite first_plain_skip by done. simpl. by rewrite Hplain, Hdata.
  - apply Forall_rev. clear -Hflat.
    induction Hflat as [|p l Hp _ IH]; simpl; constructor; done.
Qed.
End Alternative.

Lemma alternative_prefers_last_html_witness :
  let plain := Part (Some "text/plain") (Some (Some "plain version")) None in
  let html := Part (Some "text/html") (Some (Some "html version")) None in
  let image := Part (Some "image/png") (Some (Some "iVBORw0KGgo")) None in
  mime_is "text/html" html = true /\
  body_data html = Some "html version" /\
  Forall (fun p => mime_is "text/html" p = false \/ body_data p = None) [image] /\
  extractText (fun data => data) (fun html => "text of " +:+ html)
    (Part (Some "multipart/alternative") None (Some ([plain] ++ html :: [image])))
  = "text of html version".
Proof.
  cbv zeta.
  assert (Hpost : Forall (fun p => mime_is "text/html" p = false \/ body_data p = None)
                         [Part (Some "image/png") (Some (Some "iVBORw0KGgo")) None])
    by (constructor; [by left|constructor]).
  split; [reflexivity|]. split; [reflexivity|]. split; [exact Hpost|].
  exact (alternative_prefers_last_html (fun data => data) (fun html => "text of " +:+ html)
           None [Part (Some "text/plain") (Some (Some "plain version")) None]
           [Part (Some "image/png") (Some (Some "iVBORw0KGgo")) None]
           (Part (Some "text/html") (Some (Some "html version")) None)
           "html version" eq_refl eq_refl Hpost).
Defined.

Lemma alternative_falls_back_to_plain_witness :
  let image := Part (Some "image/png") (Some (Some "iVBORw0KGgo")) None in
  let plain := Part (Some "text/plain") (Some (Some "fallback plain")) None in
  let empty_html := Part (Some "text/html") (Some None) None in
  Forall (fun p => mime_is "text/html" p = false \/ body_data p = None)
         ([image] ++ plain :: [empty_html]) /\
  Forall (fun p => is_multipart p = false) ([image] ++ plain :: [empty_html]) /\
  mime_is "text/plain" plain = true /\
  body_data plain = Some "fallback plain" /\
  Forall (fun p => mime_is "text/plain" p = false \/ body_data p = None) [image] /\
  extractText (fun data => data) (fun html => "text of " +:+ html)
    (Part (Some "multipart/alternative") None (Some ([image] ++ plain :: [empty_html])))
  = "fallback plain".
Proof.
  cbv zeta.
  assert (Hnohtml : Forall (fun p => mime_is "text/html" p = false \/ body_data p = None)
            ([Part (Some "image/png") (Some (Some "iVBORw0KGgo")) None]
             ++ Part (Some "text/plain") (Some (Some "fallback plain")) None
             :: [Part (Some "text/html") (Some None) None]))
    by (repeat constructor; by (left + right)).
  assert (Hflat : Forall (fun p => is_multipart p = false)
            ([Part (Some "image/png") (Some (Some "iVBORw0KGgo")) None]
             ++ Part (Some "text/plain") (Some (Some "fallback plain")) None
             :: [Part (Some "text/html") (Some None) None]))
    by (repeat constructor).
  assert (Hpre : Forall (fun p => mime_is "text/plain" p = false \/ body_data p = None)
                        [Part (Some "image/png") (Some (Some "iVBORw0KGgo")) None])
    by (constructor; [by left|constructor]).
  split; [exact Hnohtml|]. split; [exact Hflat|]. split; [reflexivity|].
  split; [reflexivity|]. split; [exact Hpre|].
  exact (alternative_falls_back_to_plain (fun data => data) (fun html => "text of " +:+ html)
           None [Part (Some "image/png") (Some (Some "iVBORw0KGgo")) None]
           [Part (Some "text/html") (Some None) None]
           (Part (Some "text/plain") (Some (Some "fallback plain")) None)
           "fallback plain" Hnohtml Hflat eq_refl eq_refl Hpre).
Defined.
End AlternativeFacts.

(** ** The clean-up of [htmlToText] *)
Module HtmlFacts.
Import Html.

Lemma lead_repeat_other c d k l : c <> d -> lead d (repeat c (S k) ++ l) = 0.
Proof. intros Hne. simpl. by rewrite (proj2 (Ascii.eqb_neq c d)). Qed.

Lemma lead_repeat c k l : lead c (repeat c k ++ l) = k + lead c l.
Proof. induction k as [|k IH]; simpl; [done|]. by rewrite Ascii.eqb_refl, IH. Qed.

Lemma max_run_cons_other c a l : a <> c -> max_run c (a :: l) = max_run c l.
Proof. intros Hne. simpl. by rewrite (proj2 (Ascii.eqb_neq a c)). Qed.

Lemma max_run_repeat_other c d k l : c <> d -> max_run d (repeat c k ++ l) = max_run d l.
Proof.
  intros Hne. induction k as [|k IH]; [done|].
  cbn [repeat app]. by rewrite max_run_cons_other.
Qed.

Lemma lead_le_max_run c l : lead c l <= max_run c l.
Proof. destruct l; simpl; lia. Qed.

Lemma max_run_repeat c k a l :
  a <> c -> max_run c (repeat c k ++ a :: l) = Nat.max k (max_run c l).
Proof.
  intros Hne. induction k as [|k IH].
  - simpl. by rewrite (proj2 (Ascii.eqb_neq a c)).
  - cbn [repeat app max_run]. rewrite IH.
    change (lead c (c :: repeat c k ++ a :: l)) with (lead c (repeat c (S k) ++ a :: l)).
    rewrite lead_repeat. simpl. rewrite (proj2 (Ascii.eqb_neq a c)) by done. lia.
Qed.

Lemma max_run_repeat_end c k : max_run c (repeat c k) = k.
Proof.
  induction k as [|k IH]; [done|]. cbn [repeat max_run]. rewrite IH.
  change (c :: repeat c k) with (repeat c (S k)).
  rewrite <- (app_nil_r (repeat c (S k))), lead_repeat. simpl. lia.
Qed.

(** A run is found in every list that has it inside. *)
Lemma max_run_app_r c l1 l : max_run c l <= max_run c (l1 ++ l).
Proof. induction l1 as [|a l1 IH]; simpl; [done|]. lia. Qed.

Lemma lead_app_l c l l2 : lead c l <= lead c (l ++ l2).
Proof.
  induction l as [|a l IH]; simpl; [lia|]. destruct (Ascii.eqb a c); lia.
Qed.

Lemma max_run_app_l c l l2 : max_run c l <= max_run c (l ++ l2).
Proof.
  induction l as [|a l IH]; [simpl; lia|].
  cbn [app max_run]. pose proof (lead_app_l c (a :: l) l2) as Hlead.
  cbn [app] in Hlead. lia.
Qed.

Lemma max_run_inside c k l1 l2 : k <= max_run c (l1 ++ repeat c k ++ l2).
Proof.
  etrans; [|apply max_run_app_r]. etrans; [|apply lead_le_max_run].
  rewrite lead_repeat. lia.
Qed.

(** The runs of [c] that [replace_runs c 3 [c; c]] writes are short. *)
Lemma collapse_bounds c run l :
  max_run c (replace_runs c 3 [c; c] run l) <= 2.
Proof.
  revert run. induction l as [|a l IH]; intros run; cbn [replace_runs].
  - unfold flush. destruct (3 <=? run)%nat eqn:Hrun.
    + pose proof (max_run_repeat_end c 2) as H2. cbn [repeat] in H2. by rewrite H2.
    + apply Nat.leb_gt in Hrun. rewrite max_run_repeat_end. lia.
  - destruct (Ascii.eqb a c) eqn:Ha; [apply IH|].
    apply Ascii.eqb_neq in Ha. unfold flush. destruct (3 <=? run)%nat eqn:Hrun.
    + pose proof (max_run_repeat c 2 a (replace_runs c 3 [c; c] 0 l) Ha) as H2.
      cbn [repeat] in H2. rewrite H2. specialize (IH 0). lia.
    + apply Nat.leb_gt in Hrun. rewrite max_run_repeat by done.
      specialize (IH 0). lia.
Qed.

(** After [replace(/\t+/g, "  ")] no tab is left. *)
Lemma replace_tabs_none run l :
  Forall (fun a => a <> TAB) (replace_runs TAB 1 [SP; SP] run l).
Proof.
  assert (Hflush : forall k, Forall (fun a => a <> TAB) (flush TAB 1 [SP; SP] k)).
  { intros [|k]; unfold flush; simpl; repeat constructor; done. }
  revert run. induction l as [|a l IH]; intros run; cbn [replace_runs]; [done|].
  destruct (Ascii.eqb a TAB) eqn:Ha; [done|].
  apply Ascii.eqb_neq in Ha. apply Forall_app. split; [done|]. by constructor.
Qed.

(** [replace_runs c min [c; c]] only writes characters it read, or [c]. *)
Lemma collapse_Forall (P : ascii -> Prop) c min run l :
  P c -> Forall P l -> Forall P (replace_runs c min [c; c] run l).
Proof.
  intros Hc. assert (Hflush : forall k, Forall P (flush c min [c; c] k)).
  { intros k. unfold flush. destruct (min <=? k)%nat; [by repeat constructor|].
    apply Forall_forall. intros x Hx. by apply list_elem_of_In, repeat_spec in Hx as ->. }
  revert run. induction l as [|a l IH]; intros run Hl; cbn [replace_runs]; [done|].
  apply Forall_cons in Hl as [Ha Hl].
  destruct (Ascii.eqb a c); [by apply IH|].
  apply Forall_app. split; [done|]. constructor; [done|by apply IH].
Qed.

(** [replace_runs c 3 [c; c]] leaves the runs of every other character
    as they are: it never writes nothing for a run of [c]. *)
Lemma collapse_other_runs c d run l :
  c <> d ->
  max_run d (replace_runs c 3 [c; c] run l) = max_run d l /\
  lead d (replace_runs c 3 [c; c] run l) = if (run =? 0)%nat then lead d l else 0.
Proof.
  intros Hne.
  assert (Hflush : forall k, exists n, flush c 3 [c; c] k = repeat c n /\ (k = 0 <-> n = 0)).
  { intros k. unfold flush. destruct (3 <=? k)%nat eqn:Hk.
    - apply Nat.leb_le in Hk. exists 2. split; [done|lia].
    - by exists k. }
  revert run. induction l as [|a l IH]; intros run; cbn [replace_runs].
  - destruct (Hflush run) as (n & -> & Hn).
    rewrite <- (app_nil_r (repeat c n)), max_run_repeat_other by done.
    split; [done|]. destruct n; [by destruct (run =? 0)%nat|].
    rewrite lead_repeat_other by done. destruct run; [lia|done].
  - destruct (Ascii.eqb a c) eqn:Ha.
    + apply Ascii.eqb_eq in Ha as ->. destruct (IH (S run)) as [Hmax Hlead].
      rewrite Hmax, Hlead, max_run_cons_other by done. split; [done|].
      simpl. rewrite (proj2 (Ascii.eqb_neq c d)) by done. by destruct (run =? 0)%nat.
    + destruct (IH 0) as [Hmax Hlead]. simpl in Hlead.
      destruct (Hflush run) as (n & -> & Hn).
      rewrite max_run_repeat_other by done. split.
      * cbn [max_run lead]. rewrite Hmax, Hlead. done.
      * destruct n.
        -- assert (run = 0) as -> by lia. cbn [repeat app lead Nat.eqb]. by rewrite Hlead.
        -- rewrite lead_repeat_other by done. destruct run; [lia|done].
Qed.

(** [trimStart] cuts a run of white space off the head. *)
Lemma trimStart_decompose (s : string) :
  exists ws,
    s = ws +:+ trimStart s /\
    (forall c, head (list_ascii_of_string (trimStart s)) = Some c ->
               Bash.isWhiteSpace c = false).
Proof.
  induction s as [|c s (ws & Heq & Hhead)].
  - exists EmptyString. split; [done|]. discriminate.
  - cbn [trimStart]. destruct (Bash.isWhiteSpace c) eqn:Hc.
    + exists (String c ws). split; [|done].
      change (String c s = String c (ws +:+ trimStart s)). by f_equal.
    + exists EmptyString. split; [done|]. simpl. by intros c0 [= <-].
Qed.

(** What [trim] keeps is a piece of its argument that neither starts nor
    ends with white space. *)
Lemma trim_decompose (s : string) :
  (exists pre post,
      list_ascii_of_string s = pre ++ list_ascii_of_string (trim s) ++ post) /\
  (forall c, head (list_ascii_of_string (trim s)) = Some c -> Bash.isWhiteSpace c = false) /\
  (forall c, last (list_ascii_of_string (trim s)) = Some c -> Bash.isWhiteSpace c = false).
Proof.
  unfold trim.
  destruct (BashFacts.trimEnd_decompose s) as (ws2 & Heq2 & _ & Hlast).
  destruct (trimStart_decompose (Bash.trimEnd s)) as (ws1 & Heq1 & Hhead).
  split; [|split; [exact Hhead|]].
  - exists (list_ascii_of_string ws1), (list_ascii_of_string ws2).
    rewrite Heq2 at 1. rewrite Heq1 at 1.
    by rewrite !BashOutputFacts.list_ascii_of_string_append, <- app_assoc.
  - intros c Hc. apply Hlast. rewrite Heq1.
    rewrite BashOutputFacts.list_ascii_of_string_append.
    destruct (list_ascii_of_string (trimStart (Bash.trimEnd s))) as [|x l] eqn:Hl; [done|].
    by rewrite last_app_cons.
Qed.

(** What the clean-up establishes, in terms of the longest runs. *)
Lemma htmlToText_tidy_facts (text : string) :
  let out := list_ascii_of_string (tidy text) in
  Forall (fun a => a <> TAB) out /\
  max_run SP out <= 2 /\
  max_run LF out <= 2 /\
  (forall c, head out = Some c -> Bash.isWhiteSpace c = false) /\
  (forall c, last out = Some c -> Bash.isWhiteSpace c = false).
Proof.
  cbv zeta. unfold tidy.
  set (l0 := list_ascii_of_string text).
  set (l1 := replace_runs TAB 1 [SP; SP] 0 l0).
  set (l2 := replace_runs SP 3 [SP; SP] 0 l1).
  set (l3 := replace_runs LF 3 [LF; LF] 0 l2).
  destruct (trim_decompose (string_of_list_ascii l3)) as ((pre & post & Hpiece) & Hhead & Hlast).
  rewrite list_ascii_of_string_of_list_ascii in Hpiece.
  set (out := list_ascii_of_string (trim (string_of_list_ascii l3))) in *.
  assert (Htab : Forall (fun a => a <> TAB) l3).
  { apply collapse_Forall; [done|]. apply collapse_Forall; [done|]. apply replace_tabs_none. }
  assert (Hsp : max_run SP l3 <= 2).
  { unfold l3. rewrite (proj1 (collapse_other_runs LF SP 0 l2 ltac:(done))).
    apply collapse_bounds. }
  assert (Hlf : max_run LF l3 <= 2) by apply collapse_bounds.
  assert (Hinside : forall c, max_run c out <= max_run c l3).
  { intros c. rewrite Hpiece. etrans; [|apply max_run_app_r]. apply max_run_app_l. }
  repeat split; try done.
  - rewrite Hpiece in Htab.
    apply Forall_app in Htab as [_ Htab]. by apply Forall_app in Htab as [Htab _].
  - specialize (Hinside SP). lia.
  - specialize (Hinside LF). lia.
Qed.

(** X11: whatever text cheerio extracts, [htmlToText] returns a text
    without any tab, without three spaces in a row, without three line
    feeds in a row, and without white space at its start or at its end. *)
Theorem htmlToText_is_tidy (body_text : string -> string) (html : string) :
  let out := list_ascii_of_string (htmlToText body_text html) in
  (TAB ∉ out) /\
  (forall l1 l2, out <> l1 ++ [SP; SP; SP] ++ l2) /\
  (forall l1 l2, out <> l1 ++ [LF; LF; LF] ++ l2) /\
  (forall c, head out = Some c -> Bash.isWhiteSpace c = false) /\
  (forall c, last out = Some c -> Bash.isWhiteSpace c = false).
Proof.
  cbv zeta. unfold htmlToText.
  destruct (htmlToText_tidy_facts (body_text html)) as (Htab & Hsp & Hlf & Hhead & Hlast).
  repeat split; try done.
  - intros Hin. rewrite Forall_forall in Htab. by apply (Htab TAB).
  - intros k1 k2 Heq. pose proof (max_run_inside SP 3 k1 k2) as H3.
    cbn [repeat] in H3. rewrite <- Heq in H3. lia.
  - intros k1 k2 Heq. pose proof (max_run_inside LF 3 k1 k2) as H3.
    cbn [repeat] in H3. rewrite <- Heq in H3. lia.
Qed.

(** Nothing to replace: no copy of [c], or only short runs of it. *)
Lemma replace_runs_absent c r l :
  Forall (fun a => a <> c) l -> replace_runs c 1 r 0 l = l.
Proof.
  induction 1 as [|a l Ha _ IH]; cbn [replace_runs]; [done|].
  rewrite (proj2 (Ascii.eqb_neq a c)) by done. by rewrite IH.
Qed.

Lemma collapse_short_runs c run l :
  run + lead c l <= 2 -> max_run c l <= 2 ->
  replace_runs c 3 [c; c] run l = repeat c run ++ l.
Proof.
  revert run. induction l as [|a l IH]; intros run Hlead Hmax; cbn [replace_runs].
  - unfold flush. simpl in Hlead. rewrite app_nil_r.
    by destruct (3 <=? run)%nat eqn:Hrun; [apply Nat.leb_le in Hrun; lia|].
  - cbn [max_run] in Hmax. destruct (Ascii.eqb a c) eqn:Ha.
    + apply Ascii.eqb_eq in Ha as ->. simpl in Hlead. rewrite Ascii.eqb_refl in Hlead.
      rewrite IH by lia. cbn [repeat]. by rewrite repeat_cons, <- app_assoc.
    + rewrite (IH 0) by (pose proof (lead_le_max_run c l); lia).
      unfold flush. by destruct (3 <=? run)%nat eqn:Hrun; [apply Nat.leb_le in Hrun; lia|].
Qed.

Lemma trimEnd_fixed (s : string) :
  (forall c, last (list_ascii_of_string s) = Some c -> Bash.isWhiteSpace c = false) ->
  Bash.trimEnd s = s.
Proof.
  induction s as [|c s IH]; intros Hlast; [done|].
  rewrite BashOutputFacts.trimEnd_cons. destruct s as [|c' s'].
  - simpl. by rewrite (Hlast c eq_refl).
  - rewrite IH; [done|]. intros c0 Hc0. apply Hlast. simpl in *. exact Hc0.
Qed.

Lemma trimStart_fixed (s : string) :
  (forall c, head (list_ascii_of_string s) = Some c -> Bash.isWhiteSpace c = false) ->
  trimStart s = s.
Proof. destruct s as [|c s]; intros Hhead; [done|]. simpl. by rewrite (Hhead c eq_refl). Qed.

(** X12: cleaning up a cleaned-up text changes nothing. *)
Theorem tidy_idempotent (text : string) : tidy (tidy text) = tidy text.
Proof.
  destruct (htmlToText_tidy_facts text) as (Htab & Hsp & Hlf & Hhead & Hlast).
  unfold tidy at 1.
  rewrite replace_runs_absent by done.
  pose proof (lead_le_max_run SP (list_ascii_of_string (tidy text))) as Hsp'.
  pose proof (lead_le_max_run LF (list_ascii_of_string (tidy text))) as Hlf'.
  rewrite (collapse_short_runs SP 0) by lia. cbn [repeat app].
  rewrite (collapse_short_runs LF 0) by lia. cbn [repeat app]. rewrite string_of_list_ascii_of_string.
  unfold trim. rewrite trimEnd_fixed by done. by apply trimStart_fixed.
Qed.

Example tidy_sample :
  tidy ("  a" +:+ String TAB (String TAB EmptyString) +:+ "   b"
        +:+ String LF (String LF (String LF (String LF EmptyString))) +:+ "c " +:+ String LF EmptyString)
  = "a  b" +:+ String LF (String LF EmptyString) +:+ "c".
Proof. reflexivity. Qed.
End HtmlFacts.

(** ** The interactive prompt *)
Module ReplFacts.
Import Eff Agent Observe LoopFacts Repl.

Section Prompt.
Context {World : Type}.
Implicit Types (ag : Agent World) (m : Machine World).

(** What a round of either revision appends, however it ends, is no user
    text. *)
Lemma guarded_round_replies ag m :
  exists ms,
    messages (AgentGuarded.round ag m).2 = messages m ++ ms /\
    Forall (fun msg => user_text msg = None) ms.
Proof.
  destruct (provider_reply ag m) as [[response|e] w] eqn:Hchat.
  - destruct (decide (toolUseBlocks (Anthropic.msg_content response) = [])) as [Hn|Hs].
    + rewrite (GuardedFacts.round_returns _ _ _ _ Hchat Hn). simpl.
      eexists. split; [done|]. by repeat constructor.
    + pose proof (GuardedFacts.round_dispatch_cases _ _ _ _ Hchat Hs) as Hround.
      destruct (AgentGuarded.round ag m) as [[[result|]|e|] m']; simpl; try done.
      * destruct Hround as (rs & Hmsg & _). rewrite Hmsg.
        eexists. split; [done|]. by repeat constructor.
      * destruct Hround as (Hmsg & _). rewrite Hmsg.
        eexists. split; [done|]. by repeat constructor.
  - rewrite (GuardedFacts.round_rejected _ _ _ _ Hchat). simpl.
    exists []. by rewrite app_nil_r.
Qed.

Lemma ts_round_replies ag m :
  exists ms,
    messages (AgentTs.round ag m).2 = messages m ++ ms /\
    Forall (fun msg => user_text msg = None) ms.
Proof.
  destruct (provider_reply ag m) as [[response|e] w] eqn:Hchat.
  - destruct (decide (Anthropic.stop_reason response = Some Anthropic.tool_use)) as [Hs|Hn].
    + pose proof (TsFacts.round_dispatches_ts _ _ _ _ Hchat Hs) as Hround.
      destruct (AgentTs.round ag m) as [[[result|]|e|] m']; simpl; try done.
      * destruct Hround as (rs & Hmsg & _). rewrite Hmsg.
        eexists. split; [done|]. by repeat constructor.
      * rewrite Hround. eexists. split; [done|]. by repeat constructor.
    + rewrite (TsFacts.round_returns_ts _ _ _ _ Hchat Hn). simpl.
      eexists. split; [done|]. by repeat constructor.
  - rewrite (TsFacts.round_rejected_ts _ _ _ _ Hchat). simpl.
    exists []. by rewrite app_nil_r.
Qed.

Lemma while_true_replies (body : M World (option string)) :
  (forall m, exists ms, messages (body m).2 = messages m ++ ms /\
                        Forall (fun msg => user_text msg = None) ms) ->
  forall fuel m,
    omap user_text (messages (while_true body fuel m).2) = omap user_text (messages m).
Proof.
  intros Hbody.
  assert (Hstep : forall m, omap user_text (messages (body m).2) = omap user_text (messages m)).
  { intros m. destruct (Hbody m) as (ms & -> & Hms). rewrite omap_app.
    assert (omap user_text ms = []) as ->; [|by rewrite app_nil_r].
    clear -Hms. induction Hms as [|msg ms Hmsg _ IH]; [done|]. simpl. by rewrite Hmsg. }
  induction fuel as [|fuel IH]; intros m; [done|].
  simpl. unfold bind. specialize (Hstep m).
  destruct (body m) as [[[r|]|e|] m1]; simpl in *; try done.
  by rewrite IH.
Qed.

(** Each [run] adds one user text to the conversation: the message it was
    given. *)
Lemma run_adds_the_utterance ag fuel userMessage m :
  omap user_text (messages (AgentGuarded.run ag fuel userMessage m).2)
    = omap user_text (messages m) ++ [userMessage] /\
  omap user_text (messages (AgentTs.run ag fuel userMessage m).2)
    = omap user_text (messages m) ++ [userMessage].
Proof.
  rewrite TranscriptFacts.guarded_run_unfold, TranscriptFacts.ts_run_unfold.
  rewrite (while_true_replies _ (guarded_round_replies ag)),
          (while_true_replies _ (ts_round_replies ag)).
  simpl. by rewrite omap_app.
Qed.

(** X13: a line that reads [exit] or [quit] once trimmed closes the
    prompt: whatever lines follow it are never read, and the prompt does
    not end at the end of the input. *)
Theorem prompt_stops_at_exit (run : string -> M World string)
    (before after : list string) (line : string) m
    (Hexit : Html.trim line = "exit" \/ Html.trim line = "quit") :
  prompt run (before ++ line :: after) m = prompt run (before ++ [line]) m /\
  (prompt run (before ++ line :: after) m).1.2 <> EndOfInput.
Proof.
  assert (Hguard : bool_decide (Html.trim line = "exit")
                   || bool_decide (Html.trim line = "quit") = true).
  { destruct Hexit as [-> | ->]; by vm_compute. }
  revert m. induction before as [|input before IH]; intros m; cbn [app prompt].
  - by rewrite Hguard.
  - destruct (bool_decide (Html.trim input = "exit") || bool_decide (Html.trim input = "quit"));
      [done|].
    destruct (negb (Parser.truthy (Html.trim input))).
    + destruct (IH m) as [-> Hend].
      by destruct (prompt run (before ++ [line]) m) as [[printed ended] m'].
    + destruct (run (Html.trim input) m) as [[response|[err|n]|] m1]; [| |done|done];
        destruct (IH m1) as [-> Hend];
        by destruct (prompt run (before ++ [line]) m1) as [[printed ended] m'].
Qed.

(** The prompt over a [run] that adds its utterance to the conversation. *)
Lemma prompt_transcript_of (run : string -> M World string) :
  (forall u m, omap user_text (messages (run u m).2) = omap user_text (messages m) ++ [u]) ->
  forall lines m,
    exists handed,
      handed `prefix_of` utterances lines /\
      omap user_text (messages (prompt run lines m).2)
        = omap user_text (messages m) ++ handed /\
      ((prompt run lines m).1.2 <> Hung ->
       (forall err, (prompt run lines m).1.2 <> Unhandled err) ->
       handed = utterances lines /\
       length (List.filter is_answer (prompt run lines m).1.1) = length (utterances lines)).
Proof.
  intros Hrun. induction lines as [|input lines IH]; intros m; cbn [prompt utterances].
  - exists []. by rewrite app_nil_r.
  - destruct (bool_decide (Html.trim input = "exit") || bool_decide (Html.trim input = "quit")).
    { exists []. by rewrite app_nil_r. }
    destruct (negb (Parser.truthy (Html.trim input))).
    { specialize (IH m). by destruct (prompt run lines m) as [[printed ended] m']. }
    specialize (Hrun (Html.trim input) m).
    destruct (run (Html.trim input) m) as [[response|[err|n]|] m1]; simpl in Hrun.
    + destruct (IH m1) as (handed & Hpre & Hmsg & Hall).
      destruct (prompt run lines m1) as [[printed ended] m']; simpl in *.
      exists (Html.trim input :: handed). split; [by apply prefix_cons|].
      split; [by rewrite Hmsg, Hrun, <- app_assoc|].
      intros H1 H2. destruct (Hall H1 H2) as [-> ->]. done.
    + destruct (IH m1) as (handed & Hpre & Hmsg & Hall).
      destruct (prompt run lines m1) as [[printed ended] m']; simpl in *.
      exists (Html.trim input :: handed). split; [by apply prefix_cons|].
      split; [by rewrite Hmsg, Hrun, <- app_assoc|].
      intros H1 H2. destruct (Hall H1 H2) as [-> ->]. done.
    + exists [Html.trim input]. simpl. split; [apply prefix_cons, prefix_nil|].
      split; [done|]. intros _ H. by destruct (H (TypeError_message n)).
    + exists [Html.trim input]. simpl. split; [apply prefix_cons, prefix_nil|].
      split; [done|]. by intros H.
Qed.

(** The prompt ends on an unhandled rejection only when a [run] throws
    [null] or [undefined]. *)
Lemma prompt_handles_errors (run : string -> M World string) :
  (forall u m n, (run u m).1 <> Throw (RaisedNullish n)) ->
  forall lines m err, (prompt run lines m).1.2 <> Unhandled err.
Proof.
  intros Hrun. induction lines as [|input lines IH]; intros m err; cbn [prompt]; [done|].
  destruct (bool_decide (Html.trim input = "exit") || bool_decide (Html.trim input = "quit"));
    [done|].
  destruct (negb (Parser.truthy (Html.trim input))).
  { specialize (IH m err). by destruct (prompt run lines m) as [[printed ended] m']. }
  specialize (Hrun (Html.trim input) m).
  destruct (run (Html.trim input) m) as [[response|[e|n]|] m1]; simpl in Hrun.
  - specialize (IH m1 err). by destruct (prompt run lines m1) as [[printed ended] m'].
  - specialize (IH m1 err). by destruct (prompt run lines m1) as [[printed ended] m'].
  - by destruct (Hrun n).
  - done.
Qed.

(** What the loop throws is what its body threw. *)
Lemma while_true_throws (body : M World (option string)) (P : Thrown -> Prop) :
  (forall m e, (body m).1 = Throw e -> P e) ->
  forall fuel m e, (while_true body fuel m).1 = Throw e -> P e.
Proof.
  intros Hbody. induction fuel as [|fuel IH]; intros m e; [done|].
  simpl. unfold bind. specialize (Hbody m).
  destruct (body m) as [[[r|]|e0|] m1]; simpl in *; try done.
  - apply IH.
  - intros [= <-]. by apply Hbody.
Qed.

(** The loop of [src/agent.ts] stops at what an executor rejects with. *)
Lemma for_content_throws_what ag content :
  forall toolResults m e,
    (AgentTs.for_content ag content toolResults m).1 = Throw e ->
    exists name tool input w,
      toolMap ag !! name = Some tool /\ (Types.execute tool input w).1 = Rejected e.
Proof.
  induction content as [|block content IH]; intros acc m e; cbn [AgentTs.for_content];
    [done|].
  destruct (as_tool_use block) as [[[id name] input]|]; [|apply IH].
  unfold bind at 1. destruct (toolMap ag !! name) as [tool|] eqn:Hlook.
  - rewrite (TsFacts.dispatch_known_ts _ _ _ _ tool) by done.
    destruct (Types.execute tool input (world m)) as [[result|err] w] eqn:Hexec; cbn [fst snd].
    + apply IH.
    + simpl. intros [= <-]. exists name, tool, input, (world m). by rewrite Hexec.
  - rewrite TsFacts.dispatch_unknown_ts by done. apply IH.
Qed.

(** When the provider and, for [src/agent.ts], the executors reject with
    values that have a [message], so does [run]. *)
Lemma run_throws_readable ag fuel userMessage m n :
  provider_readable ag ->
  (AgentGuarded.run ag fuel userMessage m).1 <> Throw (RaisedNullish n) /\
  (rejections_readable ag ->
   (AgentTs.run ag fuel userMessage m).1 <> Throw (RaisedNullish n)).
Proof.
  intros Hprov.
  assert (Hchat : forall m0 e w, provider_reply ag m0 = (Rejected e, w) ->
                                 e <> RaisedNullish n).
  { intros m0 e w Hreply ->. unfold provider_reply, Llm.chat in Hreply.
    eapply Hprov. by rewrite Hreply. }
  split; [|intros Hread].
  - rewrite TranscriptFacts.guarded_run_unfold. intros Hthrow.
    apply (while_true_throws _ (fun e => e <> RaisedNullish n)) in Hthrow; [done|].
    clear -Hchat. intros m e Hround.
    destruct (provider_reply ag m) as [[response|e0] w] eqn:Hreply.
    + destruct (decide (toolUseBlocks (Anthropic.msg_content response) = [])) as [Hn|Hs].
      * by rewrite (GuardedFacts.round_returns _ _ _ _ Hreply Hn) in Hround.
      * pose proof (GuardedFacts.round_dispatch_cases _ _ _ _ Hreply Hs) as H.
        destruct (AgentGuarded.round ag m) as [[[result|]|e1|] m']; try done.
        simpl in Hround. injection Hround as ->.
        by destruct H as (_ & _ & name & tool & input & w0 & n0 & _ & _ & ->).
    + rewrite (GuardedFacts.round_rejected _ _ _ _ Hreply) in Hround.
      simpl in Hround. injection Hround as <-. by eapply Hchat.
  - rewrite TranscriptFacts.ts_run_unfold. intros Hthrow.
    apply (while_true_throws _ (fun e => e <> RaisedNullish n)) in Hthrow; [done|].
    clear -Hchat Hread. intros m e Hround.
    destruct (provider_reply ag m) as [[response|e0] w] eqn:Hreply.
    + unfold AgentTs.round, bind at 1 in Hround.
      rewrite (await_chat_resolved _ _ _ _ Hreply) in Hround.
      unfold bind at 1, push at 1 in Hround. cbn iota beta in Hround.
      destruct (decide (Anthropic.stop_reason response ≠ Some Anthropic.tool_use));
        [done|].
      unfold bind at 1 in Hround.
      match type of Hround with context [AgentTs.for_content ag ?c [] ?m1] =>
        pose proof (for_content_throws_what ag c [] m1) as Hwhat;
        destruct (AgentTs.for_content ag c [] m1) as [[rs|e1|] m2] end; try done.
      simpl in Hround. injection Hround as ->.
      destruct (Hwhat e eq_refl) as (name & tool & input & w0 & Hlook & Hrej).
      intros ->. by destruct (Hread _ _ _ _ _ Hlook Hrej).
    + rewrite (TsFacts.round_rejected_ts _ _ _ _ Hreply) in Hround.
      simpl in Hround. injection Hround as <-. by eapply Hchat.
Qed.

(** X14: the user texts of the conversation the prompt leaves are those it
    started with followed by trimmed, non-blank lines read before [exit] or
    [quit], in order and once each, whether their [run] returned or threw.
    Unless the prompt ends on a [run] that fails to return or on an
    unhandled rejection, they are all of these lines, and one answer or
    error is printed for each of them. The prompt ends on an unhandled
    rejection only when [run] throws [null] or [undefined], on which its
    [catch] clause throws: not when the provider and, for [src/agent.ts],
    the executors reject with values that have a [message]. *)
Theorem prompt_transcript ag fuel lines m :
  let transcript (r : list Printed * Ended * Machine World) :=
    exists handed,
      handed `prefix_of` utterances lines /\
      omap user_text (messages r.2) = omap user_text (messages m) ++ handed /\
      (r.1.2 <> Hung -> (forall err, r.1.2 <> Unhandled err) ->
       handed = utterances lines /\
       length (List.filter is_answer r.1.1) = length (utterances lines)) in
  transcript (prompt (AgentGuarded.run ag fuel) lines m) /\
  transcript (prompt (AgentTs.run ag fuel) lines m) /\
  (provider_readable ag ->
   forall err, (prompt (AgentGuarded.run ag fuel) lines m).1.2 <> Unhandled err) /\
  (provider_readable ag -> rejections_readable ag ->
   forall err, (prompt (AgentTs.run ag fuel) lines m).1.2 <> Unhandled err).
Proof.
  cbv zeta. split; [|split; [|split]].
  - apply prompt_transcript_of. intros u m0.
    by destruct (run_adds_the_utterance ag fuel u m0).
  - apply prompt_transcript_of. intros u m0.
    by destruct (run_adds_the_utterance ag fuel u m0).
  - intros Hprov. apply prompt_handles_errors. intros u m0 n.
    by destruct (run_throws_readable ag fuel u m0 n Hprov).
  - intros Hprov Hread. apply prompt_handles_errors. intros u m0 n.
    destruct (run_throws_readable ag fuel u m0 n Hprov) as [_ H]. by apply H.
Qed.

(** The prompt over a [run] that only appends and issues what the agent
    is configured for. *)
Lemma prompt_effect_of ag (run : string -> M World string) :
  (forall u m, exists ms evs,
      messages (run u m).2 = messages m ++ ms /\
      trace (run u m).2 = trace m ++ evs /\
      Forall (Transcript.issued ag (messages m) (messages (run u m).2)) evs) ->
  forall lines m, exists ms evs,
    messages (prompt run lines m).2 = messages m ++ ms /\
    trace (prompt run lines m).2 = trace m ++ evs /\
    Forall (Transcript.issued ag (messages m) (messages (prompt run lines m).2)) evs.
Proof.
  intros Hrun. induction lines as [|input lines IH]; intros m; cbn [prompt].
  - exists [], []. simpl. by rewrite !app_nil_r.
  - destruct (bool_decide (Html.trim input = "exit") || bool_decide (Html.trim input = "quit")).
    { exists [], []. simpl. by rewrite !app_nil_r. }
    destruct (negb (Parser.truthy (Html.trim input))).
    { specialize (IH m). by destruct (prompt run lines m) as [[printed ended] m']. }
    destruct (Hrun (Html.trim input) m) as (ms1 & evs1 & Hmsg1 & Htr1 & Hevs1).
    assert (Hnext : forall m1,
      messages m1 = messages m ++ ms1 -> trace m1 = trace m ++ evs1 ->
      Forall (Transcript.issued ag (messages m) (messages m1)) evs1 ->
      exists ms evs,
        messages (prompt run lines m1).2 = messages m ++ ms /\
        trace (prompt run lines m1).2 = trace m ++ evs /\
        Forall (Transcript.issued ag (messages m) (messages (prompt run lines m1).2)) evs).
    { intros m1 H1 H2 H3. destruct (IH m1) as (ms2 & evs2 & Hmsg2 & Htr2 & Hevs2).
      exists (ms1 ++ ms2), (evs1 ++ evs2).
      rewrite Hmsg2, Htr2, H1, H2, <- !app_assoc. split; [done|]. split; [done|].
      apply Forall_app. split.
      - eapply Forall_impl; [exact H3|]. intros ev. apply TranscriptFacts.issued_weaken; [done|].
        rewrite H1. by apply prefix_app, prefix_app_r.
      - eapply Forall_impl; [exact Hevs2|]. intros ev.
        apply TranscriptFacts.issued_weaken.
        + rewrite H1. by apply prefix_app_r.
        + by rewrite Hmsg2, H1, <- app_assoc. }
    destruct (run (Html.trim input) m) as [[response|[err|n]|] m1]; simpl in *.
    + specialize (Hnext m1 Hmsg1 Htr1 Hevs1).
      by destruct (prompt run lines m1) as [[printed ended] m'].
    + specialize (Hnext m1 Hmsg1 Htr1 Hevs1).
      by destruct (prompt run lines m1) as [[printed ended] m'].
    + by exists ms1, evs1.
    + by exists ms1, evs1.
Qed.

Lemma run_effect ag fuel userMessage m :
  let grows (m' : Machine World) :=
    exists ms evs,
      messages m' = messages m ++ ms /\
      trace m' = trace m ++ evs /\
      Forall (Transcript.issued ag (messages m) (messages m')) evs in
  grows (AgentGuarded.run ag fuel userMessage m).2 /\
  grows (AgentTs.run ag fuel userMessage m).2.
Proof.
  cbv zeta. split.
  - rewrite TranscriptFacts.guarded_run_unfold.
    match goal with |- context [while_true _ fuel ?m1] =>
      destruct (TranscriptFacts.while_true_effect ag _
                  (TranscriptFacts.guarded_round_effect ag) fuel m1)
        as (ms & evs & Hmsg & Htr & Hevs) end.
    cbn [messages trace] in Hmsg, Htr, Hevs. eexists (_ :: ms), evs.
    rewrite Hmsg, Htr, <- app_assoc. cbn [app]. repeat split.
    eapply Forall_impl; [exact Hevs|]. intros ev. apply TranscriptFacts.issued_weaken.
    + by apply prefix_app_r.
    + by rewrite <- app_assoc.
  - rewrite TranscriptFacts.ts_run_unfold.
    match goal with |- context [while_true _ fuel ?m1] =>
      destruct (TranscriptFacts.while_true_effect ag _
                  (TranscriptFacts.ts_round_effect ag) fuel m1)
        as (ms & evs & Hmsg & Htr & Hevs) end.
    cbn [messages trace] in Hmsg, Htr, Hevs. eexists (_ :: ms), evs.
    rewrite Hmsg, Htr, <- app_assoc. cbn [app]. repeat split.
    eapply Forall_impl; [exact Hevs|]. intros ev. apply TranscriptFacts.issued_weaken.
    + by apply prefix_app_r.
    + by rewrite <- app_assoc.
Qed.

(** What the agent built by [main] issues is a [session_event]. *)
Lemma issued_session_event (new_Anthropic : string -> Types.Client World)
    (builtinTools : list (Types.Tool World)) (SYSTEM_PROMPT apiKey : string) lo hi ev :
  Transcript.issued
    (assign new_Anthropic
       {| Types.model := "claude-sonnet-4-5-20250929";
          Types.maxTokens := 4096;
          Types.apiKey := apiKey;
          Types.tools := builtinTools;
          Types.systemPrompt := SYSTEM_PROMPT |}) lo hi ev ->
  session_event builtinTools SYSTEM_PROMPT lo hi ev.
Proof.
  destruct ev as [req|name input]; simpl.
  - intros (-> & Hlo & Hhi). by repeat split.
  - intros [t Ht]. pose proof (RegistryFacts.new_Map_name _ _ _ Ht) as <-.
    rewrite RegistryFacts.new_Map_lookup in Ht. apply last_Some_elem_of in Ht.
    apply list_elem_of_filter in Ht as [_ Ht]. by apply list_elem_of_fmap_2.
Qed.

(** X15: a whole session of [main], with either revision of [run], is one
    growing conversation: what was in it stays, every provider request
    names the model [claude-sonnet-4-5-20250929] with 4096 tokens, the
    system prompt and the converted built-in tools, and carries a
    conversation that extends the one before the session and is extended by
    the one after; only built-in tools are executed; and without an API key
    (unset or empty) the process exits with 1, the conversation untouched
    and nothing issued. *)
Theorem main_session (new_Anthropic : string -> Types.Client World)
    (builtinTools : list (Types.Tool World)) (SYSTEM_PROMPT : string)
    (fuel : nat) (ANTHROPIC_API_KEY : option string) (lines : list string) m :
  let session (r : list Printed * Ended * Machine World) :=
    exists evs,
      messages m `prefix_of` messages r.2 /\
      trace r.2 = trace m ++ evs /\
      Forall (session_event builtinTools SYSTEM_PROMPT (messages m) (messages r.2)) evs /\
      (ANTHROPIC_API_KEY = None \/ ANTHROPIC_API_KEY = Some EmptyString ->
       evs = [] /\ messages r.2 = messages m /\ r.1.2 = Exited 1) in
  session (main new_Anthropic (fun ag => AgentGuarded.run ag fuel) builtinTools SYSTEM_PROMPT
                ANTHROPIC_API_KEY lines m) /\
  session (main new_Anthropic (fun ag => AgentTs.run ag fuel) builtinTools SYSTEM_PROMPT
                ANTHROPIC_API_KEY lines m).
Proof.
  cbv zeta.
  destruct ANTHROPIC_API_KEY as [[|c apiKey]|]; cbn [main];
    try (split; exists []; simpl; rewrite app_nil_r; by repeat split).
  split.
  - match goal with |- context [prompt ?r lines m] =>
      destruct (prompt_effect_of _ r
                  (fun u m0 => proj1 (run_effect _ fuel u m0)) lines m)
        as (ms & evs & Hmsg & Htr & Hevs);
      destruct (prompt r lines m) as [[printed ended] m'] end.
    simpl in *. exists evs. split; [rewrite Hmsg; by apply prefix_app_r|].
    split; [done|]. split; [|by intros [|]].
    eapply Forall_impl; [exact Hevs|]. intros ev. apply issued_session_event.
  - match goal with |- context [prompt ?r lines m] =>
      destruct (prompt_effect_of _ r
                  (fun u m0 => proj2 (run_effect _ fuel u m0)) lines m)
        as (ms & evs & Hmsg & Htr & Hevs);
      destruct (prompt r lines m) as [[printed ended] m'] end.
    simpl in *. exists evs. split; [rewrite Hmsg; by apply prefix_app_r|].
    split; [done|]. split; [|by intros [|]].
    eapply Forall_impl; [exact Hevs|]. intros ev. apply issued_session_event.
Qed.
End Prompt.

Lemma prompt_stops_at_exit_witness :
  let run := AgentGuarded.run Examples.agent_noop 3 in
  (Html.trim "  quit " = "exit" \/ Html.trim "  quit " = "quit") /\
  prompt run (["hi"; " "] ++ "  quit " :: ["never read"]) Examples.m0
    = prompt run (["hi"; " "] ++ ["  quit "]) Examples.m0 /\
  (prompt run (["hi"; " "] ++ "  quit " :: ["never read"]) Examples.m0).1.2 <> EndOfInput.
Proof.
  intros run.
  assert (Hexit : Html.trim "  quit " = "exit" \/ Html.trim "  quit " = "quit")
    by (right; vm_compute; reflexivity).
  split; [exact Hexit|].
  exact (prompt_stops_at_exit run ["hi"; " "] ["never read"] "  quit " Examples.m0 Hexit).
Defined.

(** A provider that fails on every call: both lines still reach the
    conversation, and each gets its error printed. *)
Example prompt_survives_errors :
  let ag := Examples.agent_of Examples.broken_client [] in
  let r := prompt (AgentTs.run ag 3) ["  first  "; EmptyString; "second"; "exit"; "third"]
                  Examples.m0 in
  r.1.2 = Closed /\
  omap user_text (messages r.2) = ["first"; "second"] /\
  List.filter is_answer r.1.1
    = [ErrorLog (newline +:+ "Error: connection refused" +:+ newline);
       ErrorLog (newline +:+ "Error: connection refused" +:+ newline)].
Proof. by vm_compute. Qed.
End ReplFacts.

(** ** The query of [linkedin_jobs] *)
Module LinkedinJobsFacts.
Import LinkedinJobs.




(** An unknown key is dropped, an empty [limit] becomes 10, and the
    [null] and zero filters are left out. *)
Example queryOptions_sample :
  queryOptions Samples.sample_search
  = {[ "keyword" := Some (JStr "engineer"); "limit" := Some (JStr "10");
       "location" := Some (JStr "Remote") ]}.
Proof. vm_compute. reflexivity. Qed.
End LinkedinJobsFacts.
